(** * L1Beat backend: the TPS ingestion and aggregation pipeline

    A shallow embedding of [services/tpsService.js] (class [TpsService]) and
    of the single-chain refresh route of [routes/updateRoutes.js], together
    with the pieces of JavaScript and of the MongoDB collection they rest on.

    Layout: [Js] (numbers, conversions, dates), [Store] (the TPS
    collection), [Eff] (state, trace and exceptions), [TpsService] and
    [UpdateRoutes] (the code itself), then the lemmas. *)

From Stdlib Require Import ZArith QArith Qround Qabs Lia Lqa List Bool Arith Sorted.
From Stdlib Require Import Permutation.
From Stdlib Require Import String Ascii.
Import ListNotations.

Local Open Scope string_scope.
Local Open Scope Z_scope.

(* ===================================================================== *)
(** * JavaScript values *)
(* ===================================================================== *)

Module Js.

(** A JavaScript number.  [NaN] and the two infinities are kept; a finite
    number is represented by its exact rational value, so arithmetic on
    finite numbers is exact: binary64 rounding, overflow and the sign of
    zero are not part of this model. *)
Inductive jsnum : Type :=
| NaN
| PosInf
| NegInf
| Fin (q : Q).

(** The scalar values a JSON field can hold; [JUndefined] is an absent
    property. *)
Inductive jsval : Type :=
| JUndefined
| JNull
| JBool (b : bool)
| JNum (n : jsnum)
| JStr (s : string).

Definition of_Z (z : Z) : jsnum := Fin (inject_Z z).

Definition isNaN (n : jsnum) : bool :=
match n with NaN => true | _ => false end.

Definition isFinite (n : jsnum) : bool :=
match n with Fin _ => true | _ => false end.

(** [a <= b]; every comparison with [NaN] is false. *)
Definition num_le (a b : jsnum) : bool :=
match a, b with
| NaN, _ | _, NaN => false
| NegInf, _ => true
| _, PosInf => true
| PosInf, _ => false
| Fin _, NegInf => false
| Fin p, Fin q => Qle_bool p q
end.

(** [a >= b]. *)
Definition num_ge (a b : jsnum) : bool := num_le b a.

(** [a < b] and [a > b]. *)
Definition num_lt (a b : jsnum) : bool :=
match a, b with
| NaN, _ | _, NaN => false
| PosInf, _ => false
| _, NegInf => false
| NegInf, _ => true
| Fin _, PosInf => true
| Fin p, Fin q => negb (Qle_bool q p)
end.

Definition num_gt (a b : jsnum) : bool := num_lt b a.

(** [a + b] on numbers. *)
Definition num_add (a b : jsnum) : jsnum :=
match a, b with
| NaN, _ | _, NaN => NaN
| PosInf, NegInf | NegInf, PosInf => NaN
| PosInf, _ | _, PosInf => PosInf
| NegInf, _ | _, NegInf => NegInf
| Fin p, Fin q => Fin (p + q)
end.

Definition num_neg (a : jsnum) : jsnum :=
match a with
| NaN => NaN
| PosInf => NegInf
| NegInf => PosInf
| Fin q => Fin (- q)
end.

(** [a - b]. *)
Definition num_sub (a b : jsnum) : jsnum := num_add a (num_neg b).

(** [a * k] and [a / k] for a positive constant [k] (the code only scales
    by 1000 and divides by 60). *)
Definition num_scale (a : jsnum) (k : Q) : jsnum :=
match a with
| Fin q => Fin (q * k)
| other => other
end.

Definition num_div (a : jsnum) (k : Q) : jsnum :=
match a with
| Fin q => Fin (q / k)
| other => other
end.

(** [Math.floor]. *)
Definition floor (a : jsnum) : jsnum :=
match a with
| Fin q => of_Z (Qfloor q)
| other => other
end.

(** [Math.max(a, b)] and [Math.min(a, b)]: [NaN] if either is [NaN]. *)
Definition max2 (a b : jsnum) : jsnum :=
match a, b with
| NaN, _ | _, NaN => NaN
| _, _ => if num_le a b then b else a
end.

Definition min2 (a b : jsnum) : jsnum :=
match a, b with
| NaN, _ | _, NaN => NaN
| _, _ => if num_le a b then a else b
end.

(** [Math.max(...l)] and [Math.min(...l)]; on the empty list they are
    [-Infinity] and [Infinity]. *)
Definition max_list (l : list jsnum) : jsnum := fold_left max2 l NegInf.
Definition min_list (l : list jsnum) : jsnum := fold_left min2 l PosInf.

(** ** Numeric literals in strings *)

Definition is_ws (c : ascii) : bool :=
let n := nat_of_ascii c in
(((9 <=? n) && (n <=? 13)) || (n =? 32) || (n =? 160))%nat.

Fixpoint trim_left (s : string) : string :=
match s with
| String c s' => if is_ws c then trim_left s' else s
| EmptyString => EmptyString
end.

Fixpoint trim_right (s : string) : string :=
match s with
| String c s' =>
    match trim_right s' with
    | EmptyString => if is_ws c then EmptyString else String c EmptyString
    | t => String c t
    end
| EmptyString => EmptyString
end.

Definition trim (s : string) : string := trim_right (trim_left s).

(** The value of a digit in a given radix. *)
Definition digit_in (radix : Z) (c : ascii) : option Z :=
let n := Z.of_nat (nat_of_ascii c) in
let d := if (48 <=? n) && (n <=? 57) then n - 48
         else if (97 <=? n) && (n <=? 122) then n - 87
         else if (65 <=? n) && (n <=? 90) then n - 55
         else radix in
if d <? radix then Some d else None.

(** Reads the longest run of digits: the number read so far, how many
    digits were read, and what is left. *)
Fixpoint scan_digits (radix : Z) (s : string) (acc : Z) (cnt : nat)
  : Z * nat * string :=
match s with
| String c s' =>
    match digit_in radix c with
    | Some d => scan_digits radix s' (radix * acc + d) (S cnt)
    | None => (acc, cnt, s)
    end
| EmptyString => (acc, cnt, s)
end.

Fixpoint strip_prefix (p s : string) : option string :=
match p, s with
| EmptyString, _ => Some s
| String a p', String b s' =>
    if Ascii.eqb a b then strip_prefix p' s' else None
| String _ _, EmptyString => None
end.

(** [m * 10^e], in lowest terms. *)
Definition decimal (m e : Z) : Q :=
Qred (inject_Z m * Qpower (10 # 1) e).

(** An optional exponent part [e±ddd]; without a well-formed one nothing
    is consumed. *)
Definition scan_exponent (s : string) : Z * string :=
match s with
| String c r =>
    if Ascii.eqb c "e" || Ascii.eqb c "E" then
      let '(sign, r1) :=
        match r with
        | String "+" r' => (1, r')
        | String "-" r' => (-1, r')
        | _ => (1, r)
        end in
      let '(e, n, r2) := scan_digits 10 r1 0 0 in
      match n with
      | O => (0, s)
      | _ => (sign * e, r2)
      end
    else (0, s)
| EmptyString => (0, s)
end.

(** The longest prefix that is a StrUnsignedDecimalLiteral. *)
Definition scan_unsigned (s : string) : option (jsnum * string) :=
match strip_prefix "Infinity" s with
| Some rest => Some (PosInf, rest)
| None =>
    let '(m1, n1, r1) := scan_digits 10 s 0 0 in
    let '(m, n2, r2) :=
      match r1 with
      | String "." r =>
          let '(m2, k, r') := scan_digits 10 r m1 0 in
          match n1, k with
          | O, O => (m1, O, r1)
          | _, _ => (m2, k, r')
          end
      | _ => (m1, O, r1)
      end in
    match (n1 + n2)%nat with
    | O => None
    | _ =>
        let '(e, r3) := scan_exponent r2 in
        Some (Fin (decimal m (e - Z.of_nat n2)), r3)
    end
end.

(** The longest prefix that is a StrDecimalLiteral (an optional sign
    first). *)
Definition scan_signed (s : string) : option (jsnum * string) :=
match s with
| String "+" r => scan_unsigned r
| String "-" r =>
    match scan_unsigned r with
    | Some (n, rest) => Some (num_neg n, rest)
    | None => None
    end
| _ => scan_unsigned s
end.

(** [0x], [0o] and [0b] literals, which [Number] accepts unsigned. *)
Definition scan_radix (s : string) : option jsnum :=
match s with
| String "0" (String c r) =>
    let radix :=
      if Ascii.eqb c "x" || Ascii.eqb c "X" then Some 16
      else if Ascii.eqb c "o" || Ascii.eqb c "O" then Some 8
      else if Ascii.eqb c "b" || Ascii.eqb c "B" then Some 2
      else None in
    match radix with
    | Some b =>
        match scan_digits b r 0 0 with
        | (_, O, _) => Some NaN
        | (v, _, EmptyString) => Some (of_Z v)
        | _ => Some NaN
        end
    | None => None
    end
| _ => None
end.

(** [Number(s)] on a string: the whole trimmed string must be a numeric
    literal; the empty string is 0. *)
Definition string_to_number (s : string) : jsnum :=
match trim s with
| EmptyString => of_Z 0
| t =>
    match scan_radix t with
    | Some n => n
    | None =>
        match scan_signed t with
        | Some (n, EmptyString) => n
        | _ => NaN
        end
    end
end.

(** [Number(v)]. *)
Definition Number (v : jsval) : jsnum :=
match v with
| JUndefined => NaN
| JNull => of_Z 0
| JBool true => of_Z 1
| JBool false => of_Z 0
| JNum n => n
| JStr s => string_to_number s
end.

(** [parseFloat(v)]: the argument is turned into a string, and the longest
    leading decimal literal of it is read.  A number prints to a string
    that reads back as the same number. *)
Definition parseFloat (v : jsval) : jsnum :=
match v with
| JUndefined | JNull | JBool _ => NaN
| JNum n => n
| JStr s =>
    match scan_signed (trim_left s) with
    | Some (n, _) => n
    | None => NaN
    end
end.

(** ** Truthiness and the [||] default *)

(** [!!n]: 0 and [NaN] are falsy. *)
Definition truthy_num (n : jsnum) : bool :=
match n with
| NaN => false
| Fin q => negb (Qeq_bool q 0)
| _ => true
end.

(** ** Rounding to two decimals *)

(** The integer nearest to [q], a tie going away from zero. *)
Definition round_half_away (q : Q) : Z :=
if Qle_bool 0 q then Qfloor (q + (1 # 2)) else (- Qfloor (- q + (1 # 2)))%Z.

(** The integer nearest to [q], a tie going to the even neighbour. *)
Definition round_half_even (q : Q) : Z :=
let n := Qfloor q in
let frac := (q - inject_Z n)%Q in
if Qeq_bool frac (1 # 2) then (if Z.even n then n else n + 1)
else if Qle_bool frac (1 # 2) then n else n + 1.

(** [parseFloat(x.toFixed(2))].  [toFixed(2)] prints the multiple of 0.01
    nearest to [x], the larger one on a tie (on the absolute value, the
    sign being printed first), ["NaN"] and ["Infinity"] for those, and
    [parseFloat] reads the text back.  Numbers from 1e21 on are printed by
    [toString] instead and read back unchanged: a binary64 number that
    large is an integer, already its own rounding to two decimals. *)
Definition toFixed2 (x : jsnum) : jsnum :=
match x with
| Fin q => Fin (Qred (inject_Z (round_half_away (q * 100)) / 100))
| other => other
end.

(** ** Dates *)

(** A time value in milliseconds since the epoch; [None] is the invalid
    date. *)
Definition date : Type := option Z.

Definition maxTime : Z := 8640000000000000.

(** ToIntegerOrInfinity on a finite number: truncation towards zero. *)
Definition truncate (q : Q) : Z :=
if Qle_bool 0 q then Qfloor q else Qceiling q.

(** [new Date(x)] for a number [x] (TimeClip). *)
Definition new_Date (x : jsnum) : date :=
match x with
| Fin q => if Qle_bool (Qabs q) (inject_Z maxTime) then Some (truncate q)
           else None
| _ => None
end.

Definition msPerDay : Z := 86400000.

(** Year, month and day of the month of a day number counted from
    1970-01-01, in the proleptic Gregorian calendar. *)
Definition civil_from_days (day : Z) : Z * Z * Z :=
let z := day + 719468 in
let era := z / 146097 in
let doe := z mod 146097 in
let yoe := (doe - doe / 1460 + doe / 36524 - doe / 146096) / 365 in
let doy := doe - (365 * yoe + yoe / 4 - yoe / 100) in
let mp := (5 * doy + 2) / 153 in
let d := doy - (153 * mp + 2) / 5 + 1 in
let m := if mp <? 10 then mp + 3 else mp - 9 in
(yoe + era * 400 + (if m <=? 2 then 1 else 0), m, d).

(** The day number of a calendar date (the inverse direction). *)
Definition days_from_civil (y m d : Z) : Z :=
let y' := if m <=? 2 then y - 1 else y in
let era := y' / 400 in
let yoe := y' mod 400 in
let doy := (153 * (if 2 <? m then m - 3 else m + 9) + 2) / 5 + d - 1 in
let doe := yoe * 365 + yoe / 4 - yoe / 100 + doy in
era * 146097 + doe - 719468.

(** The last [width] decimal digits of [n]. *)
Fixpoint fixed_digits (width : nat) (n : Z) : string :=
match width with
| O => EmptyString
| S w =>
    fixed_digits w (n / 10)
    ++ String (ascii_of_nat (48 + Z.to_nat (n mod 10))) EmptyString
end.

Definition iso_year (y : Z) : string :=
if (0 <=? y) && (y <=? 9999) then fixed_digits 4 y
else (if 0 <=? y then "+" else "-") ++ fixed_digits 6 (Z.abs y).

(** The text [YYYY-MM-DDTHH:mm:ss.sssZ] of a valid time value. *)
Definition iso_of_time (t : Z) : string :=
let '(y, m, d) := civil_from_days (t / msPerDay) in
let ms := t mod msPerDay in
iso_year y ++ "-" ++ fixed_digits 2 m ++ "-" ++ fixed_digits 2 d ++ "T"
++ fixed_digits 2 (ms / 3600000) ++ ":"
++ fixed_digits 2 ((ms / 60000) mod 60) ++ ":"
++ fixed_digits 2 ((ms / 1000) mod 60) ++ "."
++ fixed_digits 3 (ms mod 1000) ++ "Z".

(** [d.toISOString()]; [None] stands for the RangeError thrown on an
    invalid date. *)
Definition toISOString (d : date) : option string :=
match d with
| Some t => Some (iso_of_time t)
| None => None
end.

End Js.

(* ===================================================================== *)
(** * The TPS collection *)
(* ===================================================================== *)

Module Store.
Import Js.

(** A stored [value]: the schema types it as a number, which a document
    may also lack or hold as [null]. *)
Inductive field : Type :=
| Absent
| Null
| Num (n : jsnum).

(** A document of the TPS collection. *)
Record TpsRecord : Type := mkTps {
  chainId : string;
  timestamp : jsnum;
  value : field;
  lastUpdated : Z
}.

Definition collection : Type := list TpsRecord.

(** Equality of two numbers as the database matches them. *)
Definition num_eqb (a b : jsnum) : bool :=
match a, b with
| NaN, NaN | PosInf, PosInf | NegInf, NegInf => true
| Fin p, Fin q => Qeq_bool p q
| _, _ => false
end.

Definition field_eqb (a b : field) : bool :=
match a, b with
| Absent, Absent | Null, Null => true
| Num x, Num y => num_eqb x y
| _, _ => false
end.

(** The order in which the database sorts numbers: [NaN] first. *)
Definition bson_leb (a b : jsnum) : bool :=
match a, b with
| NaN, _ => true
| _, NaN => false
| _, _ => num_le a b
end.

(** The filter [{ chainId: c, timestamp: t }]. *)
Definition has_key (c : string) (t : jsnum) (r : TpsRecord) : bool :=
String.eqb (chainId r) c && num_eqb (timestamp r) t.

(** One operation of a bulk write:
    [{ updateOne: { filter: { chainId, timestamp },
                    update: { $set: { value, lastUpdated } }, upsert } }]. *)
Record write_op : Type := UpdateOne {
  filter_chainId : string;
  filter_timestamp : jsnum;
  set_value : jsnum;
  set_lastUpdated : Z;
  upsert : bool
}.

(** The counters of a bulk write result. *)
Record bulk_result : Type := mkResult {
  matchedCount : nat;
  modifiedCount : nat;
  upsertedCount : nat
}.

Definition no_change : bulk_result := mkResult 0 0 0.

Definition add_result (a b : bulk_result) : bulk_result :=
mkResult (matchedCount a + matchedCount b)
         (modifiedCount a + modifiedCount b)
         (upsertedCount a + upsertedCount b).

(** [updateOne]: the first document that matches the filter gets the
    [$set]; when none matches and [upsert] is on, a document made of the
    filter and the [$set] is inserted. *)
Fixpoint updateOne (op : write_op) (s : collection)
  : collection * bulk_result :=
match s with
| r :: s' =>
    if has_key (filter_chainId op) (filter_timestamp op) r then
      let changed :=
        negb (field_eqb (value r) (Num (set_value op))
              && (lastUpdated r =? set_lastUpdated op)) in
      (mkTps (chainId r) (timestamp r) (Num (set_value op))
             (set_lastUpdated op) :: s',
       mkResult 1 (if changed then 1 else 0) 0)
    else
      let '(s'', res) := updateOne op s' in (r :: s'', res)
| [] =>
    if upsert op then
      ([mkTps (filter_chainId op) (filter_timestamp op)
              (Num (set_value op)) (set_lastUpdated op)],
       mkResult 0 0 1)
    else ([], no_change)
end.

(** [bulkWrite(ops, { ordered: false })] when every operation goes
    through; the operations are applied one after the other. *)
Fixpoint bulkWrite (ops : list write_op) (s : collection)
  : collection * bulk_result :=
match ops with
| op :: ops' =>
    let '(s1, r1) := updateOne op s in
    let '(s2, r2) := bulkWrite ops' s1 in
    (s2, add_result r1 r2)
| [] => (s, no_change)
end.

(** The operations of a list whose position is selected by [mask]. *)
Fixpoint select {A : Type} (mask : nat -> bool) (i : nat) (l : list A)
  : list A :=
match l with
| x :: l' =>
    if mask i then x :: select mask (S i) l' else select mask (S i) l'
| [] => []
end.

(** [countDocuments({ chainId })]. *)
Definition countDocuments (c : string) (s : collection) : nat :=
List.length (filter (fun r => String.eqb (chainId r) c) s).

(** The head of [l] sorted by [{ timestamp: -1 }]: a document with the
    greatest timestamp, the earliest such document of the collection. *)
Fixpoint latest (l : list TpsRecord) : option TpsRecord :=
match l with
| r :: l' =>
    match latest l' with
    | Some r' =>
        if bson_leb (timestamp r') (timestamp r) then Some r else Some r'
    | None => Some r
    end
| [] => None
end.

(** [findOne({ chainId }).sort({ timestamp: -1 })]. *)
Definition findLatest (c : string) (s : collection) : option TpsRecord :=
latest (filter (fun r => String.eqb (chainId r) c) s).

(** The range [{ $gte: lo, $lte: hi }] on a number. *)
Definition in_range (lo hi : jsnum) (t : jsnum) : bool :=
num_le lo t && num_le t hi.

(** [findOne({ chainId, timestamp: { $gte: lo, $lte: hi } })
      .sort({ timestamp: -1 })]. *)
Definition findLatestWithin (c : string) (lo hi : jsnum) (s : collection)
  : option TpsRecord :=
latest (filter (fun r => String.eqb (chainId r) c
                         && in_range lo hi (timestamp r)) s).

(** [find({ timestamp: { $gte: lo } })]. *)
Definition findSince (lo : jsnum) (s : collection) : list TpsRecord :=
filter (fun r => num_le lo (timestamp r)) s.

(** ** The aggregation pipeline of the network history *)

(** A document between two stages: an [_id] or [timestamp], a
    [totalTps] and a [chainCount]. *)
Record group : Type := mkGroup {
  g_timestamp : jsnum;
  g_totalTps : jsnum;
  g_chainCount : nat
}.

(** [$match: { chainId: { $in: chainIds }, timestamp: { $gte: cutoff } }] *)
Definition matching (chainIds : list string) (cutoff : jsnum)
  (r : TpsRecord) : bool :=
existsb (String.eqb (chainId r)) chainIds && num_le cutoff (timestamp r).

(** The distinct numbers of a list, each where it first occurs. *)
Fixpoint distinct (ts : list jsnum) : list jsnum :=
match ts with
| t :: ts' => t :: filter (fun u => negb (num_eqb u t)) (distinct ts')
| [] => []
end.

(** The documents that fall into the group of [t]. *)
Definition members (t : jsnum) (docs : list TpsRecord) : list TpsRecord :=
filter (fun r => num_eqb (timestamp r) t) docs.

(** What a [value] adds to a [$sum]: a non-numeric value is ignored. *)
Definition summand (v : field) : jsnum :=
match v with
| Num n => n
| _ => of_Z 0
end.

(** [$sum: '$value'] over the documents of a group. *)
Definition sum_values (docs : list TpsRecord) : jsnum :=
fold_left (fun sum r => num_add sum (summand (value r))) docs (of_Z 0).

(** [$group: { _id: '$timestamp', totalTps: { $sum: '$value' },
               chainCount: { $sum: 1 } }] *)
Definition group_stage (docs : list TpsRecord) : list group :=
map (fun t => mkGroup t (sum_values (members t docs))
                      (List.length (members t docs)))
    (distinct (map timestamp docs)).

(** [$round: [x, 2]]: to the nearest multiple of 0.01, a tie going to
    the even one. *)
Definition round2 (x : jsnum) : jsnum :=
match x with
| Fin q => Fin (Qred (inject_Z (round_half_even (q * 100)) / 100))
| other => other
end.

(** [$project: { _id: 0, timestamp: '$_id',
                 totalTps: { $round: ['$totalTps', 2] }, chainCount: 1 }] *)
Definition project_stage (gs : list group) : list group :=
map (fun g => mkGroup (g_timestamp g) (round2 (g_totalTps g))
                      (g_chainCount g)) gs.

(** [$sort: { timestamp: 1 }] *)
Fixpoint insert_group (g : group) (gs : list group) : list group :=
match gs with
| h :: gs' =>
    if bson_leb (g_timestamp g) (g_timestamp h) then g :: gs
    else h :: insert_group g gs'
| [] => [g]
end.

Definition sort_stage (gs : list group) : list group :=
fold_right insert_group [] gs.

(** [TPS.aggregate([$match, $group, $project, $sort])]. *)
Definition aggregate (chainIds : list string) (cutoff : jsnum)
  (s : collection) : list group :=
sort_stage (project_stage (group_stage (filter (matching chainIds cutoff) s))).

(** ** The query of the history of a chain *)

(** [.sort({ timestamp: -1 })], by insertion: greatest timestamp first,
    documents with equal timestamps in the order of the collection. *)
Fixpoint insert_desc (r : TpsRecord) (l : list TpsRecord)
  : list TpsRecord :=
match l with
| h :: l' =>
    if bson_leb (timestamp h) (timestamp r) then r :: l
    else h :: insert_desc r l'
| [] => [r]
end.

Definition sort_desc (l : list TpsRecord) : list TpsRecord :=
fold_right insert_desc [] l.

(** [find({ chainId, timestamp: { $gte: cutoff } })
      .sort({ timestamp: -1 })]. *)
Definition findHistory (c : string) (cutoff : jsnum) (s : collection)
  : list TpsRecord :=
sort_desc (filter (fun r => String.eqb (chainId r) c
                            && num_le cutoff (timestamp r)) s).

End Store.

(* ===================================================================== *)
(** * Effects: the world, the trace and exceptions *)
(* ===================================================================== *)

Module Eff.
Import Js Store.

(** An element of [response.data.results] that is an object; a property
    the object lacks is [JUndefined]. *)
Record raw_point : Type := mkPoint {
  item_timestamp : jsval;
  item_value : jsval
}.

(** What [response.data] of the metrics provider looks like to the code:
    falsy, without an array under [results], or with one.  An element of
    the array is [None] when it is [null] (reading a property of it
    throws) and [Some] otherwise. *)
Inductive body : Type :=
| NoData
| NoResults
| Results (results : list (option raw_point)).

(** The outcome of one [axios.get]: the promise rejects (network failure,
    timeout, status outside 2xx) or resolves. *)
Inductive reply : Type :=
| Rejected
| Resolved (data : body).

(** The outcome of one [TPS.bulkWrite]: it goes through, or it rejects
    after the operations selected by [applied] went through. *)
Inductive write_reply : Type :=
| WriteOk
| WriteRejected (applied : nat -> bool).

(** What the code cannot control: the n-th request to the provider and
    the n-th bulk write to the database, counted from 0, and the
    configured API key. *)
Record env : Type := mkEnv {
  metrics : string -> nat -> reply;
  db_write : nat -> write_reply;
  UPDATE_API_KEY : option string
}.

Inductive exn : Type :=
| FetchFailed
| TypeError
| RangeError
| MongoError
| ReferenceError
| Wrapped (msg : string) (cause : exn).   (* new Error(msg + cause.message) *)

Inductive level : Type := info | warn | error.

Inductive logarg : Type :=
| AStr (s : string)
| ANat (n : nat)
| ANum (x : jsnum)
| AExn (e : exn).

(** What a run leaves behind, in order. *)
Inductive event : Type :=
| Log (lvl : level) (msg : string) (args : list logarg)
| Request (chain : string)
| Wrote (ops : list write_op)
| Sleep (ms : Z).

Record world : Type := mkWorld {
  tps : collection;        (* the TPS collection *)
  chains : list string;    (* the chainId of every Chain document *)
  clock : Z;               (* Date.now() *)
  requests : nat;          (* requests sent so far *)
  writes : nat;            (* bulk writes sent so far *)
  trace : list event
}.

Inductive result (A : Type) : Type :=
| Val (a : A)
| Exc (e : exn).
Arguments Val {A} a.
Arguments Exc {A} e.

(** A computation: it reads the environment, changes the world, and
    returns or throws. *)
Definition M (A : Type) : Type := env -> world -> result A * world.

Definition ret {A : Type} (a : A) : M A := fun _ w => (Val a, w).

Definition bind {A B : Type} (m : M A) (k : A -> M B) : M B :=
fun e w =>
  match m e w with
  | (Val a, w') => k a e w'
  | (Exc x, w') => (Exc x, w')
  end.

Definition throw {A : Type} (x : exn) : M A := fun _ w => (Exc x, w).

(** [try { m } catch (error) { handler error }]. *)
Definition try_catch {A : Type} (m : M A) (handler : exn -> M A) : M A :=
fun e w =>
  match m e w with
  | (Val a, w') => (Val a, w')
  | (Exc x, w') => handler x e w'
  end.

Declare Scope eff_scope.
Delimit Scope eff_scope with eff.
Notation "x <- m ;; k" := (bind m (fun x => k))
  (at level 61, m at next level, right associativity) : eff_scope.
Notation "m ;; k" := (bind m (fun _ => k))
  (at level 61, right associativity) : eff_scope.
Local Open Scope eff_scope.

Definition emit (ev : event) : M unit :=
fun _ w =>
  (Val tt, mkWorld (tps w) (chains w) (clock w) (requests w) (writes w)
                   (trace w ++ [ev])).

Definition log (lvl : level) (msg : string) (args : list logarg) : M unit :=
emit (Log lvl msg args).

(** [Date.now()]. *)
Definition Date_now : M Z := fun _ w => (Val (clock w), w).

(** [await new Promise(resolve => setTimeout(resolve, ms))]. *)
Definition sleep (ms : Z) : M unit :=
fun _ w =>
  (Val tt, mkWorld (tps w) (chains w) (clock w + ms) (requests w) (writes w)
                   (trace w ++ [Sleep ms])).

(** [await axios.get(.../chains/${chainId}/metrics/avgTps, ...)], reduced
    to [response.data].  A request takes no time here: the clock moves
    in [sleep] only. *)
Definition axios_get (chain : string) : M body :=
fun e w =>
  let w' := mkWorld (tps w) (chains w) (clock w) (S (requests w)) (writes w)
                    (trace w ++ [Request chain]) in
  match metrics e chain (requests w) with
  | Rejected => (Exc FetchFailed, w')
  | Resolved data => (Val data, w')
  end.

(** [await TPS.bulkWrite(ops, { ordered: false })]. *)
Definition TPS_bulkWrite (ops : list write_op) : M bulk_result :=
fun e w =>
  let after s :=
    mkWorld s (chains w) (clock w) (requests w) (S (writes w))
            (trace w ++ [Wrote ops]) in
  match db_write e (writes w) with
  | WriteOk =>
      let '(s, r) := bulkWrite ops (tps w) in (Val r, after s)
  | WriteRejected applied =>
      (Exc MongoError, after (fst (bulkWrite (select applied 0 ops) (tps w))))
  end.

(** Reading the collections.  A read succeeds here: a query that
    rejects, and what the [catch] blocks of the readers do with it, are
    left out. *)
Definition TPS_read {A : Type} (query : collection -> A) : M A :=
fun _ w => (Val (query (tps w)), w).

Definition Chain_find : M (list string) := fun _ w => (Val (chains w), w).

(** [x.toISOString()], which throws on an invalid date. *)
Definition toISOString (d : date) : M string :=
match Js.toISOString d with
| Some s => ret s
| None => throw RangeError
end.

(** [l.filter(p)] and [l.map(f)] with a callback that has effects: the
    elements are visited in order and a throw ends the visit. *)
Fixpoint filterM {A : Type} (p : A -> M bool) (l : list A) : M (list A) :=
match l with
| x :: l' =>
    b <- p x ;;
    rest <- filterM p l' ;;
    ret (if b then x :: rest else rest)
| [] => ret []
end.

Fixpoint mapM {A B : Type} (f : A -> M B) (l : list A) : M (list B) :=
match l with
| x :: l' =>
    y <- f x ;;
    rest <- mapM f l' ;;
    ret (y :: rest)
| [] => ret []
end.

End Eff.

(* ===================================================================== *)
(** * services/tpsService.js *)
(* ===================================================================== *)

(** The object [getNetworkTps] returns. *)
Module Snapshot.
Record t : Type := make {
  totalTps : Js.jsnum;
  chainCount : nat;
  timestamp : Js.jsnum;
  updatedAt : string;
  dataAge : Js.jsnum;
  dataAgeUnit : string;
  lastUpdate : option string
}.
End Snapshot.

(** An element of the array [getNetworkTpsHistory] returns. *)
Module HistoryPoint.
Record t : Type := make {
  timestamp : Js.jsnum;
  totalTps : Js.jsnum;
  chainCount : nat;
  date : string
}.
End HistoryPoint.

Module TpsService.
Import Js Store Eff.
Local Open Scope eff_scope.

(** Where [updateTpsData] returns, and with what: [result] after the bulk
    write, [null] at the three other places. *)
Inductive exit : Type :=
| Applied (result : bulk_result)  (* return result *)
| NoValidData                     (* return null, no valid data points *)
| AllAttemptsFailed               (* return null, in the last catch *)
| LoopEnded.                      (* return null, after the loop *)

(** The value the caller gets; [None] is [null]. *)
Definition returned (x : exit) : option bulk_result :=
match x with
| Applied result => Some result
| _ => None
end.

(** How one turn of the loop ends. *)
Inductive control : Type :=
| Continue
| Return (x : exit).

(** The callback of [response.data.results.filter]. *)
Definition isValidItem (chainId : string) (thirtyDaysAgo currentTime : Z)
  (item : option raw_point) : M bool :=
match item with
| None => throw TypeError
| Some item =>
    let timestamp := Number (item_timestamp item) in
    let value := parseFloat (item_value item) in
    if isNaN timestamp || isNaN value then
      log warn "[TPS Update] Invalid data point" [AStr chainId] ;;
      ret false
    else
      let isValid := num_ge timestamp (of_Z thirtyDaysAgo)
                     && num_le timestamp (of_Z currentTime) in
      (if negb isValid then
         iso <- toISOString (new_Date (num_scale timestamp 1000)) ;;
         log warn "[TPS Update] Out of range timestamp"
             [AStr chainId; AStr iso; ANum value]
       else ret tt) ;;
      ret isValid
end.

(** The callback of [validTpsData.map]. *)
Definition toUpdateOne (chainId : string) (item : option raw_point)
  : M write_op :=
match item with
| None => throw TypeError
| Some item =>
    lastUpdated <- Date_now ;;
    ret (UpdateOne chainId (Number (item_timestamp item))
                   (parseFloat (item_value item)) lastUpdated true)
end.

(** The [try] block of one attempt. *)
Definition attempt_body (chainId : string) (attempt retryCount : nat)
  : M control :=
log info "[TPS Update] Starting update"
    [AStr chainId; ANat attempt; ANat retryCount] ;;
data <- axios_get chainId ;;
match data with
| NoData =>
    log warn "[TPS Update] No data in response" [AStr chainId] ;;
    ret Continue
| NoResults =>
    log warn "[TPS Update] Invalid response format" [AStr chainId] ;;
    ret Continue
| Results results =>
    now <- Date_now ;;
    let currentTime := now / 1000 in
    let thirtyDaysAgo := currentTime - 30 * 24 * 60 * 60 in
    log info "[TPS Update] Raw data"
        [AStr chainId; ANat (List.length results)] ;;
    validTpsData <- filterM (isValidItem chainId thirtyDaysAgo currentTime)
                            results ;;
    match validTpsData with
    | _ :: _ =>
        ops <- mapM (toUpdateOne chainId) validTpsData ;;
        result <- TPS_bulkWrite ops ;;
        log info "[TPS Update] Success"
            [AStr chainId; ANat (List.length validTpsData);
             ANat (matchedCount result); ANat (modifiedCount result);
             ANat (upsertedCount result)] ;;
        ret (Return (Applied result))
    | [] =>
        log warn "[TPS Update] No valid data points" [AStr chainId] ;;
        ret (Return NoValidData)
    end
end.

(** The [catch] block of one attempt. *)
Definition on_error (chainId : string) (attempt retryCount : nat)
  (err : exn) : M control :=
log error "[TPS Update] Error"
    [AStr chainId; ANat attempt; ANat retryCount; AExn err] ;;
if (attempt =? retryCount)%nat then
  log error "[TPS Update] All attempts failed" [AStr chainId] ;;
  ret (Return AllAttemptsFailed)
else
  sleep (Z.of_nat attempt * 2000) ;;
  ret Continue.

(** [for (let attempt = 1; attempt <= retryCount; attempt++)], with
    [todo] the number of turns the test still lets through. *)
Fixpoint attempts (chainId : string) (retryCount todo attempt : nat)
  : M exit :=
match todo with
| O => ret LoopEnded
| S todo' =>
    c <- try_catch (attempt_body chainId attempt retryCount)
                   (on_error chainId attempt retryCount) ;;
    match c with
    | Return x => ret x
    | Continue => attempts chainId retryCount todo' (S attempt)
    end
end.

Definition updateTpsData (chainId : string) (retryCount : nat) : M exit :=
attempts chainId retryCount retryCount 1.

(** [.select('-_id timestamp value')]. *)
Definition select_fields (r : TpsRecord) : jsnum * field :=
(timestamp r, value r).

(** [getTpsHistory(chainId, days = 30)]. *)
Definition getTpsHistory (chainId : string) (days : Q)
  : M (list (jsnum * field)) :=
try_catch
  (existingData <- TPS_read (countDocuments chainId) ;;
   (if (existingData =? 0)%nat then
      log info "No TPS history found, fetching from API..." [AStr chainId] ;;
      updateTpsData chainId 3 ;;
      ret tt
    else ret tt) ;;
   now <- Date_now ;;
   let cutoffDate :=
     Fin (inject_Z (now / 1000) - days * inject_Z (24 * 60 * 60)) in
   data <- TPS_read (fun s => map select_fields
                                  (findHistory chainId cutoffDate s)) ;;
   log info "Found TPS records" [ANat (List.length data); AStr chainId] ;;
   ret data)
  (fun err =>
     log error "Error fetching TPS history" [AExn err] ;;
     throw (Wrapped "Error fetching TPS history: " err)).

Definition getLatestTps (chainId : string) : M (option (jsnum * field)) :=
try_catch
  (latest <- TPS_read (findLatest chainId) ;;
   match latest with
   | Some r => ret (Some (select_fields r))
   | None =>
       log info "No TPS data found, fetching from API..." [AStr chainId] ;;
       updateTpsData chainId 3 ;;
       latest <- TPS_read (findLatest chainId) ;;
       ret (option_map select_fields latest)
   end)
  (fun err =>
     log error "Error fetching latest TPS" [AExn err] ;;
     throw (Wrapped "Error fetching latest TPS: " err)).

(** [r.value || 0]. *)
Definition or_zero (v : field) : jsnum :=
match v with
| Num n => if truthy_num n then n else of_Z 0
| _ => of_Z 0
end.

(** The callback of [tpsResults.filter]. *)
Definition isValidResult (oneDayAgo currentTime : Z)
  (result : option TpsRecord) : M bool :=
match result with
| None => ret false
| Some result =>
    let isValid := num_ge (timestamp result) (of_Z oneDayAgo)
                   && num_le (timestamp result) (of_Z currentTime) in
    (if negb isValid then
       iso <- toISOString (new_Date (num_scale (timestamp result) 1000)) ;;
       log warn "Invalid timestamp for chain" [AStr (chainId result); AStr iso]
     else ret tt) ;;
    ret isValid
end.

(** The documents of a list of query results. *)
Fixpoint documents (l : list (option TpsRecord)) : list TpsRecord :=
match l with
| Some r :: l' => r :: documents l'
| None :: l' => documents l'
| [] => []
end.

Definition iso_of_seconds (t : jsnum) : M string :=
toISOString (new_Date (num_scale t 1000)).

(** [l.length ? iso(f(...l)) : null]. *)
Definition iso_if_any (l : list jsnum) (x : jsnum) : M (list logarg) :=
match l with
| [] => ret []
| _ => s <- toISOString (new_Date x) ;; ret [AStr s]
end.

(** [new Date().toISOString()]. *)
Definition new_Date_iso : M string :=
now <- Date_now ;; toISOString (new_Date (of_Z now)).

Definition getNetworkTps : M Snapshot.t :=
try_catch
  (chains <- Chain_find ;;
   now <- Date_now ;;
   let currentTime := now / 1000 in
   let oneDayAgo := currentTime - 24 * 60 * 60 in
   isoNow <- iso_of_seconds (of_Z currentTime) ;;
   isoAgo <- iso_of_seconds (of_Z oneDayAgo) ;;
   log info "Network TPS calculation - Time boundaries:"
       [AStr isoNow; AStr isoAgo; ANum (of_Z currentTime);
        ANum (of_Z oneDayAgo)] ;;
   allTpsRecords <- TPS_read (findSince (of_Z oneDayAgo)) ;;
   let millis := map (fun r => num_scale (timestamp r) 1000) allTpsRecords in
   oldest <- iso_if_any millis (min_list millis) ;;
   newest <- iso_if_any millis (max_list millis) ;;
   log info "All TPS records in last 24h:"
       ([ANat (List.length allTpsRecords);
         ANat (List.length (nodup string_dec (map chainId allTpsRecords)))]
        ++ oldest ++ newest) ;;
   tpsResults <- mapM (fun chain =>
                         TPS_read (findLatestWithin chain (of_Z oneDayAgo)
                                                    (of_Z currentTime)))
                      chains ;;
   kept <- filterM (isValidResult oneDayAgo currentTime) tpsResults ;;
   let validResults := documents kept in
   details <- mapM (fun r => iso_of_seconds (timestamp r)) validResults ;;
   log info "Network TPS calculation - Valid Results:"
       ([ANat (List.length chains); ANat (List.length validResults)]
        ++ map AStr details) ;;
   let timestamps := map timestamp validResults in
   let futureTimestamps :=
     filter (fun t => num_gt t (of_Z currentTime)) timestamps in
   match futureTimestamps with
   | [] => ret tt
   | _ =>
       isos <- mapM iso_of_seconds futureTimestamps ;;
       log warn "Found future timestamps:"
           (ANat (List.length futureTimestamps) :: map AStr isos)
   end ;;
   oldestValid <- iso_if_any timestamps (num_scale (min_list timestamps) 1000) ;;
   newestValid <- iso_if_any timestamps (num_scale (max_list timestamps) 1000) ;;
   log info "Network TPS calculation:"
       ([ANat (List.length chains); ANat (List.length validResults)]
        ++ oldestValid ++ newestValid ++ [AStr isoNow]) ;;
   match validResults with
   | [] =>
       updatedAt <- new_Date_iso ;;
       ret (Snapshot.make (of_Z 0) 0 (of_Z currentTime) updatedAt (of_Z 0)
                          "minutes" None)
   | _ =>
       let total :=
         fold_left (fun sum result => num_add sum (or_zero (value result)))
                   validResults (of_Z 0) in
       let latestTimestamp := max_list timestamps in
       let dataAge :=
         max2 (of_Z 0)
              (floor (num_div (num_sub (of_Z currentTime) latestTimestamp)
                              60)) in
       (if num_gt dataAge (of_Z (24 * 60)) then
          log warn "TPS data is old" [ANum dataAge]
        else ret tt) ;;
       updatedAt <- new_Date_iso ;;
       lastUpdate <- iso_of_seconds latestTimestamp ;;
       ret (Snapshot.make (toFixed2 total) (List.length validResults)
                          latestTimestamp updatedAt dataAge "minutes"
                          (Some lastUpdate))
   end)
  (fun err =>
     log error "Error calculating network TPS:" [AExn err] ;;
     throw err).

Definition getNetworkTpsHistory (days : Q) : M (list HistoryPoint.t) :=
try_catch
  (now <- Date_now ;;
   let cutoffDate :=
     Fin (inject_Z (now / 1000) - days * inject_Z (24 * 60 * 60)) in
   chains <- Chain_find ;;
   tpsData <- TPS_read (aggregate chains cutoffDate) ;;
   enrichedData <-
     mapM (fun point =>
             date <- iso_of_seconds (g_timestamp point) ;;
             ret (HistoryPoint.make (g_timestamp point) (g_totalTps point)
                                    (g_chainCount point) date))
          tpsData ;;
   log info "Found historical network TPS records"
       [ANat (List.length enrichedData)] ;;
   ret enrichedData)
  (fun err =>
     log error "Error fetching network TPS history" [AExn err] ;;
     throw (Wrapped "Error fetching network TPS history: " err)).

End TpsService.

(* ===================================================================== *)
(** * routes/updateRoutes.js *)
(* ===================================================================== *)

Module UpdateRoutes.
Import Js Store Eff.
Local Open Scope eff_scope.

(** What the caller of [POST /update/chain/:chainId/tps] receives. *)
Inductive response : Type :=
| Unauthorized
    (* 401 { success: false, error: "Unauthorized" } *)
| Updated (chainId : string) (latestTps : option (jsnum * field))
    (* 200 { success: true, chainId, latestTps } *)
| ServerError (err : exn).
    (* 500 { success: false, error: error.message } *)

(** The [success] field of the body. *)
Definition success (r : response) : bool :=
match r with
| Updated _ _ => true
| _ => false
end.

(** [!apiKey || apiKey !== validApiKey]. *)
Definition key_refused (apiKey validApiKey : option string) : bool :=
match apiKey with
| None | Some EmptyString => true
| Some k =>
    match validApiKey with
    | Some v => negb (String.eqb k v)
    | None => true
    end
end.

(** The handler proper.  Its [catch] block logs [chainId], a constant of
    the [try] block that is out of scope there: evaluating the log line
    throws a ReferenceError before any response is sent. *)
Definition updateChainTps (chainId : string) : M response :=
try_catch
  (TpsService.updateTpsData chainId 3 ;;
   latestTps <- TpsService.getLatestTps chainId ;;
   ret (Updated chainId latestTps))
  (fun err => throw ReferenceError).

(** [router.post('/update/chain/:chainId/tps', validateApiKey, handler)]:
    the middleware answers 401 itself or hands over to the handler. *)
Definition post_update_chain_tps (apiKey : option string) (chainId : string)
  : M response :=
fun e w =>
  if key_refused apiKey (UPDATE_API_KEY e) then (Val Unauthorized, w)
  else updateChainTps chainId e w.

End UpdateRoutes.

(* ===================================================================== *)
(** * Vocabulary of the statements *)
(* ===================================================================== *)

Import Js Store Eff TpsService.
Local Open Scope eff_scope.
Local Open Scope list_scope.

(** [l1] is [l2] with some elements left out, the others in their order. *)
Inductive kept_in_order {A : Type} : list A -> list A -> Prop :=
| kept_nil : kept_in_order [] []
| kept_keep x l1 l2 : kept_in_order l1 l2 -> kept_in_order (x :: l1) (x :: l2)
| kept_drop x l1 l2 : kept_in_order l1 l2 -> kept_in_order l1 (x :: l2).

(** A number that lies in the closed interval between two integers. *)
Definition within (lo hi : Z) (t : jsnum) : Prop :=
match t with
| Fin q => (inject_Z lo <= q)%Q /\ (q <= inject_Z hi)%Q
| _ => False
end.

(** The thirty days of the validator and the day of the snapshot, in
    seconds. *)
Definition thirtyDays : Z := 30 * 86400.
Definition oneDay : Z := 86400.

(** What the validator decides about a point when it decides. *)
Definition keeps (now : Z) (p : raw_point) : bool :=
negb (isNaN (Number (item_timestamp p)))
&& negb (isNaN (parseFloat (item_value p)))
&& num_ge (Number (item_timestamp p)) (of_Z (now - thirtyDays))
&& num_le (Number (item_timestamp p)) (of_Z now).

Definition keeps_item (now : Z) (item : option raw_point) : bool :=
match item with
| Some p => keeps now p
| None => false
end.

(** The points on which the callback throws instead of deciding: a
    numeric point outside the window whose timestamp, in milliseconds,
    is not a date. *)
Definition off_calendar (now : Z) (p : raw_point) : bool :=
negb (isNaN (Number (item_timestamp p)))
&& negb (isNaN (parseFloat (item_value p)))
&& negb (keeps now p)
&& match new_Date (num_scale (Number (item_timestamp p)) 1000) with
   | Some _ => false
   | None => true
   end.

(** The events that are neither a pause nor an error line. *)
Definition quiet (ev : event) : bool :=
match ev with
| Sleep _ => false
| Log error _ _ => false
| _ => true
end.

(** The lines a [try] block writes on its way: those below the error
    level. *)
Definition chatter (ev : event) : bool :=
match ev with
| Log info _ _ | Log warn _ _ => true
| _ => false
end.

Definition is_line (ev : event) : bool :=
match ev with
| Log _ _ _ => true
| _ => false
end.

(** The number of requests in a trace. *)
Fixpoint sent (evs : list event) : nat :=
match evs with
| Request _ :: evs' => S (sent evs')
| _ :: evs' => sent evs'
| [] => 0%nat
end.

(** The pauses of a trace, in order. *)
Fixpoint pauses (evs : list event) : list Z :=
match evs with
| Sleep ms :: evs' => ms :: pauses evs'
| _ :: evs' => pauses evs'
| [] => []
end.

(** The world after some events were appended to its trace. *)
Definition logged (w : world) (evs : list event) : world :=
mkWorld (tps w) (chains w) (clock w) (requests w) (writes w) (trace w ++ evs).

(* ===================================================================== *)
(** * Generalities *)
(* ===================================================================== *)

Ltac unfold_eff :=
  unfold bind, ret, throw, try_catch, log, emit, sleep, Date_now,
    TPS_read, Chain_find, Eff.toISOString in *.

Lemma bind_val {A B : Type} (m : M A) (k : A -> M B) e w a w' :
  m e w = (Val a, w') -> bind m k e w = k a e w'.
Proof. unfold bind. now intros ->. Qed.

Lemma bind_exc {A B : Type} (m : M A) (k : A -> M B) e w x w' :
  m e w = (Exc x, w') -> bind m k e w = (Exc x, w').
Proof. unfold bind. now intros ->. Qed.

Lemma logged_nil w : logged w [] = w.
Proof. destruct w; unfold logged; simpl. now rewrite app_nil_r. Qed.

Lemma logged_logged w a b : logged (logged w a) b = logged w (a ++ b).
Proof. unfold logged; simpl. now rewrite app_assoc. Qed.

Lemma kept_in_order_filter {A : Type} (p : A -> bool) (l : list A) :
  kept_in_order (filter p l) l.
Proof.
  induction l as [|x l IH]; simpl.
  - constructor.
  - destruct (p x); now constructor.
Qed.

Lemma Qle_bool_true_iff (p q : Q) : Qle_bool p q = true <-> (p <= q)%Q.
Proof. apply Qle_bool_iff. Qed.

Lemma num_le_within (lo hi : Z) (t : jsnum) :
  num_ge t (of_Z lo) && num_le t (of_Z hi) = true <-> within lo hi t.
Proof.
  unfold num_ge, within. destruct t; simpl; try (split; [discriminate | tauto]).
  rewrite andb_true_iff, !Qle_bool_iff. tauto.
Qed.

(* ===================================================================== *)
(** * The point validator *)
(* ===================================================================== *)

Section Validator.

Variable chain : string.
Variable now : Z.

Let callback := isValidItem chain (now - 30 * 24 * 60 * 60) now.

(** On a point it does not throw on, the callback answers [keeps] and
    leaves at most one warning. *)
Lemma isValidItem_decides (p : raw_point) e w :
  off_calendar now p = false ->
  exists evs, callback (Some p) e w = (Val (keeps now p), logged w evs)
              /\ forallb chatter evs = true.
Proof.
  unfold callback, off_calendar, keeps, isValidItem, thirtyDays.
  change (30 * 24 * 60 * 60) with (30 * 86400).
  destruct (isNaN (Number (item_timestamp p))) eqn:Ht; cbn [negb andb orb].
  { intros _. eexists. split; [unfold_eff; reflexivity | reflexivity]. }
  destruct (isNaN (parseFloat (item_value p))) eqn:Hv; cbn [negb andb orb].
  { intros _. eexists. split; [unfold_eff; reflexivity | reflexivity]. }
  destruct (num_ge (Number (item_timestamp p)) (of_Z (now - 30 * 86400))
            && num_le (Number (item_timestamp p)) (of_Z now)) eqn:Hin;
    cbn [negb andb orb].
  - intros _. exists []. rewrite logged_nil. split; reflexivity.
  - unfold_eff. unfold Js.toISOString.
    destruct (new_Date _); [|discriminate].
    intros _. eexists. split; reflexivity.
Qed.

(** On the other points it throws. *)
Lemma isValidItem_throws (p : raw_point) e w :
  off_calendar now p = true -> callback (Some p) e w = (Exc RangeError, w).
Proof.
  unfold callback, off_calendar, keeps, isValidItem, thirtyDays.
  change (30 * 24 * 60 * 60) with (30 * 86400).
  destruct (isNaN (Number (item_timestamp p))); cbn [negb andb orb];
    [discriminate|].
  destruct (isNaN (parseFloat (item_value p))); cbn [negb andb orb];
    [discriminate|].
  destruct (num_ge _ _ && num_le _ _); cbn [negb andb orb]; [discriminate|].
  unfold_eff. unfold Js.toISOString.
  destruct (new_Date _); [discriminate | reflexivity].
Qed.

(** Whenever the filter returns, it returns the points that [keeps]
    accepts, and the world has only gained warnings. *)
Lemma filter_returns (items : list (option raw_point)) e w valid w' :
  filterM callback items e w = (Val valid, w') ->
  valid = filter (keeps_item now) items
  /\ exists evs, w' = logged w evs /\ forallb chatter evs = true.
Proof.
  revert w valid w'. induction items as [|item items IH]; intros w valid w'.
  - simpl. unfold_eff. intros H; inversion H; subst. split; [reflexivity|].
    exists []. now rewrite logged_nil.
  - simpl. unfold bind at 1.
    destruct item as [p|].
    + destruct (off_calendar now p) eqn:Hoff.
      * rewrite (isValidItem_throws p e w Hoff). discriminate.
      * destruct (isValidItem_decides p e w Hoff) as (evs & -> & Hq).
        unfold bind at 1.
        destruct (filterM callback items e (logged w evs)) as [[rest|x] w1] eqn:Hrest;
          [|discriminate].
        unfold ret. intros H; inversion H; subst; clear H.
        destruct (IH _ _ _ Hrest) as (-> & evs' & -> & Hq').
        split; [reflexivity|].
        exists (evs ++ evs'). rewrite logged_logged, forallb_app, Hq, Hq'.
        now split.
    + unfold callback at 1, isValidItem, throw. discriminate.
Qed.

(** It returns exactly when no element is [null] and no point is off the
    calendar. *)
Lemma filter_returns_iff (items : list (option raw_point)) e w :
  (exists valid w', filterM callback items e w = (Val valid, w'))
  <-> Forall (fun item => exists p, item = Some p /\ off_calendar now p = false)
             items.
Proof.
  revert w. induction items as [|item items IH]; intros w.
  - split; [constructor | intros _; simpl; unfold ret; eauto].
  - simpl. unfold bind at 1. split.
    + intros (valid & w' & H).
      destruct item as [p|]; [|unfold callback at 1, isValidItem, throw in H; discriminate].
      destruct (off_calendar now p) eqn:Hoff.
      { rewrite (isValidItem_throws p e w Hoff) in H. discriminate. }
      destruct (isValidItem_decides p e w Hoff) as (evs & Hcb & _).
      rewrite Hcb in H. unfold bind at 1 in H.
      destruct (filterM callback items e (logged w evs)) as [[rest|x] w1] eqn:Hrest;
        [|discriminate].
      constructor; [eauto|]. apply (IH (logged w evs)). eauto.
    + intros HF. inversion HF as [|? ? (p & -> & Hoff) HF']; subst.
      destruct (isValidItem_decides p e w Hoff) as (evs & -> & _).
      destruct (proj2 (IH (logged w evs)) HF') as (rest & w1 & Hrest).
      unfold bind, ret. rewrite Hrest. eauto.
Qed.

End Validator.

(* ===================================================================== *)
(** * One attempt of [updateTpsData] *)
(* ===================================================================== *)

(** The points of a list of elements. *)
Fixpoint the_points (items : list (option raw_point)) : list raw_point :=
match items with
| Some p :: items' => p :: the_points items'
| None :: items' => the_points items'
| [] => []
end.

(** The operation built for a point at time [d]. *)
Definition op_of (chain : string) (d : Z) (p : raw_point) : write_op :=
UpdateOne chain (Number (item_timestamp p)) (parseFloat (item_value p)) d true.

(** The world once the request of an attempt is out. *)
Definition requested (chain : string) (attempt retryCount : nat) (w : world)
  : world :=
mkWorld (tps w) (chains w) (clock w) (S (requests w)) (writes w)
        (trace w ++ [Log info "[TPS Update] Starting update"
                       [AStr chain; ANat attempt; ANat retryCount];
                     Request chain]).

(** The error line of the [catch] block. *)
Definition error_line (chain : string) (attempt retryCount : nat) (err : exn)
  : event :=
Log error "[TPS Update] Error"
    [AStr chain; ANat attempt; ANat retryCount; AExn err].

Definition all_failed_line (chain : string) : event :=
Log error "[TPS Update] All attempts failed" [AStr chain].

(** One turn of the loop: the [try] block under its [catch]. *)
Definition turn (chain : string) (attempt retryCount : nat) : M control :=
try_catch (attempt_body chain attempt retryCount)
          (on_error chain attempt retryCount).

(** The world after a pause. *)
Definition paused (w : world) (ms : Z) : world :=
mkWorld (tps w) (chains w) (clock w + ms) (requests w) (writes w)
        (trace w ++ [Sleep ms]).

Section Attempt.

Variable chain : string.
Variables attempt retryCount : nat.
Variable e : env.

Lemma mapM_toUpdateOne (valid : list (option raw_point)) w :
  Forall (fun item => item <> None) valid ->
  mapM (toUpdateOne chain) valid e w
  = (Val (map (op_of chain (clock w)) (the_points valid)), w).
Proof.
  induction 1 as [|item valid Hitem _ IH]; [reflexivity|].
  destruct item as [p|]; [|congruence].
  cbn [mapM the_points map]. unfold bind at 1. unfold toUpdateOne at 1.
  cbv beta iota. unfold bind at 1. unfold Date_now at 1. unfold ret at 1.
  unfold bind at 1. rewrite IH. reflexivity.
Qed.

Lemma filter_keeps_some (now : Z) (items : list (option raw_point)) :
  Forall (fun item => item <> None) (filter (keeps_item now) items).
Proof.
  apply Forall_forall. intros item Hin. apply filter_In in Hin.
  destruct Hin as [_ H]. destruct item; [discriminate | discriminate H].
Qed.

(** A rejected request: the [try] block throws right after it. *)
Lemma attempt_body_rejected w :
  metrics e chain (requests w) = Rejected ->
  attempt_body chain attempt retryCount e w
  = (Exc FetchFailed, requested chain attempt retryCount w).
Proof.
  intros H. unfold attempt_body, bind, log, emit, axios_get; simpl.
  rewrite H. unfold requested. now rewrite <- app_assoc.
Qed.

(** A response without the list of points: a warning, and the turn is
    over without a throw. *)
Lemma attempt_body_no_data w :
  metrics e chain (requests w) = Resolved NoData ->
  attempt_body chain attempt retryCount e w
  = (Val Continue,
     logged (requested chain attempt retryCount w)
            [Log warn "[TPS Update] No data in response" [AStr chain]]).
Proof.
  intros H. unfold attempt_body, bind, log, emit, axios_get, ret; simpl.
  rewrite H. unfold requested, logged; simpl. now rewrite <- !app_assoc.
Qed.

Lemma attempt_body_no_results w :
  metrics e chain (requests w) = Resolved NoResults ->
  attempt_body chain attempt retryCount e w
  = (Val Continue,
     logged (requested chain attempt retryCount w)
            [Log warn "[TPS Update] Invalid response format" [AStr chain]]).
Proof.
  intros H. unfold attempt_body, bind, log, emit, axios_get, ret; simpl.
  rewrite H. unfold requested, logged; simpl. now rewrite <- !app_assoc.
Qed.

(** The world in which the validator starts. *)
Definition validating (results : list (option raw_point)) (w : world)
  : world :=
logged (requested chain attempt retryCount w)
       [Log info "[TPS Update] Raw data"
          [AStr chain; ANat (List.length results)]].

(** A response with the list: what follows hangs on the validator and on
    the bulk write. *)
Lemma attempt_body_results results w :
  metrics e chain (requests w) = Resolved (Results results) ->
  attempt_body chain attempt retryCount e w
  = match filterM (isValidItem chain (clock w / 1000 - 30 * 24 * 60 * 60)
                               (clock w / 1000))
                  results e (validating results w) with
    | (Exc x, w1) => (Exc x, w1)
    | (Val [], w1) =>
        (Val (Return NoValidData),
         logged w1 [Log warn "[TPS Update] No valid data points"
                      [AStr chain]])
    | (Val (item :: valid), w1) =>
        match mapM (toUpdateOne chain) (item :: valid) e w1 with
        | (Exc x, w2) => (Exc x, w2)
        | (Val ops, w2) =>
            match TPS_bulkWrite ops e w2 with
            | (Exc x, w3) => (Exc x, w3)
            | (Val result, w3) =>
                (Val (Return (Applied result)),
                 logged w3
                   [Log info "[TPS Update] Success"
                      [AStr chain; ANat (List.length (item :: valid));
                       ANat (matchedCount result);
                       ANat (modifiedCount result);
                       ANat (upsertedCount result)]])
            end
        end
    end.
Proof.
  intros H. unfold attempt_body.
  unfold bind at 1. unfold log at 1, emit.
  unfold bind at 1. unfold axios_get; cbn [requests trace tps chains clock writes].
  rewrite H.
  unfold bind at 1. unfold Date_now at 1. cbn [clock].
  unfold bind at 1. unfold log at 1, emit.
  cbn [requests trace tps chains clock writes].
  unfold bind at 1.
  replace (validating results w) with
    {| tps := tps w; chains := chains w; clock := clock w;
       requests := S (requests w); writes := writes w;
       trace := ((trace w ++ [Log info "[TPS Update] Starting update"
                                [AStr chain; ANat attempt; ANat retryCount]])
                 ++ [Request chain])
                ++ [Log info "[TPS Update] Raw data"
                      [AStr chain; ANat (List.length results)]] |}.
  2:{ unfold validating, requested, logged; simpl. now rewrite <- !app_assoc. }
  destruct (filterM _ results e _) as [[valid|x] w1]; [|reflexivity].
  destruct valid as [|item valid]; [reflexivity|].
  unfold bind at 1.
  destruct (mapM (toUpdateOne chain) (item :: valid) e w1) as [[ops|x] w2];
    [|reflexivity].
  unfold bind at 1.
  destruct (TPS_bulkWrite ops e w2) as [[result|x] w3]; reflexivity.
Qed.

(** The turn: the [catch] block runs exactly when the [try] block threw,
    and pauses exactly when the attempt is not the last. *)
Lemma turn_unfold w :
  turn chain attempt retryCount e w
  = match attempt_body chain attempt retryCount e w with
    | (Val c, w1) => (Val c, w1)
    | (Exc err, w1) =>
        if (attempt =? retryCount)%nat then
          (Val (Return AllAttemptsFailed),
           logged w1 [error_line chain attempt retryCount err;
                      all_failed_line chain])
        else
          (Val Continue,
           paused (logged w1 [error_line chain attempt retryCount err])
                  (Z.of_nat attempt * 2000))
    end.
Proof.
  unfold turn, try_catch.
  destruct (attempt_body chain attempt retryCount e w) as [[c|err] w1];
    [reflexivity|].
  unfold on_error, bind, log, emit, sleep, ret.
  destruct (attempt =? retryCount)%nat; unfold logged, paused, error_line,
    all_failed_line; simpl; now rewrite <- ?app_assoc.
Qed.

End Attempt.

(* ===================================================================== *)
(** * What a computation leaves in the world *)
(* ===================================================================== *)

Definition total_pause (evs : list event) : Z :=
fold_right Z.add 0 (pauses evs).

(** [w'] is [w] after the events [evs]: the trace has them, the clock
    has their pauses and the counter their requests. *)
Record grows (w : world) (evs : list event) (w' : world) : Prop := {
  grows_trace : trace w' = trace w ++ evs;
  grows_clock : clock w' = clock w + total_pause evs;
  grows_chains : chains w' = chains w;
  grows_requests : requests w' = (requests w + sent evs)%nat
}.

Lemma sent_app a b : sent (a ++ b) = (sent a + sent b)%nat.
Proof.
  induction a as [|ev a IH]; [reflexivity|].
  destruct ev; simpl; rewrite ?IH; reflexivity.
Qed.

Lemma pauses_app a b : pauses (a ++ b) = pauses a ++ pauses b.
Proof.
  induction a as [|ev a IH]; [reflexivity|].
  destruct ev; simpl; rewrite ?IH; reflexivity.
Qed.

Lemma total_pause_app a b :
  total_pause (a ++ b) = total_pause a + total_pause b.
Proof.
  unfold total_pause. rewrite pauses_app.
  induction (pauses a) as [|x l IH]; simpl; lia.
Qed.

Lemma chatter_quiet evs : forallb chatter evs = true -> forallb quiet evs = true.
Proof.
  induction evs as [|ev evs IH]; [reflexivity|]. simpl.
  rewrite !andb_true_iff. intros [H1 H2]. split; [|auto].
  destruct ev as [[] ? ?| | |]; simpl in *; congruence.
Qed.

Lemma chatter_lines evs : forallb chatter evs = true -> forallb is_line evs = true.
Proof.
  induction evs as [|ev evs IH]; [reflexivity|]. simpl.
  rewrite !andb_true_iff. intros [H1 H2]. split; [|auto].
  destruct ev; simpl in *; congruence.
Qed.

Lemma lines_sent evs : forallb is_line evs = true -> sent evs = 0%nat.
Proof.
  induction evs as [|ev evs IH]; [reflexivity|]. simpl.
  rewrite andb_true_iff. intros [H1 H2].
  destruct ev; simpl in *; try discriminate. auto.
Qed.

Lemma lines_pauses evs : forallb is_line evs = true -> pauses evs = [].
Proof.
  induction evs as [|ev evs IH]; [reflexivity|]. simpl.
  rewrite andb_true_iff. intros [H1 H2].
  destruct ev; simpl in *; try discriminate; auto.
Qed.

Lemma quiet_pauses evs : forallb quiet evs = true -> pauses evs = [].
Proof.
  induction evs as [|ev evs IH]; [reflexivity|]. simpl.
  rewrite andb_true_iff. intros [H1 H2].
  destruct ev; simpl in *; try discriminate; auto.
Qed.

Lemma grows_refl w : grows w [] w.
Proof.
  split; simpl; rewrite ?app_nil_r; unfold total_pause; simpl;
    lia || reflexivity.
Qed.

Lemma grows_trans w1 a w2 b w3 :
  grows w1 a w2 -> grows w2 b w3 -> grows w1 (a ++ b) w3.
Proof.
  intros [] []. split.
  - rewrite app_assoc. congruence.
  - rewrite total_pause_app. lia.
  - congruence.
  - rewrite sent_app. lia.
Qed.

Lemma grows_logged w evs :
  forallb is_line evs = true -> grows w evs (logged w evs).
Proof.
  intros H. split; simpl; try reflexivity.
  - unfold total_pause. rewrite (lines_pauses _ H). simpl. lia.
  - rewrite (lines_sent _ H). lia.
Qed.

Lemma grows_requested chain k n w :
  grows w [Log info "[TPS Update] Starting update"
             [AStr chain; ANat k; ANat n]; Request chain]
        (requested chain k n w).
Proof. split; simpl; unfold total_pause; simpl; lia || reflexivity. Qed.

Lemma grows_paused w ms : grows w [Sleep ms] (paused w ms).
Proof. split; simpl; unfold total_pause; simpl; lia || reflexivity. Qed.

(** The validator, whatever it ends with, has only written warnings. *)
Lemma filter_frame chain lo hi items e w r w' :
  filterM (isValidItem chain lo hi) items e w = (r, w') ->
  exists evs, w' = logged w evs /\ forallb chatter evs = true.
Proof.
  revert w r w'. induction items as [|item items IH]; intros w r w'.
  - simpl. unfold ret. intros H; inversion H; subst.
    exists []. now rewrite logged_nil.
  - cbn [filterM]. unfold bind at 1.
    assert (Hcb : forall r1 w1, isValidItem chain lo hi item e w = (r1, w1) ->
              exists evs, w1 = logged w evs /\ forallb chatter evs = true).
    { intros r1 w1. unfold isValidItem. destruct item as [p|].
      - destruct (isNaN _ || isNaN _).
        + unfold_eff. intros H; inversion H; subst. eexists; split; reflexivity.
        + destruct (negb _).
          * unfold_eff. destruct (Js.toISOString _); intros H; inversion H; subst.
            -- eexists; split; reflexivity.
            -- exists []. now rewrite logged_nil.
          * unfold_eff. intros H; inversion H; subst.
            exists []. now rewrite logged_nil.
      - unfold throw. intros H; inversion H; subst.
        exists []. now rewrite logged_nil. }
    destruct (isValidItem chain lo hi item e w) as [[b|x] w1] eqn:Hitem.
    + destruct (Hcb _ _ eq_refl) as (evs & -> & Hq).
      unfold bind at 1.
      destruct (filterM _ items e (logged w evs)) as [[rest|x] w2] eqn:Hrest;
        destruct (IH _ _ _ Hrest) as (evs' & -> & Hq');
        unfold ret; intros H; inversion H; subst;
        exists (evs ++ evs'); rewrite logged_logged, forallb_app, Hq, Hq';
        now split.
    + destruct (Hcb _ _ eq_refl) as (evs & -> & Hq).
      intros H; inversion H; subst. eauto.
Qed.

(** The bulk write leaves the write in the trace and touches neither the
    clock nor the request counter. *)
Lemma bulkWrite_grows ops e w r w' :
  TPS_bulkWrite ops e w = (r, w') -> grows w [Wrote ops] w'.
Proof.
  unfold TPS_bulkWrite. destruct (db_write e (writes w)).
  - destruct (bulkWrite ops (tps w)). intros H; inversion H; subst.
    split; simpl; unfold total_pause; simpl; lia || reflexivity.
  - intros H; inversion H; subst.
    split; simpl; unfold total_pause; simpl; lia || reflexivity.
Qed.

(** The [try] block of an attempt sends one request, takes no pause and
    writes no error line, however it ends. *)
Lemma body_grows chain k n e w r w' :
  attempt_body chain k n e w = (r, w') ->
  exists evs, grows w evs w' /\ forallb quiet evs = true /\ sent evs = 1%nat.
Proof.
  destruct (metrics e chain (requests w)) as [|[| |results]] eqn:Hm.
  - rewrite (attempt_body_rejected _ _ _ _ _ Hm). intros H; inversion H; subst.
    eexists. split; [apply grows_requested|]. split; reflexivity.
  - rewrite (attempt_body_no_data _ _ _ _ _ Hm). intros H; inversion H; subst.
    eexists. split; [eapply grows_trans; [apply grows_requested|apply grows_logged]|];
      [reflexivity|]. split; reflexivity.
  - rewrite (attempt_body_no_results _ _ _ _ _ Hm). intros H; inversion H; subst.
    eexists. split; [eapply grows_trans; [apply grows_requested|apply grows_logged]|];
      [reflexivity|]. split; reflexivity.
  - rewrite (attempt_body_results _ _ _ _ _ _ Hm).
    assert (Hstart : grows w
              [Log info "[TPS Update] Starting update"
                 [AStr chain; ANat k; ANat n]; Request chain;
               Log info "[TPS Update] Raw data"
                 [AStr chain; ANat (List.length results)]]
              (validating chain k n results w)).
    { eapply (grows_trans _ [_; _] _ [_]); [apply grows_requested|].
      now apply grows_logged. }
    destruct (filterM _ results e _) as [[valid|x] w1] eqn:Hf;
      destruct (filter_frame _ _ _ _ _ _ _ _ Hf) as (evs & -> & Hq);
      pose proof (grows_logged (validating chain k n results w) evs
                    (chatter_lines _ Hq)) as Hg1;
      pose proof (grows_trans _ _ _ _ _ Hstart Hg1) as Hg.
    2:{ intros H; inversion H; subst. eexists. split; [exact Hg|].
        rewrite sent_app, (lines_sent _ (chatter_lines _ Hq)).
        rewrite forallb_app, (chatter_quiet _ Hq). split; reflexivity. }
    destruct valid as [|item valid].
    { intros H; inversion H; subst. eexists.
      split; [eapply grows_trans; [exact Hg|now apply grows_logged]|].
      rewrite !sent_app, (lines_sent _ (chatter_lines _ Hq)).
      rewrite !forallb_app, (chatter_quiet _ Hq). split; reflexivity. }
    destruct (mapM (toUpdateOne chain) (item :: valid) e _) as [[ops|x] w2] eqn:Hmap.
    2:{ assert (Hsome : Forall (fun it => it <> None) (item :: valid)).
        { destruct (filter_returns chain (clock w / 1000) results e _ _ _ Hf) as [Hv _].
          rewrite Hv. apply filter_keeps_some. }
        rewrite (mapM_toUpdateOne chain e _ _ Hsome) in Hmap. discriminate. }
    assert (w2 = logged (validating chain k n results w) evs) as ->.
    { assert (Hsome : Forall (fun it => it <> None) (item :: valid)).
      { destruct (filter_returns chain (clock w / 1000) results e _ _ _ Hf) as [Hv _].
        rewrite Hv. apply filter_keeps_some. }
      rewrite (mapM_toUpdateOne chain e _ _ Hsome) in Hmap. now inversion Hmap. }
    destruct (TPS_bulkWrite ops e _) as [[result|x] w3] eqn:Hw;
      pose proof (grows_trans _ _ _ _ _ Hg (bulkWrite_grows _ _ _ _ _ Hw)) as Hg3.
    + intros H; inversion H; subst. eexists.
      split; [eapply grows_trans; [exact Hg3|now apply grows_logged]|].
      rewrite !sent_app, (lines_sent _ (chatter_lines _ Hq)).
      rewrite !forallb_app, (chatter_quiet _ Hq). split; reflexivity.
    + intros H; inversion H; subst. eexists. split; [exact Hg3|].
      rewrite !sent_app, (lines_sent _ (chatter_lines _ Hq)).
      rewrite !forallb_app, (chatter_quiet _ Hq). split; reflexivity.
Qed.

(* ===================================================================== *)
(** * The retry loop *)
(* ===================================================================== *)

(** The attempt whose [catch] block wrote an error line. *)
Definition attempt_of_error (ev : event) : option nat :=
match ev with
| Log error msg [AStr _; ANat k; ANat _; AExn _] =>
    if String.eqb msg "[TPS Update] Error" then Some k else None
| _ => None
end.

Definition is_all_failed (ev : event) : bool :=
match ev with
| Log error msg [AStr _] => String.eqb msg "[TPS Update] All attempts failed"
| _ => false
end.

(** A trace obeys the backoff policy for [n] attempts when the error line
    of an attempt [k < n] is followed at once by a pause of [k * 2000] ms,
    the error line of a later attempt by the line of final failure and
    nothing more, and when it has no other pause and no other error
    line. *)
Fixpoint backoff_ok (n : nat) (evs : list event) : bool :=
match evs with
| [] => true
| ev :: rest =>
    match attempt_of_error ev with
    | Some k =>
        if (k <? n)%nat then
          match rest with
          | Sleep ms :: rest' => (ms =? Z.of_nat k * 2000) && backoff_ok n rest'
          | _ => false
          end
        else
          match rest with
          | [last] => is_all_failed last
          | _ => false
          end
    | None => quiet ev && backoff_ok n rest
    end
end.

(** A reply that makes an attempt fail: a rejection, or a response
    without the list of points. *)
Definition unproductive (r : reply) : bool :=
match r with
| Rejected | Resolved NoData | Resolved NoResults => true
| Resolved (Results _) => false
end.

Definition soft (r : reply) : bool :=
match r with
| Resolved NoData | Resolved NoResults => true
| _ => false
end.

Lemma backoff_quiet n q rest :
  forallb quiet q = true -> backoff_ok n (q ++ rest) = backoff_ok n rest.
Proof.
  induction q as [|ev q IH]; [reflexivity|]. simpl.
  rewrite andb_true_iff. intros [Hev Hq].
  destruct ev as [[] ? ?| | |]; simpl in *; try discriminate; auto.
Qed.

Section Loop.

Variable chain : string.
Variable n : nat.
Variable e : env.

Lemma attempts_unfold todo k w :
  attempts chain n (S todo) k e w
  = match turn chain k n e w with
    | (Val (Return x), w1) => (Val x, w1)
    | (Val Continue, w1) => attempts chain n todo (S k) e w1
    | (Exc x, w1) => (Exc x, w1)
    end.
Proof.
  cbn [attempts]. unfold bind, turn.
  destruct (try_catch _ _ e w) as [[[|x]|x] w1]; reflexivity.
Qed.

(** A turn never throws. *)
Lemma turn_returns k w : exists c w1, turn chain k n e w = (Val c, w1).
Proof.
  rewrite turn_unfold.
  destruct (attempt_body chain k n e w) as [[c|err] w1]; [eauto|].
  destruct (k =? n)%nat; eauto.
Qed.

(** Nor does the loop. *)
Lemma attempts_return todo k w :
  exists x w', attempts chain n todo k e w = (Val x, w').
Proof.
  revert k w. induction todo as [|todo IH]; intros k w.
  - simpl. unfold ret. eauto.
  - rewrite attempts_unfold.
    destruct (turn_returns k w) as (c & w1 & ->).
    destruct c as [|x]; [apply IH | eauto].
Qed.

(** What a turn adds to the world. *)
Lemma turn_grows k w c w1 :
  (k <= n)%nat ->
  turn chain k n e w = (Val c, w1) ->
  exists evs, grows w evs w1 /\ sent evs = 1%nat
    /\ forall rest, backoff_ok n (evs ++ rest)
         = match c with
           | Continue => backoff_ok n rest
           | Return AllAttemptsFailed =>
               match rest with [] => true | _ => false end
           | Return _ => backoff_ok n rest
           end.
Proof.
  intros Hk. rewrite turn_unfold.
  destruct (attempt_body chain k n e w) as [[c0|err] w0] eqn:Hb;
    destruct (body_grows _ _ _ _ _ _ _ Hb) as (q & Hg & Hq & Hs).
  - intros H; inversion H; subst. exists q. split; [assumption|].
    split; [assumption|]. intros rest. rewrite (backoff_quiet _ _ _ Hq).
    destruct c as [|[]]; try reflexivity.
    (* the try block itself never returns the final failure *)
    exfalso. revert Hb.
    destruct (metrics e chain (requests w)) as [|[| |results]] eqn:Hm.
    + rewrite (attempt_body_rejected _ _ _ _ _ Hm). discriminate.
    + rewrite (attempt_body_no_data _ _ _ _ _ Hm). discriminate.
    + rewrite (attempt_body_no_results _ _ _ _ _ Hm). discriminate.
    + rewrite (attempt_body_results _ _ _ _ _ _ Hm).
      destruct (filterM _ _ _ _) as [[[|? ?]|?] ?]; try discriminate.
      destruct (mapM _ _ _ _) as [[?|?] ?]; try discriminate.
      destruct (TPS_bulkWrite _ _ _) as [[?|?] ?]; discriminate.
  - destruct (Nat.eqb_spec k n) as [->|Hne]; intros H; inversion H; subst.
    + exists (q ++ [error_line chain n n err; all_failed_line chain]).
      split; [eapply grows_trans; [exact Hg|now apply grows_logged]|].
      split; [rewrite sent_app, Hs; reflexivity|].
      intros rest. rewrite <- app_assoc, (backoff_quiet _ _ _ Hq).
      cbn [app backoff_ok attempt_of_error error_line]. simpl String.eqb.
      cbv iota. rewrite Nat.ltb_irrefl. destruct rest; reflexivity.
    + exists (q ++ [error_line chain k n err] ++ [Sleep (Z.of_nat k * 2000)]).
      split.
      { eapply grows_trans; [exact Hg|].
        eapply grows_trans; [now apply grows_logged | apply grows_paused]. }
      split; [rewrite !sent_app, Hs; reflexivity|].
      intros rest. rewrite <- !app_assoc, (backoff_quiet _ _ _ Hq).
      cbn [app backoff_ok attempt_of_error error_line]. simpl String.eqb.
      cbv iota. destruct (Nat.ltb_spec k n) as [_|Hge]; [|lia].
      now rewrite Z.eqb_refl.
Qed.

(** The whole loop: a request per turn, and a trace that obeys the
    backoff policy. *)
Lemma attempts_grow todo k w x w' :
  (k + todo = n + 1)%nat ->
  attempts chain n todo k e w = (Val x, w') ->
  exists evs, grows w evs w' /\ (sent evs <= todo)%nat
              /\ backoff_ok n evs = true.
Proof.
  revert k w. induction todo as [|todo IH]; intros k w Hk.
  - simpl. unfold ret. intros H; inversion H; subst.
    exists []. split; [apply grows_refl|]. split; [simpl; lia | reflexivity].
  - rewrite attempts_unfold.
    destruct (turn_returns k w) as (c & w1 & Ht). rewrite Ht.
    destruct (turn_grows k w c w1 ltac:(lia) Ht) as (evs & Hg & Hs & Hb).
    destruct c as [|x0].
    + intros H. destruct (IH (S k) w1 ltac:(lia) H) as (evs' & Hg' & Hs' & Hb').
      exists (evs ++ evs'). split; [eapply grows_trans; eassumption|].
      split; [rewrite sent_app; lia|]. now rewrite Hb.
    + intros H; inversion H; subst. exists evs.
      split; [assumption|]. split; [lia|].
      specialize (Hb []). rewrite app_nil_r in Hb. rewrite Hb.
      destruct x; reflexivity.
Qed.

(** When every reply is a rejection or lacks the list, every turn of the
    budget is used and the caller gets [null]. *)
Lemma unproductive_run todo k w :
  (k + todo = n + 1)%nat ->
  (forall j, (j < todo)%nat ->
     unproductive (metrics e chain (requests w + j)) = true) ->
  exists x w' evs,
    attempts chain n todo k e w = (Val x, w')
    /\ grows w evs w' /\ sent evs = todo /\ returned x = None
    /\ x = match todo with
           | O => LoopEnded
           | S t => if soft (metrics e chain (requests w + t))
                    then LoopEnded else AllAttemptsFailed
           end
    /\ ((forall j, (j < todo)%nat ->
           soft (metrics e chain (requests w + j)) = true) ->
        forallb quiet evs = true).
Proof.
  revert k w. induction todo as [|todo IH]; intros k w Hk Hall.
  - exists LoopEnded, w, []. simpl. unfold ret.
    split; [reflexivity|]. split; [apply grows_refl|]. repeat split.
  - rewrite attempts_unfold, turn_unfold.
    pose proof (Hall 0%nat ltac:(lia)) as H0. rewrite Nat.add_0_r in H0.
    assert (Hnext : forall w1, requests w1 = S (requests w) ->
              forall j, (j < todo)%nat ->
                unproductive (metrics e chain (requests w1 + j)) = true).
    { intros w1 Hw1 j Hj. rewrite Hw1.
      replace (S (requests w) + j)%nat with (requests w + S j)%nat by lia.
      apply Hall. lia. }
    assert (Hlast : forall w1 t, requests w1 = S (requests w) ->
              metrics e chain (requests w1 + t)
              = metrics e chain (requests w + S t)).
    { intros w1 t ->. f_equal. lia. }
    destruct (metrics e chain (requests w)) as [|[| |results]] eqn:Hm;
      try discriminate.
    + rewrite (attempt_body_rejected _ _ _ _ _ Hm).
      destruct (Nat.eqb_spec k n) as [->|Hne].
      * assert (todo = 0)%nat as -> by lia.
        eexists _, _, _. split; [reflexivity|].
        split; [eapply grows_trans; [apply grows_requested|now apply grows_logged]|].
        rewrite Nat.add_0_r, Hm. simpl.
        repeat split; try reflexivity.
        intros Hs. specialize (Hs 0%nat ltac:(lia)).
        rewrite Nat.add_0_r, Hm in Hs. discriminate.
      * set (w1 := paused _ _).
        destruct (IH (S k) w1 ltac:(lia) (Hnext w1 eq_refl))
          as (x & w' & evs & Hrun & Hg & Hs & Hret & Hx & Hquiet).
        exists x, w'. eexists. split; [exact Hrun|].
        split.
        { eapply grows_trans; [apply grows_requested|].
          eapply grows_trans; [|exact Hg].
          eapply grows_trans; [|apply grows_paused].
          now apply (grows_logged _ [_]). }
        split; [rewrite !sent_app, Hs; reflexivity|].
        split; [assumption|]. split.
        { rewrite Hx. destruct todo as [|t]; [lia|].
          now rewrite (Hlast w1 t eq_refl). }
        intros Hs'. specialize (Hs' 0%nat ltac:(lia)).
        rewrite Nat.add_0_r, Hm in Hs'. discriminate.
    + rewrite (attempt_body_no_data _ _ _ _ _ Hm).
      set (w1 := logged _ _).
      destruct (IH (S k) w1 ltac:(lia) (Hnext w1 eq_refl))
        as (x & w' & evs & Hrun & Hg & Hs & Hret & Hx & Hquiet).
      exists x, w'. eexists. split; [exact Hrun|].
      split.
      { eapply grows_trans; [apply grows_requested|].
        eapply grows_trans; [|exact Hg]. now apply (grows_logged _ [_]). }
      split; [rewrite !sent_app, Hs; reflexivity|].
      split; [assumption|]. split.
      { rewrite Hx. destruct todo as [|t].
        - rewrite Nat.add_0_r, Hm. reflexivity.
        - now rewrite (Hlast w1 t eq_refl). }
      intros Hs'. rewrite !forallb_app. simpl. apply Hquiet.
      intros j Hj. specialize (Hs' (S j) ltac:(lia)).
      now rewrite <- (Hlast w1 j eq_refl) in Hs'.
    + rewrite (attempt_body_no_results _ _ _ _ _ Hm).
      set (w1 := logged _ _).
      destruct (IH (S k) w1 ltac:(lia) (Hnext w1 eq_refl))
        as (x & w' & evs & Hrun & Hg & Hs & Hret & Hx & Hquiet).
      exists x, w'. eexists. split; [exact Hrun|].
      split.
      { eapply grows_trans; [apply grows_requested|].
        eapply grows_trans; [|exact Hg]. now apply (grows_logged _ [_]). }
      split; [rewrite !sent_app, Hs; reflexivity|].
      split; [assumption|]. split.
      { rewrite Hx. destruct todo as [|t].
        - rewrite Nat.add_0_r, Hm. reflexivity.
        - now rewrite (Hlast w1 t eq_refl). }
      intros Hs'. rewrite !forallb_app. simpl. apply Hquiet.
      intros j Hj. specialize (Hs' (S j) ltac:(lia)).
      now rewrite <- (Hlast w1 j eq_refl) in Hs'.
Qed.

End Loop.

(* ===================================================================== *)
(** * Sample environments and worlds *)
(* ===================================================================== *)

(** A provider that rejects every request, one that answers without a
    body, and a database that takes every write. *)
Definition provider_down : env :=
mkEnv (fun _ _ => Rejected) (fun _ => WriteOk) (Some "secret").

Definition provider_mute : env :=
mkEnv (fun _ _ => Resolved NoData) (fun _ => WriteOk) (Some "secret").

(** 2023-11-14T22:13:20Z, an empty collection, one known chain. *)
Definition sample_now : Z := 1700000000.

Definition fresh_world : world :=
mkWorld [] ["43114"] (sample_now * 1000) 0 0 [].

(* ===================================================================== *)
(** * The update of one chain *)
(* ===================================================================== *)

(** C2.  For every chain and every number of attempts [n >= 1],
    [updateTpsData] returns to its caller and never throws; when each of
    the [n] requests is rejected, it returns [null] from the [catch] of
    the last attempt (the outcome "failed"), after exactly [n]
    requests. *)
Theorem updateTpsData_never_raises (chain : string) (n : nat) (e : env)
  (w : world) :
  (1 <= n)%nat ->
  (exists x w', updateTpsData chain n e w = (Val x, w'))
  /\ ((forall j, (j < n)%nat -> metrics e chain (requests w + j) = Rejected) ->
      exists w' evs,
        updateTpsData chain n e w = (Val AllAttemptsFailed, w')
        /\ returned AllAttemptsFailed = None
        /\ grows w evs w' /\ sent evs = n).
Proof.
  intros Hn. split; [apply attempts_return|].
  intros Hall. unfold updateTpsData.
  destruct (unproductive_run chain n e n 1 w ltac:(lia)) as
    (x & w' & evs & Hrun & Hg & Hs & _ & Hx & _).
  { intros j Hj. now rewrite Hall. }
  destruct n as [|t]; [lia|].
  rewrite Hall in Hx by lia. simpl in Hx. subst x.
  exists w', evs. auto.
Qed.

Lemma updateTpsData_never_raises_witness :
  (exists x w', updateTpsData "43114" 3 provider_down fresh_world = (Val x, w'))
  /\ ((forall j, (j < 3)%nat ->
         metrics provider_down "43114" (requests fresh_world + j) = Rejected) ->
      exists w' evs,
        updateTpsData "43114" 3 provider_down fresh_world
        = (Val AllAttemptsFailed, w')
        /\ returned AllAttemptsFailed = None
        /\ grows fresh_world evs w' /\ sent evs = 3%nat).
Proof.
  apply (updateTpsData_never_raises "43114" 3 provider_down fresh_world).
  apply Nat.lt_0_succ.
Defined.

(** The pauses of a call in which every request is rejected: one after
    each attempt but the last, of 2000 ms after the first, 4000 ms after
    the second, and so on. *)
Lemma rejected_run chain n e todo k w :
  (k + todo = n + 1)%nat -> (1 <= todo)%nat ->
  (forall j, (j < todo)%nat -> metrics e chain (requests w + j) = Rejected) ->
  exists w' evs,
    attempts chain n todo k e w = (Val AllAttemptsFailed, w')
    /\ trace w' = trace w ++ evs
    /\ pauses evs = map (fun j => Z.of_nat j * 2000) (seq k (todo - 1))
    /\ sent evs = todo.
Proof.
  revert k w. induction todo as [|todo IH]; intros k w Hk Htodo Hall; [lia|].
  pose proof (Hall 0%nat ltac:(lia)) as Hm. rewrite Nat.add_0_r in Hm.
  rewrite attempts_unfold, turn_unfold, (attempt_body_rejected _ _ _ _ _ Hm).
  destruct (Nat.eqb_spec k n) as [->|Hne].
  - assert (todo = 0)%nat as -> by lia.
    eexists. exists [Log info "[TPS Update] Starting update"
                       [AStr chain; ANat n; ANat n];
                     Request chain;
                     error_line chain n n FetchFailed;
                     all_failed_line chain].
    split; [reflexivity|]. split; [|split; reflexivity].
    cbn [trace logged requested]. now rewrite <- app_assoc.
  - set (w1 := paused _ _).
    destruct (IH (S k) w1 ltac:(lia) ltac:(lia)) as (w' & evs & Hrun & Ht & Hp & Hs).
    { intros j Hj. cbn [w1 requests paused logged requested].
      replace (S (requests w) + j)%nat with (requests w + S j)%nat by lia.
      apply Hall. lia. }
    exists w', ([Log info "[TPS Update] Starting update"
                   [AStr chain; ANat k; ANat n];
                 Request chain;
                 error_line chain k n FetchFailed;
                 Sleep (Z.of_nat k * 2000)] ++ evs).
    split; [exact Hrun|]. split; [|split].
    + rewrite Ht. cbn [w1 trace paused logged requested].
      now rewrite <- !app_assoc.
    + cbn [app pauses error_line]. rewrite Hp.
      destruct todo as [|m]; [lia|].
      cbn [Nat.sub seq map]. now rewrite Nat.sub_0_r.
    + cbn [app sent error_line]. now rewrite Hs.
Qed.

(** C8.  In one call, what follows attempt [k] of [n] in the loop hangs
    on its [try] block.  When the block returns, there is no pause: the
    call ends with what the block returns, or, after a response without
    the list of points, the loop goes on at once with attempt [k + 1].
    When the block throws and [k < n], the error is logged and the loop
    pauses for exactly [k * 2000] ms before attempt [k + 1]; when it
    throws and [k = n], the call returns [null] ("failed") without a
    pause.  The [try] block itself never pauses.  So a call whose [n]
    requests are all rejected pauses [n - 1] times, for 2000, 4000, ...
    ms in this order, and the trace of every call obeys the policy. *)
Theorem backoff_after_failed_attempts (chain : string) (n todo k : nat)
  (e : env) (w w0 : world) :
  (1 <= k <= n)%nat ->
  attempts chain n (S todo) k e w0
  = match attempt_body chain k n e w0 with
    | (Val (Return x), w1) => (Val x, w1)
    | (Val Continue, w1) => attempts chain n todo (S k) e w1
    | (Exc err, w1) =>
        if (k <? n)%nat then
          attempts chain n todo (S k) e
                   (paused (logged w1 [error_line chain k n err])
                           (Z.of_nat k * 2000))
        else
          (Val AllAttemptsFailed,
           logged w1 [error_line chain k n err; all_failed_line chain])
    end
  /\ (forall r w1, attempt_body chain k n e w0 = (r, w1) ->
      exists evs, trace w1 = trace w0 ++ evs /\ pauses evs = [])
  /\ (metrics e chain (requests w0) = Rejected ->
      attempt_body chain k n e w0
      = (Exc FetchFailed, requested chain k n w0))
  /\ (soft (metrics e chain (requests w0)) = true ->
      exists w1, attempt_body chain k n e w0 = (Val Continue, w1))
  /\ ((forall j, (j < n)%nat -> metrics e chain (requests w + j) = Rejected) ->
      exists w' evs,
        updateTpsData chain n e w = (Val AllAttemptsFailed, w')
        /\ trace w' = trace w ++ evs
        /\ pauses evs = map (fun j => Z.of_nat j * 2000) (seq 1 (n - 1))
        /\ sent evs = n)
  /\ exists x w' evs,
       updateTpsData chain n e w = (Val x, w')
       /\ trace w' = trace w ++ evs /\ backoff_ok n evs = true.
Proof.
  intros [Hk1 Hkn]. split; [|split; [|split; [|split; [|split]]]].
  - rewrite attempts_unfold, turn_unfold.
    destruct (attempt_body chain k n e w0) as [[[|x]|err] w1];
      [reflexivity | reflexivity |].
    destruct (Nat.eqb_spec k n) as [->|Hne].
    + now rewrite Nat.ltb_irrefl.
    + destruct (Nat.ltb_spec k n); [reflexivity | lia].
  - intros r w1 Hb.
    destruct (body_grows _ _ _ _ _ _ _ Hb) as (evs & Hg & Hq & _).
    exists evs. split; [apply Hg | now apply quiet_pauses].
  - apply attempt_body_rejected.
  - intros Hsoft.
    destruct (metrics e chain (requests w0)) as [|[| |results]] eqn:Hm;
      try discriminate.
    + rewrite (attempt_body_no_data _ _ _ _ _ Hm). eauto.
    + rewrite (attempt_body_no_results _ _ _ _ _ Hm). eauto.
  - intros Hall. apply rejected_run; [lia | lia | exact Hall].
  - destruct (attempts_return chain n e n 1 w) as (x & w' & Hrun).
    destruct (attempts_grow chain n e n 1 w x w' ltac:(lia) Hrun)
      as (evs & Hg & _ & Hb).
    exists x, w', evs. split; [exact Hrun|]. split; [apply Hg | exact Hb].
Qed.

Lemma backoff_after_failed_attempts_witness :
  exists w' evs,
    updateTpsData "43114" 3 provider_down fresh_world
    = (Val AllAttemptsFailed, w')
    /\ trace w' = trace fresh_world ++ evs
    /\ pauses evs = [2000; 4000]
    /\ sent evs = 3%nat.
Proof.
  destruct (backoff_after_failed_attempts "43114" 3 2 1 provider_down
              fresh_world fresh_world) as (_ & _ & _ & _ & Hall & _).
  - split; [apply le_n | apply Nat.leb_le; reflexivity].
  - apply Hall. intros j _. reflexivity.
Defined.

(** C9.  In one call, a response that lacks the list of points (no body,
    or [results] not an array) ends its attempt without a throw and
    without a pause, and the loop goes on with the next attempt: it costs
    one turn of the budget, as a rejected request does.  When each of the
    [n] replies is a rejection or such a response, the call sends exactly
    [n] requests and returns [null]; when each is such a response, it ends
    after the loop, still without having thrown or paused. *)
Theorem shape_mismatch_is_retried (chain : string) (n todo k : nat) (e : env)
  (w : world) :
  soft (metrics e chain (requests w)) = true ->
  (exists line,
     chatter line = true
     /\ attempt_body chain k n e w
        = (Val Continue, logged (requested chain k n w) [line])
     /\ attempts chain n (S todo) k e w
        = attempts chain n todo (S k) e
                   (logged (requested chain k n w) [line]))
  /\ ((forall j, (j < n)%nat ->
         unproductive (metrics e chain (requests w + j)) = true) ->
      exists x w' evs,
        updateTpsData chain n e w = (Val x, w')
        /\ returned x = None /\ grows w evs w' /\ sent evs = n)
  /\ ((forall j, (j < n)%nat ->
         soft (metrics e chain (requests w + j)) = true) ->
      exists w' evs,
        updateTpsData chain n e w = (Val LoopEnded, w')
        /\ grows w evs w' /\ sent evs = n
        /\ pauses evs = [] /\ forallb quiet evs = true).
Proof.
  intros Hsoft. split; [|split].
  - destruct (metrics e chain (requests w)) as [|[| |results]] eqn:Hm;
      try discriminate.
    + eexists. split; [|split; [apply (attempt_body_no_data _ _ _ _ _ Hm)|]];
        [reflexivity|].
      rewrite attempts_unfold, turn_unfold.
      now rewrite (attempt_body_no_data _ _ _ _ _ Hm).
    + eexists. split; [|split; [apply (attempt_body_no_results _ _ _ _ _ Hm)|]];
        [reflexivity|].
      rewrite attempts_unfold, turn_unfold.
      now rewrite (attempt_body_no_results _ _ _ _ _ Hm).
  - intros Hall.
    destruct (unproductive_run chain n e n 1 w ltac:(lia) Hall)
      as (x & w' & evs & Hrun & Hg & Hs & Hret & _).
    exists x, w', evs. auto.
  - intros Hall.
    destruct (unproductive_run chain n e n 1 w ltac:(lia)) as
      (x & w' & evs & Hrun & Hg & Hs & _ & Hx & Hq).
    { intros j Hj. specialize (Hall j Hj).
      destruct (metrics e chain (requests w + j)) as [|[| |]]; auto. }
    assert (x = LoopEnded) as ->.
    { rewrite Hx. destruct n as [|t]; [reflexivity|]. now rewrite Hall by lia. }
    exists w', evs. repeat split; try apply Hg; auto using quiet_pauses.
Qed.

Lemma shape_mismatch_is_retried_witness :
  (exists line,
     chatter line = true
     /\ attempt_body "43114" 1 3 provider_mute fresh_world
        = (Val Continue, logged (requested "43114" 1 3 fresh_world) [line])
     /\ attempts "43114" 3 (S 2) 1 provider_mute fresh_world
        = attempts "43114" 3 2 (S 1) provider_mute
                   (logged (requested "43114" 1 3 fresh_world) [line]))
  /\ ((forall j, (j < 3)%nat ->
         unproductive (metrics provider_mute "43114" (requests fresh_world + j))
         = true) ->
      exists x w' evs,
        updateTpsData "43114" 3 provider_mute fresh_world = (Val x, w')
        /\ returned x = None /\ grows fresh_world evs w' /\ sent evs = 3%nat)
  /\ ((forall j, (j < 3)%nat ->
         soft (metrics provider_mute "43114" (requests fresh_world + j)) = true) ->
      exists w' evs,
        updateTpsData "43114" 3 provider_mute fresh_world = (Val LoopEnded, w')
        /\ grows fresh_world evs w' /\ sent evs = 3%nat
        /\ pauses evs = [] /\ forallb quiet evs = true).
Proof.
  apply (shape_mismatch_is_retried "43114" 3 2 1 provider_mute fresh_world).
  reflexivity.
Defined.

(** The validator leaves the collection, the clock and the counters as
    they were. *)
Lemma filter_keeps_world chain lo hi items e w r w' :
  filterM (isValidItem chain lo hi) items e w = (r, w') ->
  tps w' = tps w /\ clock w' = clock w /\ writes w' = writes w
  /\ requests w' = requests w /\ chains w' = chains w.
Proof.
  intros H. destruct (filter_frame _ _ _ _ _ _ _ _ H) as (evs & -> & _).
  repeat split.
Qed.

(** A point the validator keeps in every in-window scenario below, a
    point too old, a point without a numeric timestamp, and a point whose
    timestamp is no date at all. *)
Definition good_point (now : Z) : raw_point :=
mkPoint (JNum (of_Z (now - 10))) (JStr "3.5").

Definition old_point (now : Z) : raw_point :=
mkPoint (JNum (of_Z (now - 40 * 86400))) (JNum (of_Z 2)).

Definition bad_point : raw_point :=
mkPoint (JStr "bad") (JNum (of_Z 1)).

Definition far_point : raw_point :=
mkPoint (JNum (of_Z 10000000000000)) (JNum (of_Z 1)).

(** A provider with one good point and a database that rejects every
    bulk write before anything is applied. *)
Definition database_down : env :=
mkEnv (fun _ _ => Resolved (Results [Some (good_point sample_now)]))
      (fun _ => WriteRejected (fun _ => false)) (Some "secret").

(** A provider that sends a good point and a point far off the
    calendar. *)
Definition provider_far : env :=
mkEnv (fun _ _ => Resolved (Results [Some (good_point sample_now);
                                     Some far_point]))
      (fun _ => WriteOk) (Some "secret").

(** C7, as stated, fails when the bulk write rejects: the first reply has
    the list, the validator keeps its point, and yet the call is not
    "applied": it goes through all three attempts, each with its write,
    stores nothing and returns [null] from the last [catch]. *)
Lemma applied_needs_the_write_counterexample :
  metrics database_down "43114" 0
  = Resolved (Results [Some (good_point sample_now)])
  /\ filter (keeps_item sample_now) [Some (good_point sample_now)]
     = [Some (good_point sample_now)]
  /\ exists w',
       updateTpsData "43114" 3 database_down fresh_world
       = (Val AllAttemptsFailed, w')
       /\ requests w' = 3%nat /\ writes w' = 3%nat /\ tps w' = []
       /\ pauses (trace w') = [2000; 4000].
Proof.
  split; [reflexivity|]. split; [reflexivity|].
  eexists. split; [vm_compute; reflexivity|]. repeat split.
Qed.

(** C7, amended.  On an attempt whose request resolves with the list of
    points and whose validator returns the list [valid]: if [valid] is
    not empty, the operations built from it are sent to the collection in
    one bulk write and, when that write goes through, the call returns
    its result ("applied") at once, the collection holding the upserts,
    with no further request and no pause; when the write rejects, the
    [try] block throws.  If [valid] is empty the call returns [null]
    ("no-data") at once, with no write, no further request and no
    pause. *)
Theorem valid_points_are_applied (chain : string) (n todo k : nat) (e : env)
  (w : world) (results valid : list (option raw_point)) (w1 : world) :
  metrics e chain (requests w) = Resolved (Results results) ->
  filterM (isValidItem chain (clock w / 1000 - 30 * 24 * 60 * 60)
                       (clock w / 1000))
          results e (validating chain k n results w) = (Val valid, w1) ->
  let ops := map (op_of chain (clock w)) (the_points valid) in
  (valid <> [] -> db_write e (writes w) = WriteOk ->
   exists w' evs,
     attempts chain n (S todo) k e w
     = (Val (Applied (snd (bulkWrite ops (tps w)))), w')
     /\ tps w' = fst (bulkWrite ops (tps w))
     /\ writes w' = S (writes w)
     /\ grows w evs w' /\ sent evs = 1%nat /\ pauses evs = [])
  /\ (valid <> [] -> db_write e (writes w) <> WriteOk ->
      exists w', attempt_body chain k n e w = (Exc MongoError, w'))
  /\ (valid = [] ->
      exists w' evs,
        attempts chain n (S todo) k e w = (Val NoValidData, w')
        /\ tps w' = tps w /\ writes w' = writes w
        /\ grows w evs w' /\ sent evs = 1%nat /\ pauses evs = []).
Proof.
  intros Hm Hf ops.
  destruct (filter_returns chain (clock w / 1000) results e _ _ _ Hf)
    as [Hv _].
  destruct (filter_keeps_world _ _ _ _ _ _ _ _ Hf)
    as (Htps & Hclock & Hwrites & _).
  simpl in Htps, Hclock, Hwrites.
  assert (Hsome : Forall (fun it => it <> None) valid).
  { rewrite Hv. apply filter_keeps_some. }
  pose proof (mapM_toUpdateOne chain e valid w1 Hsome) as Hmap.
  rewrite Hclock in Hmap. fold ops in Hmap.
  assert (Hbody : attempt_body chain k n e w
          = match valid with
            | [] => (Val (Return NoValidData),
                     logged w1 [Log warn "[TPS Update] No valid data points"
                                  [AStr chain]])
            | _ :: _ =>
                match TPS_bulkWrite ops e w1 with
                | (Exc x, w3) => (Exc x, w3)
                | (Val result, w3) =>
                    (Val (Return (Applied result)),
                     logged w3
                       [Log info "[TPS Update] Success"
                          [AStr chain; ANat (List.length valid);
                           ANat (matchedCount result);
                           ANat (modifiedCount result);
                           ANat (upsertedCount result)]])
                end
            end).
  { rewrite (attempt_body_results _ _ _ _ _ _ Hm), Hf.
    destruct valid as [|item valid']; [reflexivity|]. now rewrite Hmap. }
  split; [|split].
  - intros Hne Hok.
    assert (Hb : exists w', attempt_body chain k n e w
                 = (Val (Return (Applied (snd (bulkWrite ops (tps w))))), w')
                 /\ tps w' = fst (bulkWrite ops (tps w))
                 /\ writes w' = S (writes w)).
    { rewrite Hbody. destruct valid; [congruence|].
      unfold TPS_bulkWrite. rewrite Hwrites, Hok, Htps.
      destruct (bulkWrite ops (tps w)). eexists.
      split; [reflexivity|]. split; reflexivity. }
    destruct Hb as (w' & Hb & Hstore & Hwr).
    destruct (body_grows _ _ _ _ _ _ _ Hb) as (evs & Hg & Hq & Hs).
    exists w', evs. rewrite attempts_unfold, turn_unfold, Hb.
    repeat split; try apply Hg; auto using quiet_pauses.
  - intros Hne Hko. rewrite Hbody. destruct valid; [congruence|].
    unfold TPS_bulkWrite. rewrite Hwrites.
    destruct (db_write e (writes w)); [congruence | eauto].
  - intros ->.
    assert (Hb : exists w', attempt_body chain k n e w
                 = (Val (Return NoValidData), w')
                 /\ tps w' = tps w /\ writes w' = writes w).
    { rewrite Hbody. eauto. }
    destruct Hb as (w' & Hb & Hstore & Hwr).
    destruct (body_grows _ _ _ _ _ _ _ Hb) as (evs & Hg & Hq & Hs).
    exists w', evs. rewrite attempts_unfold, turn_unfold, Hb.
    repeat split; try apply Hg; auto using quiet_pauses.
Qed.

(** A provider with one good point and a database that takes the
    write. *)
Definition provider_good : env :=
mkEnv (fun _ _ => Resolved (Results [Some (good_point sample_now)]))
      (fun _ => WriteOk) (Some "secret").

Lemma valid_points_are_applied_witness :
  let results := [Some (good_point sample_now)] in
  let ops := map (op_of "43114" (clock fresh_world)) (the_points results) in
  (results <> [] -> db_write provider_good (writes fresh_world) = WriteOk ->
   exists w' evs,
     attempts "43114" 3 (S 2) 1 provider_good fresh_world
     = (Val (Applied (snd (bulkWrite ops (tps fresh_world)))), w')
     /\ tps w' = fst (bulkWrite ops (tps fresh_world))
     /\ writes w' = S (writes fresh_world)
     /\ grows fresh_world evs w' /\ sent evs = 1%nat /\ pauses evs = [])
  /\ (results <> [] -> db_write provider_good (writes fresh_world) <> WriteOk ->
      exists w',
        attempt_body "43114" 1 3 provider_good fresh_world
        = (Exc MongoError, w'))
  /\ (results = [] ->
      exists w' evs,
        attempts "43114" 3 (S 2) 1 provider_good fresh_world
        = (Val NoValidData, w')
        /\ tps w' = tps fresh_world /\ writes w' = writes fresh_world
        /\ grows fresh_world evs w' /\ sent evs = 1%nat /\ pauses evs = []).
Proof.
  apply (valid_points_are_applied "43114" 3 2 1 provider_good fresh_world
           [Some (good_point sample_now)] [Some (good_point sample_now)]
           (validating "43114" 1 3 [Some (good_point sample_now)] fresh_world)).
  - reflexivity.
  - reflexivity.
Defined.

(* ===================================================================== *)
(** * The validator on its inputs *)
(* ===================================================================== *)

(** Whenever the validator returns, what it returns is its input with
    some points left out, in the original order: exactly the points
    whose timestamp and value read as numbers and whose timestamp lies in
    the last thirty days, bounds included. *)
Lemma keeps_spec now p :
  keeps now p = true
  <-> isNaN (Number (item_timestamp p)) = false
      /\ isNaN (parseFloat (item_value p)) = false
      /\ within (now - thirtyDays) now (Number (item_timestamp p)).
Proof.
  unfold keeps. rewrite <- num_le_within.
  rewrite <- !andb_assoc, !andb_true_iff, !negb_true_iff.
  tauto.
Qed.

Lemma validator_when_it_returns chain now items e w valid w' :
  filterM (isValidItem chain (now - 30 * 24 * 60 * 60) now) items e w
  = (Val valid, w') ->
  kept_in_order valid items
  /\ forall item,
       In item valid
       <-> In item items
           /\ exists p, item = Some p
                /\ isNaN (Number (item_timestamp p)) = false
                /\ isNaN (parseFloat (item_value p)) = false
                /\ within (now - thirtyDays) now (Number (item_timestamp p)).
Proof.
  intros H. destruct (filter_returns chain now items e w valid w' H) as [-> _].
  split; [apply kept_in_order_filter|].
  intros item. rewrite filter_In. apply and_iff_compat_l.
  destruct item as [p|]; cbn [keeps_item].
  - rewrite keeps_spec. split.
    + intros Hp. exists p. tauto.
    + intros (p' & Hp & Hrest). inversion Hp; subst p'. exact Hrest.
  - split; [discriminate|]. intros (p & Hp & _). discriminate.
Qed.

Lemma Qle_bool_inject (a b : Z) :
  Qle_bool (inject_Z a) (inject_Z b) = (a <=? b).
Proof.
  unfold Qle_bool. simpl. now rewrite !Z.mul_1_r.
Qed.

(** Dates of whole and of fractional seconds within the calendar. *)
Lemma new_Date_valid (q : Q) :
  (- inject_Z maxTime <= q * 1000)%Q -> (q * 1000 <= inject_Z maxTime)%Q ->
  new_Date (num_scale (Fin q) 1000) = Some (truncate (q * 1000)).
Proof.
  intros Hlo Hhi. unfold new_Date, num_scale.
  assert (Qle_bool (Qabs (q * 1000)) (inject_Z maxTime) = true) as ->;
    [|reflexivity].
  apply Qle_bool_iff, Qabs_Qle_condition. now split.
Qed.

Lemma new_Date_seconds (s : Z) :
  -8640000000000 <= s <= 8640000000000 ->
  exists t, new_Date (num_scale (of_Z s) 1000) = Some t.
Proof.
  intros Hs. eexists. apply new_Date_valid.
  - change 1000%Q with (inject_Z 1000).
    rewrite <- inject_Z_mult, <- inject_Z_opp, <- Zle_Qle. unfold maxTime. lia.
  - change 1000%Q with (inject_Z 1000).
    rewrite <- inject_Z_mult, <- Zle_Qle. unfold maxTime. lia.
Qed.

Lemma keeps_good_point now : keeps now (good_point now) = true.
Proof.
  apply keeps_spec. repeat split; try reflexivity; simpl;
    rewrite <- Zle_Qle; unfold thirtyDays; lia.
Qed.

Lemma keeps_old_point now : keeps now (old_point now) = false.
Proof.
  apply not_true_is_false. rewrite keeps_spec. intros (_ & _ & H & _).
  simpl in H. rewrite <- Zle_Qle in H. unfold thirtyDays in H. lia.
Qed.

(** The scenario of the three points, at any time of the calendar: the
    first point alone is kept, and it is stored with the timestamp
    [now - 10] and the value 3.5. *)
Lemma validator_scenario chain now e w :
  0 <= now <= 8640000000000 ->
  exists w',
    filterM (isValidItem chain (now - 30 * 24 * 60 * 60) now)
            [Some (good_point now); Some (old_point now); Some bad_point] e w
    = (Val [Some (good_point now)], w')
    /\ forall d, op_of chain d (good_point now)
                 = UpdateOne chain (of_Z (now - 10)) (Fin (7 # 2)) d true.
Proof.
  intros Hnow.
  assert (Hret : exists valid w',
    filterM (isValidItem chain (now - 30 * 24 * 60 * 60) now)
            [Some (good_point now); Some (old_point now); Some bad_point] e w
    = (Val valid, w')).
  { apply filter_returns_iff. repeat constructor.
    - exists (good_point now). split; [reflexivity|].
      unfold off_calendar. rewrite keeps_good_point.
      now rewrite !andb_false_r.
    - exists (old_point now). split; [reflexivity|].
      unfold off_calendar.
      destruct (new_Date_seconds (now - 40 * 86400) ltac:(lia)) as (t & Ht).
      unfold old_point at 4. cbn [item_timestamp Number]. rewrite Ht.
      now rewrite andb_false_r.
    - exists bad_point. split; reflexivity. }
  destruct Hret as (valid & w' & Hret). exists w'.
  destruct (filter_returns chain now _ e w valid w' Hret) as [Hv _].
  split; [|reflexivity].
  rewrite Hret, Hv. f_equal. f_equal. cbn [filter keeps_item].
  rewrite keeps_good_point, keeps_old_point. reflexivity.
Qed.

(** C1.  The validator does not return on every list of points: on a
    numeric point outside the window whose timestamp is no date (here
    10^13 seconds), the line that logs the rejection throws a RangeError
    out of the filter, and the good point that came with it is lost.  The
    update of the chain then fails on all its attempts and stores
    nothing. *)
Theorem validator_throws_off_the_calendar :
  (forall e w,
     filterM (isValidItem "43114" (sample_now - 30 * 24 * 60 * 60) sample_now)
             [Some (good_point sample_now); Some far_point] e w
     = (Exc RangeError, w))
  /\ exists w',
       updateTpsData "43114" 3 provider_far fresh_world
       = (Val AllAttemptsFailed, w')
       /\ tps w' = [] /\ requests w' = 3%nat /\ writes w' = 0%nat.
Proof.
  split.
  - intros e w. destruct w. reflexivity.
  - eexists. split; [vm_compute; reflexivity|]. repeat split.
Qed.

(* ===================================================================== *)
(** * The single-chain refresh route *)
(* ===================================================================== *)

Import UpdateRoutes.

Lemma getLatestTps_returns chain e w :
  exists latest w', getLatestTps chain e w = (Val latest, w').
Proof.
  unfold getLatestTps, try_catch, bind at 1, TPS_read at 1.
  destruct (findLatest chain (tps w)) as [r|]; [unfold ret; eauto|].
  unfold bind at 1, log, emit. unfold bind at 1.
  destruct (attempts_return chain 3 e 3 1
              (mkWorld (tps w) (chains w) (clock w) (requests w) (writes w)
                 (trace w ++ [Log info "No TPS data found, fetching from API..."
                                [AStr chain]])))
    as (x & w1 & Hrun).
  unfold updateTpsData. rewrite Hrun.
  unfold bind, TPS_read, ret. eauto.
Qed.

(** The handler answers with [success: true] whatever the update did. *)
Lemma updateChainTps_answers_success chain e w :
  exists latest w',
    updateChainTps chain e w = (Val (Updated chain latest), w').
Proof.
  unfold updateChainTps, try_catch, bind at 1.
  destruct (attempts_return chain 3 e 3 1 w) as (x & w1 & Hrun).
  unfold updateTpsData. rewrite Hrun. unfold bind.
  destruct (getLatestTps_returns chain e w1) as (latest & w2 & ->).
  unfold ret. eauto.
Qed.

(** C6.  When the provider rejects every request of a refresh of chain
    43114 and the collection has nothing for it, the three attempts of
    the update fail, the three of the read that follows fail too, and the
    caller of the route receives [{ success: true, chainId, latestTps:
    null }].  No reply of the provider makes the handler answer with a
    failure. *)
Theorem refresh_answers_success_after_failure :
  (exists w',
     post_update_chain_tps (Some "secret") "43114" provider_down fresh_world
     = (Val (Updated "43114" None), w')
     /\ requests w' = 6%nat /\ tps w' = []
     /\ success (Updated "43114" None) = true)
  /\ forall e w chain,
       exists latest w',
         updateChainTps chain e w = (Val (Updated chain latest), w')
         /\ success (Updated chain latest) = true.
Proof.
  split.
  - eexists. split; [vm_compute; reflexivity|]. repeat split.
  - intros e w chain.
    destruct (updateChainTps_answers_success chain e w) as (latest & w2 & H2).
    exists latest, w2. split; [assumption | reflexivity].
Qed.

(* ===================================================================== *)
(** * The collection under upserts *)
(* ===================================================================== *)

(** The number of documents with the key [(c, t)], and the invariant of
    the collection: no key twice. *)
Definition occurrences (c : string) (t : jsnum) (s : collection) : nat :=
List.length (filter (has_key c t) s).

Definition unique_keys (s : collection) : Prop :=
forall c t, (occurrences c t s <= 1)%nat.

(** The document an upsert inserts. *)
Definition inserted (op : write_op) : TpsRecord :=
mkTps (filter_chainId op) (filter_timestamp op) (Num (set_value op))
      (set_lastUpdated op).

Section Upserts.

Lemma num_eqb_refl t : num_eqb t t = true.
Proof. destruct t; simpl; auto. apply Qeq_bool_refl. Qed.

Lemma num_eqb_sym a b : num_eqb a b = num_eqb b a.
Proof.
  destruct a, b; simpl; auto.
  destruct (Qeq_bool q q0) eqn:H1, (Qeq_bool q0 q) eqn:H2; auto.
  - apply Qeq_bool_sym in H1. congruence.
  - apply Qeq_bool_sym in H2. congruence.
Qed.

Lemma num_eqb_trans a b c :
  num_eqb a b = true -> num_eqb b c = true -> num_eqb a c = true.
Proof.
  destruct a, b, c; simpl; try discriminate; auto. apply Qeq_bool_trans.
Qed.


Lemma has_key_inserted op :
  has_key (filter_chainId op) (filter_timestamp op) (inserted op) = true.
Proof.
  unfold has_key, inserted; simpl. now rewrite String.eqb_refl, num_eqb_refl.
Qed.









End Upserts.

(** A collection of two chains. *)
Definition sample_store : collection :=
[mkTps "43114" (of_Z (sample_now - 100)) (Num (Fin (5 # 1))) 0;
 mkTps "8453" (of_Z (sample_now - 100)) (Num (Fin (7 # 1))) 0].

Lemma unique_keys_sample : unique_keys sample_store.
Proof.
  intros c t. unfold occurrences, sample_store. cbn [filter].
  destruct (has_key c t (mkTps "43114" _ _ _)) eqn:H1;
    destruct (has_key c t (mkTps "8453" _ _ _)) eqn:H2;
    cbn [List.length]; try lia.
  unfold has_key in H1, H2. cbn [chainId] in H1, H2.
  apply andb_true_iff in H1, H2. destruct H1 as [H1 _], H2 as [H2 _].
  apply String.eqb_eq in H1, H2. congruence.
Qed.





(* ===================================================================== *)
(** * Computations that only read *)
(* ===================================================================== *)

(** [m] returns a value that satisfies [P] and leaves nothing but lines
    in the trace. *)
Definition yields {A : Type} (m : M A) (e : env) (w : world) (P : A -> Prop)
  : Prop :=
exists a evs, m e w = (Val a, logged w evs) /\ P a.

Lemma yields_ret {A : Type} (a : A) e w (P : A -> Prop) :
  P a -> yields (ret a) e w P.
Proof. intros H. exists a, []. now rewrite logged_nil. Qed.

Lemma yields_bind {A B : Type} (m : M A) (k : A -> M B) e w
  (Q : A -> Prop) (P : B -> Prop) :
  yields m e w Q ->
  (forall a evs, Q a -> yields (k a) e (logged w evs) P) ->
  yields (bind m k) e w P.
Proof.
  intros (a & evs & Hm & Ha) Hk.
  destruct (Hk a evs Ha) as (b & evs' & Hk' & Hb).
  exists b, (evs ++ evs'). rewrite (bind_val _ _ _ _ _ _ Hm), Hk'.
  now rewrite logged_logged.
Qed.

Lemma yields_weaken {A : Type} (m : M A) e w (P Q : A -> Prop) :
  yields m e w P -> (forall a, P a -> Q a) -> yields m e w Q.
Proof. intros (a & evs & Hm & Ha) H. exists a, evs. auto. Qed.

Lemma yields_log lvl msg args e w (P : unit -> Prop) :
  P tt -> yields (log lvl msg args) e w P.
Proof. intros H. exists tt, [Log lvl msg args]. split; [reflexivity | exact H]. Qed.

Lemma yields_now e w : yields Date_now e w (fun t => t = clock w).
Proof. exists (clock w), []. now rewrite logged_nil. Qed.

Lemma yields_chains e w : yields Chain_find e w (fun l => l = chains w).
Proof. exists (chains w), []. now rewrite logged_nil. Qed.

Lemma yields_query {A : Type} (query : collection -> A) e w :
  yields (TPS_read query) e w (fun a => a = query (tps w)).
Proof. exists (query (tps w)), []. now rewrite logged_nil. Qed.

Lemma yields_try {A : Type} (m : M A) handler e w (P : A -> Prop) :
  yields m e w P -> yields (try_catch m handler) e w P.
Proof.
  intros (a & evs & Hm & Ha). exists a, evs. unfold try_catch.
  now rewrite Hm.
Qed.

Lemma yields_mapM {A B : Type} (f : A -> M B) (Q : A -> B -> Prop)
  (l : list A) e w :
  (forall x w0, In x l -> yields (f x) e w0 (Q x)) ->
  yields (mapM f l) e w (Forall2 Q l).
Proof.
  revert w. induction l as [|x l IH]; intros w Hf.
  - apply yields_ret. constructor.
  - cbn [mapM]. eapply yields_bind; [apply Hf; now left|].
    intros y evs Hy. eapply yields_bind.
    + apply IH. intros x' w0 Hx'. apply Hf. now right.
    + intros ys evs' Hys. apply yields_ret. now constructor.
Qed.

(** ** Dates that exist *)

(** A timestamp in seconds that is a date. *)
Definition calendar (t : jsnum) : Prop :=
match t with
| Fin q => (- inject_Z maxTime <= q * 1000)%Q /\ (q * 1000 <= inject_Z maxTime)%Q
| _ => False
end.

(** A world in which the dates the code prints exist: a clock within the
    calendar and after the epoch, and stored timestamps within the
    calendar. *)
Definition sane (w : world) : Prop :=
0 <= clock w <= maxTime
/\ Forall (fun r => calendar (timestamp r)) (tps w).

Lemma yields_iso t e w :
  calendar t -> yields (iso_of_seconds t) e w (fun _ => True).
Proof.
  destruct t as [| | |q]; simpl; try tauto. intros [Hlo Hhi].
  unfold iso_of_seconds, Eff.toISOString.
  rewrite (new_Date_valid q Hlo Hhi). simpl. now apply yields_ret.
Qed.

Lemma calendar_of_Z (s : Z) :
  -8640000000000 <= s <= 8640000000000 -> calendar (of_Z s).
Proof.
  intros Hs. simpl. change 1000%Q with (inject_Z 1000).
  rewrite <- inject_Z_mult, <- inject_Z_opp, <- !Zle_Qle. unfold maxTime. lia.
Qed.

Lemma calendar_within lo hi t :
  -8640000000000 <= lo -> hi <= 8640000000000 ->
  within lo hi t -> calendar t.
Proof.
  intros Hlo Hhi. destruct t as [| | |q]; simpl; try tauto. intros [H1 H2].
  assert (inject_Z (-8640000000000) <= q)%Q.
  { eapply Qle_trans; [|exact H1]. now rewrite <- Zle_Qle. }
  assert (q <= inject_Z 8640000000000)%Q.
  { eapply Qle_trans; [exact H2|]. now rewrite <- Zle_Qle. }
  unfold maxTime. clear H1 H2. unfold inject_Z in *. split; lra.
Qed.

(* ===================================================================== *)
(** * Order on numbers, maxima and latest documents *)
(* ===================================================================== *)

Lemma num_le_trans a b c :
  num_le a b = true -> num_le b c = true -> num_le a c = true.
Proof.
  destruct a, b, c; simpl; try discriminate; auto.
  rewrite !Qle_bool_iff. apply Qle_trans.
Qed.

Lemma num_le_refl a : isNaN a = false -> num_le a a = true.
Proof.
  destruct a; simpl; try discriminate; auto. intros _.
  apply Qle_bool_iff, Qle_refl.
Qed.

Lemma num_le_total a b :
  isNaN a = false -> isNaN b = false ->
  num_le a b = true \/ num_le b a = true.
Proof.
  destruct a, b; simpl; try discriminate; auto. intros _ _.
  rewrite !Qle_bool_iff. destruct (Qlt_le_dec q q0); [left|right]; auto.
  now apply Qlt_le_weak.
Qed.

Lemma num_lt_le a b : num_le a b = true -> num_lt b a = false.
Proof.
  destruct a, b; simpl; try discriminate; auto. now intros ->.
Qed.

Lemma in_range_not_NaN lo hi t : in_range lo hi t = true -> isNaN t = false.
Proof.
  unfold in_range. destruct t; auto. destruct lo; discriminate.
Qed.

Lemma bson_leb_num_le a b :
  isNaN a = false -> isNaN b = false -> bson_leb a b = num_le a b.
Proof. destruct a, b; simpl; try discriminate; reflexivity. Qed.

Lemma bson_leb_total a b : bson_leb a b = true \/ bson_leb b a = true.
Proof.
  destruct a, b; simpl; auto.
  rewrite !Qle_bool_iff. destruct (Qlt_le_dec q q0); [left|right]; auto.
  now apply Qlt_le_weak.
Qed.

Lemma bson_leb_trans a b c :
  bson_leb a b = true -> bson_leb b c = true -> bson_leb a c = true.
Proof.
  destruct a, b, c; simpl; try discriminate; auto.
  rewrite !Qle_bool_iff. apply Qle_trans.
Qed.

(** [latest] picks a document of the list whose timestamp no other
    exceeds. *)
Lemma latest_none l : latest l = None <-> l = [].
Proof.
  destruct l as [|r l]; [tauto|]. simpl.
  destruct (latest l); [destruct (bson_leb _ _)|]; split; discriminate.
Qed.

Lemma latest_some l r :
  latest l = Some r ->
  In r l /\ forall r', In r' l ->
              bson_leb (timestamp r') (timestamp r) = true.
Proof.
  assert (Hrefl : forall a, bson_leb a a = true).
  { intros a. destruct (bson_leb_total a a); assumption. }
  revert r. induction l as [|r0 l IH]; intros r; [discriminate|]. simpl.
  destruct (latest l) as [r1|] eqn:Hl.
  - destruct (IH r1 eq_refl) as [Hin Hmax].
    destruct (bson_leb (timestamp r1) (timestamp r0)) eqn:Hle;
      intros H; inversion H; subst.
    + split; [now left|]. intros r' [Heq|Hr'].
      * subst r'. apply Hrefl.
      * eapply bson_leb_trans; [apply Hmax, Hr' | exact Hle].
    + split; [now right|]. intros r' [Heq|Hr']; [subst r'|auto].
      destruct (bson_leb_total (timestamp r) (timestamp r0)); congruence.
  - apply latest_none in Hl. subst l. intros H; inversion H; subst.
    split; [now left|]. intros r' [Heq|[]]. subst r'. apply Hrefl.
Qed.

(** The query of the snapshot: the document of the chain, within the
    range, that no other such document exceeds; none when the chain has
    no document within the range. *)
Lemma findLatestWithin_some c lo hi s r :
  findLatestWithin c lo hi s = Some r ->
  In r s /\ chainId r = c /\ in_range lo hi (timestamp r) = true
  /\ forall r', In r' s -> chainId r' = c ->
       in_range lo hi (timestamp r') = true ->
       num_le (timestamp r') (timestamp r) = true.
Proof.
  unfold findLatestWithin. intros H. apply latest_some in H.
  destruct H as [Hin Hmax]. apply filter_In in Hin.
  destruct Hin as [Hin Hr]. apply andb_true_iff in Hr.
  destruct Hr as [Hc Hr]. apply String.eqb_eq in Hc.
  repeat split; auto. intros r' Hin' Hc' Hr'.
  rewrite <- bson_leb_num_le; eauto using in_range_not_NaN.
  apply Hmax. apply filter_In. split; [assumption|].
  rewrite Hr', andb_true_r. now apply String.eqb_eq.
Qed.

Lemma findLatestWithin_none c lo hi s :
  findLatestWithin c lo hi s = None <->
  forall r, In r s -> chainId r = c -> in_range lo hi (timestamp r) = false.
Proof.
  unfold findLatestWithin. rewrite latest_none. split.
  - intros H r Hin Hc.
    destruct (in_range lo hi (timestamp r)) eqn:Hr; [|reflexivity].
    assert (In r []) as [].
    rewrite <- H. apply filter_In. split; [assumption|].
    rewrite Hr, andb_true_r. now apply String.eqb_eq.
  - intros H. destruct (filter _ s) as [|r l] eqn:Hf; [reflexivity|].
    assert (Hin : In r (filter (fun r0 => String.eqb (chainId r0) c
                          && in_range lo hi (timestamp r0)) s))
      by (rewrite Hf; now left).
    apply filter_In in Hin. destruct Hin as [Hin Hr].
    apply andb_true_iff in Hr. destruct Hr as [Hc Hr].
    apply String.eqb_eq in Hc. rewrite (H r Hin Hc) in Hr. discriminate.
Qed.

(** Maxima and minima of finite numbers are taken among them. *)
Lemma max_fold l a :
  (a = NegInf \/ isFinite a = true) ->
  Forall (fun t => isFinite t = true) l ->
  let m := fold_left max2 l a in
  (m = a \/ In m l) /\ num_le a m = true
  /\ forall t, In t l -> num_le t m = true.
Proof.
  revert a. induction l as [|t l IH]; intros a Ha Hl; simpl.
  - split; [now left|]. split; [|intros t []].
    destruct Ha as [->|Ha]; [reflexivity|]. apply num_le_refl.
    destruct a; simpl in *; congruence.
  - inversion Hl as [|? ? Ht Hl']; subst.
    assert (Hm : max2 a t = a \/ max2 a t = t).
    { unfold max2. destruct a, t; auto; destruct (num_le _ _); auto. }
    assert (Hfin : isFinite (max2 a t) = true).
    { clear Hm. unfold max2. destruct Ha as [->|Ha].
      - destruct t; simpl in *; congruence.
      - destruct a, t; simpl in *; try congruence.
        destruct (Qle_bool q q0); reflexivity. }
    assert (Hge : num_le a (max2 a t) = true /\ num_le t (max2 a t) = true).
    { destruct Ha as [->| Ha].
      - destruct t; simpl in Ht; try congruence. simpl. split; [reflexivity|].
        apply Qle_bool_iff, Qle_refl.
      - destruct a, t; simpl in Ha, Ht; try congruence. unfold max2.
        destruct (num_le (Fin q) (Fin q0)) eqn:Hle; simpl in *.
        + split; [assumption | apply Qle_bool_iff, Qle_refl].
        + split; [apply Qle_bool_iff, Qle_refl|].
          destruct (num_le_total (Fin q) (Fin q0)) as [H|H]; auto.
          simpl in H. congruence. }
    destruct (IH (max2 a t) (or_intror Hfin) Hl') as (Hin & Hle & Hall).
    split; [|split].
    + destruct Hin as [Hin|Hin]; [|auto]. rewrite Hin.
      destruct Hm as [Hm|Hm]; rewrite Hm; auto.
    + eapply num_le_trans; [apply Hge | exact Hle].
    + intros t' [<-|Ht']; [|auto].
      eapply num_le_trans; [apply Hge | exact Hle].
Qed.

Lemma max_list_spec l :
  l <> [] -> Forall (fun t => isFinite t = true) l ->
  In (max_list l) l /\ forall t, In t l -> num_le t (max_list l) = true.
Proof.
  intros Hne Hl. unfold max_list.
  destruct (max_fold l NegInf (or_introl eq_refl) Hl) as (Hin & _ & Hall).
  split; [|assumption]. destruct Hin as [Hin|Hin]; [|assumption].
  destruct l as [|t l]; [congruence|].
  specialize (Hall t (or_introl eq_refl)). simpl in Hin, Hall. rewrite Hin in Hall.
  inversion Hl; subst. destruct t; discriminate.
Qed.

Lemma min_fold l a :
  Forall (fun t => isFinite t = true) l ->
  let m := fold_left min2 l a in m = a \/ In m l.
Proof.
  revert a. induction l as [|t l IH]; intros a Hl; simpl; [now left|].
  inversion Hl as [|? ? Ht Hl']; subst.
  destruct (IH (min2 a t) Hl') as [H|H]; [|auto].
  rewrite H. unfold min2.
  destruct a, t; try discriminate; auto; destruct (num_le _ _); auto.
Qed.

Lemma min_list_in l :
  l <> [] -> Forall (fun t => isFinite t = true) l -> In (min_list l) l.
Proof.
  intros Hne Hl. unfold min_list. destruct l as [|t l]; [congruence|].
  cbn [fold_left]. inversion Hl as [|? ? Ht H2]; subst.
  assert (min2 PosInf t = t) as ->
    by (destruct t; simpl in Ht; try congruence; reflexivity).
  destruct (min_fold l t H2) as [H|H]; [left; now rewrite H | now right].
Qed.

(* ===================================================================== *)
(** * The network snapshot *)
(* ===================================================================== *)

(** The documents the snapshot adds up: for each chain, in the order of
    the chains, its latest document of the last day if it has one. *)
Definition current (now : Z) (chs : list string) (s : collection)
  : list TpsRecord :=
documents (map (fun c => findLatestWithin c (of_Z (now - 24 * 60 * 60))
                                          (of_Z now) s) chs).

Definition total_of (vr : list TpsRecord) : jsnum :=
fold_left (fun sum result => num_add sum (or_zero (value result))) vr (of_Z 0).

Definition age_of (now : Z) (latest : jsnum) : jsnum :=
max2 (of_Z 0) (floor (num_div (num_sub (of_Z now) latest) 60)).

Definition is_some {A : Type} (o : option A) : bool :=
match o with Some _ => true | None => false end.

Lemma documents_filter l : documents (filter is_some l) = documents l.
Proof.
  induction l as [|[r|] l IH]; simpl; congruence.
Qed.

Lemma documents_app a b : documents (a ++ b) = documents a ++ documents b.
Proof.
  induction a as [|[r|] a IH]; simpl; congruence.
Qed.

Lemma in_documents r l : In r (documents l) <-> In (Some r) l.
Proof.
  induction l as [|[r0|] l IH]; simpl; [tauto| |].
  - rewrite IH. split; intros [H|H]; auto; left; congruence.
  - rewrite IH. split; [auto|]. intros [H|H]; [discriminate | auto].
Qed.

(** Every document of [current] belongs to the collection and to a known
    chain, and lies within the last day. *)
Lemma current_in now chs s r :
  In r (current now chs s) ->
  In r s /\ In (chainId r) chs
  /\ in_range (of_Z (now - 24 * 60 * 60)) (of_Z now) (timestamp r) = true.
Proof.
  unfold current. rewrite in_documents, in_map_iff.
  intros (c & Hc & Hin).
  apply findLatestWithin_some in Hc. destruct Hc as (H1 & H2 & H3 & _).
  subst c. auto.
Qed.

Lemma calendar_scaled t :
  calendar t ->
  isFinite (num_scale t 1000) = true
  /\ exists tm, new_Date (num_scale t 1000) = Some tm.
Proof.
  destruct t as [| | |q]; simpl; try tauto. intros [Hlo Hhi].
  split; [reflexivity|]. eexists. apply (new_Date_valid q Hlo Hhi).
Qed.

Lemma yields_iso_if_any l x e w :
  (l <> [] -> exists tm, new_Date x = Some tm) ->
  yields (iso_if_any l x) e w (fun _ => True).
Proof.
  intros H. unfold iso_if_any. destruct l as [|t l]; [now apply yields_ret|].
  destruct H as (tm & Htm); [discriminate|].
  eapply yields_bind.
  - unfold Eff.toISOString, Js.toISOString. rewrite Htm.
    apply (yields_ret _ _ _ (fun _ => True)). exact I.
  - intros s evs _. now apply yields_ret.
Qed.

Lemma yields_new_Date_iso e w :
  0 <= clock w <= maxTime -> yields new_Date_iso e w (fun _ => True).
Proof.
  intros Hc. unfold new_Date_iso.
  eapply yields_bind; [apply yields_now|]. intros t evs ->. cbn [clock logged].
  unfold Eff.toISOString, Js.toISOString, new_Date, of_Z.
  assert (Qle_bool (Qabs (inject_Z (clock w))) (inject_Z maxTime) = true) as ->.
  { apply Qle_bool_iff, Qabs_Qle_condition.
    rewrite <- inject_Z_opp, <- !Zle_Qle. lia. }
  now apply yields_ret.
Qed.

(** The results of the queries all lie in the range: the filter keeps
    them all and warns of nothing. *)
Lemma filter_results lo hi results e w :
  (forall r, In (Some r) results ->
     in_range (of_Z lo) (of_Z hi) (timestamp r) = true) ->
  filterM (isValidResult lo hi) results e w
  = (Val (filter is_some results), w).
Proof.
  revert w. induction results as [|[r|] results IH]; intros w H.
  - reflexivity.
  - cbn [filterM filter is_some]. unfold bind at 1.
    unfold isValidResult, num_ge.
    pose proof (H r (or_introl eq_refl)) as Hr. unfold in_range in Hr.
    rewrite Hr. cbn [negb]. unfold bind at 1, ret at 1 2.
    unfold bind at 1. rewrite IH by (intros; apply H; now right).
    reflexivity.
  - cbn [filterM filter is_some]. unfold bind at 1, isValidResult, ret at 1.
    unfold bind at 1. rewrite IH by (intros; apply H; now right).
    reflexivity.
Qed.

Lemma mapM_queries {A : Type} (q : string -> collection -> A) chs e w :
  mapM (fun c => TPS_read (q c)) chs e w
  = (Val (map (fun c => q c (tps w)) chs), w).
Proof.
  induction chs as [|c chs IH]; [reflexivity|].
  cbn [mapM map]. unfold bind at 1, TPS_read at 1. unfold bind at 1.
  now rewrite IH.
Qed.

Lemma yields_run {A : Type} (m : M A) e w a (P : A -> Prop) :
  m e w = (Val a, w) -> P a -> yields m e w P.
Proof. intros H Ha. exists a, []. now rewrite logged_nil. Qed.

Lemma yields_exactly {A : Type} (m : M A) e w a :
  m e w = (Val a, w) -> yields m e w (fun x => x = a).
Proof. intros H. now apply (yields_run m e w a). Qed.

Lemma yields_log_any lvl msg args e w :
  yields (log lvl msg args) e w (fun _ => True).
Proof. now apply yields_log. Qed.

(** What the snapshot is made of. *)
Definition snapshot_of (now : Z) (vr : list TpsRecord) (snap : Snapshot.t)
  : Prop :=
match vr with
| [] =>
    Snapshot.totalTps snap = of_Z 0
    /\ Snapshot.chainCount snap = 0%nat
    /\ Snapshot.timestamp snap = of_Z now
    /\ Snapshot.dataAge snap = of_Z 0
| _ =>
    Snapshot.totalTps snap = toFixed2 (total_of vr)
    /\ Snapshot.chainCount snap = List.length vr
    /\ Snapshot.timestamp snap = max_list (map timestamp vr)
    /\ Snapshot.dataAge snap = age_of now (max_list (map timestamp vr))
end.

(** A world in which the dates the snapshot prints exist: a clock within
    the calendar and after the epoch, and timestamps within the calendar
    on the documents it reads for its log, those from a day ago on. *)
Definition dated (w : world) : Prop :=
0 <= clock w <= maxTime
/\ Forall (fun r => calendar (timestamp r))
          (findSince (of_Z (clock w / 1000 - 24 * 60 * 60)) (tps w)).

Lemma sane_dated w : sane w -> dated w.
Proof.
  intros [Hclock Hstore]. split; [exact Hclock|].
  apply Forall_forall. intros r Hr. apply filter_In in Hr.
  rewrite Forall_forall in Hstore. apply Hstore, Hr.
Qed.

(** In such a world [getNetworkTps] returns, and what it returns is made
    of the latest documents of the last day. *)
Lemma getNetworkTps_computes_dated e w :
  dated w ->
  yields getNetworkTps e w
         (snapshot_of (clock w / 1000)
                      (current (clock w / 1000) (chains w) (tps w))).
Proof.
  intros [Hclock Hall].
  assert (Hnow : 0 <= clock w / 1000 <= 8640000000000).
  { unfold maxTime in Hclock.
    split; [apply Z.div_pos; lia | apply Z.div_le_upper_bound; lia]. }
  set (now := clock w / 1000) in *.
  assert (Hday : forall t, in_range (of_Z (now - 24 * 60 * 60)) (of_Z now) t = true ->
                           calendar t).
  { intros t Ht. apply (calendar_within (now - 24 * 60 * 60) now); try lia.
    apply num_le_within. exact Ht. }
  unfold getNetworkTps. apply yields_try.
  eapply yields_bind; [apply yields_chains|]. intros chs evs ->.
  eapply yields_bind; [apply yields_now|]. intros t0 evs0 ->.
  cbn [clock chains tps logged]. fold now.
  eapply yields_bind; [apply yields_iso, calendar_of_Z; lia|]. intros isoNow evs1 _.
  eapply yields_bind; [apply yields_iso, calendar_of_Z; lia|]. intros isoAgo evs2 _.
  eapply yields_bind; [apply yields_log_any|]. intros [] evs3 _.
  eapply yields_bind; [apply yields_query|]. intros all evs4 ->.
  cbn [clock chains tps logged].
  set (all := findSince (of_Z (now - 24 * 60 * 60)) (tps w)) in *.
  set (millis := map (fun r => num_scale (timestamp r) 1000) all).
  assert (Hmillis : Forall (fun x => isFinite x = true
                              /\ exists tm, new_Date x = Some tm) millis).
  { apply Forall_forall. intros x Hx. apply in_map_iff in Hx.
    destruct Hx as (r & <- & Hr). apply calendar_scaled.
    rewrite Forall_forall in Hall. now apply Hall. }
  assert (Hfin : Forall (fun x => isFinite x = true) millis).
  { eapply Forall_impl; [|exact Hmillis]. intros x H; apply H. }
  eapply yields_bind.
  { apply yields_iso_if_any. intros Hne.
    pose proof (min_list_in millis Hne Hfin) as Hin.
    rewrite Forall_forall in Hmillis. apply (Hmillis _ Hin). }
  intros oldest evs5 _.
  eapply yields_bind.
  { apply yields_iso_if_any. intros Hne.
    destruct (max_list_spec millis Hne Hfin) as [Hin _].
    rewrite Forall_forall in Hmillis. apply (Hmillis _ Hin). }
  intros newest evs6 _.
  eapply yields_bind; [apply yields_log_any|]. intros [] evs7 _.
  eapply yields_bind.
  { apply yields_exactly, mapM_queries. }
  intros tpsResults evs8 ->. cbn [clock chains tps logged].
  set (tpsResults := map _ (chains w)).
  eapply yields_bind.
  { apply yields_exactly, filter_results.
    intros r Hr. apply in_map_iff in Hr. destruct Hr as (c & Hc & _).
    apply findLatestWithin_some in Hc. apply Hc. }
  intros kept evs9 ->. rewrite documents_filter.
  change (documents tpsResults) with (current now (chains w) (tps w)).
  set (vr := current now (chains w) (tps w)).
  assert (Hvr : forall r, In r vr ->
            in_range (of_Z (now - 24 * 60 * 60)) (of_Z now) (timestamp r) = true).
  { intros r Hr. apply current_in in Hr. apply Hr. }
  eapply yields_bind.
  { apply (yields_mapM _ (fun _ _ => True)). intros r w0 Hr.
    apply yields_iso, Hday, Hvr, Hr. }
  intros details evs10 _.
  eapply yields_bind; [apply yields_log_any|]. intros [] evs11 _.
  assert (Hfuture : filter (fun t => num_gt t (of_Z now)) (map timestamp vr) = []).
  { clear - Hvr. induction vr as [|r vr IH]; [reflexivity|].
    cbn [map filter].
    pose proof (Hvr r (or_introl eq_refl)) as Hr. unfold in_range in Hr.
    apply andb_true_iff in Hr. destruct Hr as [_ Hr].
    unfold num_gt at 1. rewrite (num_lt_le _ _ Hr). apply IH.
    intros r' Hr'. apply Hvr. now right. }
  rewrite Hfuture.
  eapply yields_bind; [apply (yields_ret _ _ _ (fun _ => True)), I|]. intros [] evs12 _.
  assert (Hts : Forall (fun t => isFinite t = true) (map timestamp vr)).
  { apply Forall_forall. intros t Ht. apply in_map_iff in Ht.
    destruct Ht as (r & <- & Hr). specialize (Hday _ (Hvr r Hr)).
    destruct (timestamp r); simpl in Hday; tauto || reflexivity. }
  assert (Hcal : forall t, In t (map timestamp vr) ->
            exists tm, new_Date (num_scale t 1000) = Some tm).
  { intros t Ht. apply in_map_iff in Ht. destruct Ht as (r & <- & Hr).
    apply calendar_scaled, Hday, Hvr, Hr. }
  eapply yields_bind.
  { apply yields_iso_if_any. intros Hne. apply Hcal, min_list_in; assumption. }
  intros oldestValid evs13 _.
  eapply yields_bind.
  { apply yields_iso_if_any. intros Hne. apply Hcal.
    now apply max_list_spec. }
  intros newestValid evs14 _.
  eapply yields_bind; [apply yields_log_any|]. intros [] evs15 _.
  unfold snapshot_of. destruct vr as [|r0 vr0] eqn:Hvr0.
  - eapply yields_bind; [apply yields_new_Date_iso; exact Hclock|].
    intros updatedAt evs16 _. apply yields_ret. repeat split.
  - set (vr1 := r0 :: vr0) in *.
    eapply yields_bind.
    { destruct (num_gt _ _);
        [apply yields_log_any | apply (yields_ret _ _ _ (fun _ => True)), I]. }
    intros [] evs16 _.
    eapply yields_bind; [apply yields_new_Date_iso; exact Hclock|].
    intros updatedAt evs17 _.
    eapply yields_bind.
    { apply yields_iso. destruct (max_list_spec (map timestamp vr1)) as [Hin _];
        [discriminate | exact Hts |].
      apply in_map_iff in Hin. destruct Hin as (r & <- & Hr).
      apply Hday, Hvr, Hr. }
    intros lastUpdate evs18 _. apply yields_ret. repeat split.
Qed.

(** In a sane world [getNetworkTps] returns, and what it returns is made
    of the latest documents of the last day. *)
Lemma getNetworkTps_computes e w :
  sane w ->
  yields getNetworkTps e w
         (snapshot_of (clock w / 1000)
                      (current (clock w / 1000) (chains w) (tps w))).
Proof. intros Hsane. now apply getNetworkTps_computes_dated, sane_dated. Qed.

(** A document of the last day, a chain that has one, and the latest of
    them. *)
Definition in_day (now : Z) (r : TpsRecord) : Prop :=
within (now - oneDay) now (timestamp r).

Definition has_data (s : collection) (now : Z) (c : string) : bool :=
existsb (fun r => String.eqb (chainId r) c
                  && in_range (of_Z (now - oneDay)) (of_Z now) (timestamp r)) s.

Definition latest_of (s : collection) (now : Z) (c : string) (r : TpsRecord)
  : Prop :=
In r s /\ chainId r = c /\ in_day now r
/\ forall r', In r' s -> chainId r' = c -> in_day now r' ->
     num_le (timestamp r') (timestamp r) = true.

Lemma in_range_in_day now r :
  in_range (of_Z (now - oneDay)) (of_Z now) (timestamp r) = true
  <-> in_day now r.
Proof. apply num_le_within. Qed.

Lemma has_data_spec s now c :
  has_data s now c = true
  <-> exists r, In r s /\ chainId r = c /\ in_day now r.
Proof.
  unfold has_data. rewrite existsb_exists. split.
  - intros (r & Hin & H). apply andb_true_iff in H. destruct H as [Hc Hr].
    exists r. rewrite <- in_range_in_day. rewrite String.eqb_eq in Hc. auto.
  - intros (r & Hin & Hc & Hr). exists r. split; [assumption|].
    rewrite <- in_range_in_day in Hr. rewrite Hr, andb_true_r.
    now apply String.eqb_eq.
Qed.

(** [current] has one document for each chain that has data, in the
    order of the chains: the latest of the chain. *)
Lemma current_picks now chs s :
  Forall2 (latest_of s now) (filter (has_data s now) chs) (current now chs s).
Proof.
  unfold current. change (24 * 60 * 60) with oneDay.
  induction chs as [|c chs IH]; [constructor|]. cbn [map filter documents].
  destruct (findLatestWithin c _ _ s) as [r|] eqn:Hq.
  - apply findLatestWithin_some in Hq. destruct Hq as (Hin & Hc & Hr & Hmax).
    assert (has_data s now c = true) as ->.
    { apply has_data_spec. exists r. rewrite <- in_range_in_day. auto. }
    constructor; [|exact IH].
    repeat split; auto; [now apply in_range_in_day|].
    intros r' Hin' Hc' Hr'. apply Hmax; auto. now apply in_range_in_day.
  - assert (has_data s now c = false) as ->; [|exact IH].
    apply not_true_is_false. rewrite has_data_spec. intros (r & Hin & Hc & Hr).
    rewrite findLatestWithin_none in Hq. rewrite <- in_range_in_day in Hr.
    rewrite (Hq r Hin Hc) in Hr. discriminate.
Qed.

(** ** Rounding to two decimals *)

Lemma round_half_away_near (q : Q) :
  (Qabs (inject_Z (round_half_away q) - q) <= 1 # 2)%Q.
Proof.
  unfold round_half_away. apply Qabs_Qle_condition.
  destruct (Qle_bool 0 q).
  - pose proof (Qfloor_le (q + (1 # 2))) as H1.
    pose proof (Qlt_floor (q + (1 # 2))) as H2.
    set (f := Qfloor (q + (1 # 2))) in *.
    rewrite inject_Z_plus in H2. change (inject_Z 1) with 1%Q in H2.
    split; lra.
  - pose proof (Qfloor_le (- q + (1 # 2))) as H1.
    pose proof (Qlt_floor (- q + (1 # 2))) as H2.
    set (f := Qfloor (- q + (1 # 2))) in *.
    rewrite inject_Z_opp. rewrite inject_Z_plus in H2.
    change (inject_Z 1) with 1%Q in H2. split; lra.
Qed.


(** A number rounded to two decimals: a whole number of hundredths, at
    most half a hundredth away. *)
Definition two_decimals_of (x y : Q) : Prop :=
(Qabs (y - x) <= 1 # 200)%Q /\ exists z : Z, (y == inject_Z z / 100)%Q.

Lemma toFixed2_rounds x :
  exists y, toFixed2 (Fin x) = Fin y /\ two_decimals_of x y.
Proof.
  eexists. split; [reflexivity|]. split.
  - rewrite Qred_correct. pose proof (round_half_away_near (x * 100)) as H.
    apply Qabs_Qle_condition in H. apply Qabs_Qle_condition.
    set (z := inject_Z (round_half_away (x * 100))) in *.
    change (z / 100)%Q with (z * (1 # 100))%Q. split; lra.
  - exists (round_half_away (x * 100)). apply Qred_correct.
Qed.


Lemma age_of_fin now q :
  age_of now (Fin q) = of_Z (Z.max 0 (Qfloor ((inject_Z now - q) / 60))).
Proof.
  unfold age_of, num_sub, num_add, num_neg, num_div, floor, max2, num_le, of_Z.
  change (inject_Z now + - q)%Q with (inject_Z now - q)%Q.
  set (f := Qfloor ((inject_Z now - q) / 60)).
  rewrite Qle_bool_inject.
  destruct (Z.leb_spec 0 f); do 2 f_equal; lia.
Qed.

Lemma Forall2_right {A B : Type} (R : A -> B -> Prop) l1 l2 y :
  Forall2 R l1 l2 -> In y l2 -> exists x, In x l1 /\ R x y.
Proof.
  induction 1 as [|x y' l1 l2 Hxy _ IH]; [intros []|].
  intros [<-|Hin]; [exists x; simpl; auto|].
  destruct (IH Hin) as (x' & Hx' & HR). exists x'. simpl. auto.
Qed.

Lemma in_day_finite now r : in_day now r -> isFinite (timestamp r) = true.
Proof. unfold in_day. destruct (timestamp r); simpl; tauto || reflexivity. Qed.

(** A world with the two chains of [sample_store], read at
    [sample_now]. *)
Definition sample_world : world :=
mkWorld sample_store ["43114"; "8453"] (sample_now * 1000) 0 0 [].

Lemma sane_sample_world : sane sample_world.
Proof.
  split; [unfold maxTime; simpl; lia|].
  repeat constructor; unfold Qle; simpl; lia.
Qed.

(** When the documents the snapshot reads for its log have timestamps
    that are dates, it returns.  It counts the chains that have a
    document with a timestamp in [[now - 86400, now]], a chain whose
    documents are all later or older being left out of count and sum.
    With no such chain it is the zeroed snapshot: total 0, count 0,
    timestamp [now], age 0.  Otherwise its total is the sum, rounded to
    two decimals, of the values ([0] for a falsy one) of the latest such
    document of each of these chains, the sum and the rounding being
    those of exact arithmetic; its timestamp is the greatest of their
    timestamps, and its age is [floor((now - timestamp) / 60)], at
    least 0. *)
Lemma snapshot_of_dated_documents (e : env) (w : world) :
  dated w ->
  let now := clock w / 1000 in
  let valid := filter (has_data (tps w) now) (chains w) in
  exists snap w' picks,
    getNetworkTps e w = (Val snap, w')
    /\ Forall2 (latest_of (tps w) now) valid picks
    /\ Snapshot.chainCount snap = List.length valid
    /\ (forall c, In c valid <->
          In c (chains w)
          /\ exists r, In r (tps w) /\ chainId r = c /\ in_day now r)
    /\ (valid = [] ->
        Snapshot.totalTps snap = of_Z 0
        /\ Snapshot.timestamp snap = of_Z now
        /\ Snapshot.dataAge snap = of_Z 0)
    /\ (valid <> [] ->
        Snapshot.totalTps snap = toFixed2 (total_of picks)
        /\ (forall x, total_of picks = Fin x ->
            exists y, Snapshot.totalTps snap = Fin y /\ two_decimals_of x y)
        /\ exists q,
             Snapshot.timestamp snap = Fin q
             /\ In (Fin q) (map timestamp picks)
             /\ (forall r, In r picks -> num_le (timestamp r) (Fin q) = true)
             /\ Snapshot.dataAge snap
                = of_Z (Z.max 0 (Qfloor ((inject_Z now - q) / 60)))).
Proof.
  intros Hsane now valid.
  destruct (getNetworkTps_computes_dated e w Hsane)
    as (snap & evs & Hrun & Hsnap).
  fold now in Hsnap.
  pose proof (current_picks now (chains w) (tps w)) as Hpicks.
  fold valid in Hpicks.
  set (picks := current now (chains w) (tps w)) in *.
  exists snap, (logged w evs), picks.
  split; [exact Hrun|]. split; [exact Hpicks|].
  pose proof (Forall2_length Hpicks) as Hlen.
  split; [|split; [|split]].
  - rewrite Hlen. unfold snapshot_of in Hsnap.
    destruct picks; [apply Hsnap | apply Hsnap].
  - intros c. unfold valid. rewrite filter_In, has_data_spec. tauto.
  - intros Hnil. rewrite Hnil in Hlen. destruct picks; [|discriminate].
    unfold snapshot_of in Hsnap. tauto.
  - intros Hne. destruct picks as [|r0 picks0] eqn:Hp.
    { destruct valid; [congruence | discriminate]. }
    rewrite <- Hp in *. unfold snapshot_of in Hsnap. rewrite Hp in Hsnap.
    rewrite <- Hp in Hsnap. destruct Hsnap as (Htot & _ & Hts & Hage).
    split; [exact Htot|]. split.
    + intros x Hx. rewrite Htot, Hx. apply toFixed2_rounds.
    + assert (Hfin : Forall (fun t => isFinite t = true) (map timestamp picks)).
      { apply Forall_forall. intros t Ht. apply in_map_iff in Ht.
        destruct Ht as (r & <- & Hr).
        destruct (Forall2_right _ _ _ r Hpicks Hr) as (c & _ & Hc).
        apply (in_day_finite now). apply Hc. }
      destruct (max_list_spec (map timestamp picks)) as [Hin Hmax];
        [rewrite Hp; discriminate | exact Hfin |].
      rewrite Forall_forall in Hfin. pose proof (Hfin _ Hin) as Hq.
      destruct (max_list (map timestamp picks)) as [| | |q] eqn:Hm;
        try discriminate.
      exists q. split; [exact Hts|]. split; [exact Hin|]. split.
      * intros r Hr. apply Hmax. now apply in_map.
      * rewrite Hage. apply age_of_fin.
Qed.




(* ===================================================================== *)
(** * Falsy values in the snapshot *)
(* ===================================================================== *)

(** A stored value that [||] replaces by 0: absent, [null], 0 or
    [NaN]. *)
Definition falsy (v : field) : Prop :=
match v with
| Num n => truthy_num n = false
| _ => True
end.

(** The same number, whatever the fraction that represents it. *)
Definition num_equiv (a b : jsnum) : Prop :=
match a, b with
| Fin p, Fin q => (p == q)%Q
| NaN, NaN | PosInf, PosInf | NegInf, NegInf => True
| _, _ => False
end.

Lemma num_equiv_refl a : num_equiv a a.
Proof. destruct a; simpl; auto. reflexivity. Qed.

Lemma num_add_equiv a a' b b' :
  num_equiv a a' -> num_equiv b b' -> num_equiv (num_add a b) (num_add a' b').
Proof.
  destruct a, a', b, b'; simpl; try tauto. intros -> ->. reflexivity.
Qed.

Lemma num_add_zero a : num_equiv (num_add a (of_Z 0)) a.
Proof. destruct a; simpl; auto. ring. Qed.

Lemma round_half_away_equiv p q :
  (p == q)%Q -> round_half_away p = round_half_away q.
Proof.
  intros H. unfold round_half_away.
  assert (Qle_bool 0 p = Qle_bool 0 q) as ->.
  { destruct (Qle_bool 0 q) eqn:Hq.
    - apply Qle_bool_iff. apply Qle_bool_iff in Hq. now rewrite H.
    - apply not_true_is_false. intros Hp. apply Qle_bool_iff in Hp.
      rewrite H in Hp. apply Qle_bool_iff in Hp. congruence. }
  destruct (Qle_bool 0 q); now rewrite H.
Qed.

Lemma toFixed2_equiv a b : num_equiv a b -> toFixed2 a = toFixed2 b.
Proof.
  destruct a, b; cbn [num_equiv toFixed2]; try tauto. intros H. f_equal.
  apply Qred_complete.
  rewrite (round_half_away_equiv (q * 100) (q0 * 100)); [reflexivity|].
  now rewrite H.
Qed.

Lemma or_zero_falsy v : falsy v -> or_zero v = of_Z 0.
Proof. destruct v; simpl; auto. now intros ->. Qed.

Lemma fold_total_equiv l a a' :
  num_equiv a a' ->
  num_equiv (fold_left (fun sum r => num_add sum (or_zero (value r))) l a)
            (fold_left (fun sum r => num_add sum (or_zero (value r))) l a').
Proof.
  revert a a'. induction l as [|r l IH]; intros a a' H; [exact H|].
  simpl. apply IH. apply num_add_equiv; [exact H | apply num_equiv_refl].
Qed.

(** A document with a falsy value can be left out of the sum. *)
Lemma total_skips_falsy l1 r l2 :
  falsy (value r) ->
  num_equiv (total_of (l1 ++ r :: l2)) (total_of (l1 ++ l2)).
Proof.
  intros Hr. unfold total_of. rewrite !fold_left_app. cbn [fold_left].
  apply fold_total_equiv. rewrite (or_zero_falsy _ Hr). apply num_add_zero.
Qed.

Lemma current_app now a b s :
  current now (a ++ b) s = current now a s ++ current now b s.
Proof. unfold current. now rewrite map_app, documents_app. Qed.

(** The world with other known chains. *)
Definition with_chains (w : world) (chs : list string) : world :=
mkWorld (tps w) chs (clock w) (requests w) (writes w) (trace w).

(** Three chains: two with the values [Infinity] and [-Infinity], which
    [parseFloat] reads from the texts of these names and the validator
    lets through, and one whose document has no value. *)
Definition infinite_world : world :=
mkWorld [mkTps "43114" (of_Z (sample_now - 100)) (Num PosInf) 0;
         mkTps "8453" (of_Z (sample_now - 100)) (Num NegInf) 0;
         mkTps "1" (of_Z (sample_now - 100)) Absent 0]
        ["43114"; "8453"; "1"] (sample_now * 1000) 0 0 [].

(** C10, as stated, fails on the total being always a number: with the
    values [Infinity] and [-Infinity] among the latest ones the total is
    [NaN], the chain without a value being counted as the claim says. *)
Lemma total_of_opposite_infinities_counterexample :
  parseFloat (JStr "Infinity") = PosInf
  /\ parseFloat (JStr "-Infinity") = NegInf
  /\ findLatestWithin "1" (of_Z (clock infinite_world / 1000 - 24 * 60 * 60))
                      (of_Z (clock infinite_world / 1000))
                      (tps infinite_world)
     = Some (mkTps "1" (of_Z (sample_now - 100)) Absent 0)
  /\ exists snap w',
       getNetworkTps provider_down infinite_world = (Val snap, w')
       /\ Snapshot.totalTps snap = NaN
       /\ Snapshot.chainCount snap = 3%nat.
Proof.
  split; [reflexivity|]. split; [reflexivity|]. split; [reflexivity|].
  eexists. eexists. split; [vm_compute; reflexivity|].
  split; reflexivity.
Qed.

(** C10, amended.  Whenever the snapshot is computed, the documents it
    reads for its log having timestamps that are dates, a chain whose
    latest document of the last day has a falsy value (absent, [null], 0
    or [NaN]) adds the number 0 to the sum: the total is the one of the
    snapshot without this chain, so that a missing value does not make
    it [NaN], and the chain is counted all the same. *)
Theorem falsy_value_counts_as_zero (e : env) (w : world)
  (before after : list string) (c : string) (r : TpsRecord) :
  dated w ->
  chains w = before ++ c :: after ->
  findLatestWithin c (of_Z (clock w / 1000 - 24 * 60 * 60))
                   (of_Z (clock w / 1000)) (tps w) = Some r ->
  falsy (value r) ->
  exists snap w' snap0 w0',
    getNetworkTps e w = (Val snap, w')
    /\ getNetworkTps e (with_chains w (before ++ after)) = (Val snap0, w0')
    /\ or_zero (value r) = of_Z 0
    /\ Snapshot.totalTps snap = Snapshot.totalTps snap0
    /\ Snapshot.chainCount snap = S (Snapshot.chainCount snap0).
Proof.
  intros Hsane Hchains Hq Hr.
  assert (Hsane0 : dated (with_chains w (before ++ after))) by exact Hsane.
  destruct (getNetworkTps_computes_dated e w Hsane)
    as (snap & evs & Hrun & Hsnap).
  destruct (getNetworkTps_computes_dated e _ Hsane0)
    as (snap0 & evs0 & Hrun0 & Hsnap0).
  cbn [with_chains clock chains tps] in Hsnap0.
  set (now := clock w / 1000) in *.
  rewrite Hchains in Hsnap. rewrite current_app in Hsnap, Hsnap0.
  change (c :: after) with ([c] ++ after) in Hsnap.
  rewrite current_app in Hsnap.
  assert (Hc : current now [c] (tps w) = [r]).
  { unfold current. cbn [map documents]. now rewrite Hq. }
  rewrite Hc in Hsnap. cbn [app] in Hsnap.
  set (l1 := current now before (tps w)) in *.
  set (l2 := current now after (tps w)) in *.
  exists snap, (logged w evs), snap0,
    (logged (with_chains w (before ++ after)) evs0).
  split; [exact Hrun|]. split; [exact Hrun0|].
  split; [apply or_zero_falsy, Hr|].
  assert (Hshape : Snapshot.totalTps snap = toFixed2 (total_of (l1 ++ r :: l2))
                   /\ Snapshot.chainCount snap = List.length (l1 ++ r :: l2)).
  { unfold snapshot_of in Hsnap.
    destruct (l1 ++ r :: l2) eqn:Hl; [|tauto].
    destruct l1; discriminate. }
  destruct Hshape as [Htot Hcount].
  assert (Hshape0 : Snapshot.totalTps snap0 = toFixed2 (total_of (l1 ++ l2))
                    /\ Snapshot.chainCount snap0 = List.length (l1 ++ l2)).
  { unfold snapshot_of in Hsnap0.
    destruct (l1 ++ l2) eqn:Hl; [|tauto].
    destruct Hsnap0 as (-> & -> & _). split; reflexivity. }
  destruct Hshape0 as [Htot0 Hcount0].
  split.
  - rewrite Htot, Htot0. apply toFixed2_equiv, total_skips_falsy, Hr.
  - rewrite Hcount, Hcount0, !length_app. simpl. lia.
Qed.

(** Two chains, the second with a latest document that has no value,
    and an old document whose timestamp is no date, which the snapshot
    does not read. *)
Definition gap_world : world :=
mkWorld [mkTps "43114" (of_Z (sample_now - 100)) (Num (Fin (5 # 1))) 0;
         mkTps "8453" (of_Z (sample_now - 100)) Absent 0;
         mkTps "8453" (of_Z (-10000000000000)) (Num (Fin 1)) 0]
        ["43114"; "8453"] (sample_now * 1000) 0 0 [].

Lemma falsy_value_counts_as_zero_witness :
  dated gap_world
  /\ exists snap w' snap0 w0',
       getNetworkTps provider_down gap_world = (Val snap, w')
       /\ getNetworkTps provider_down (with_chains gap_world ["43114"])
          = (Val snap0, w0')
       /\ Snapshot.totalTps snap = Snapshot.totalTps snap0
       /\ Snapshot.chainCount snap = S (Snapshot.chainCount snap0)
       /\ Snapshot.chainCount snap = 2%nat
       /\ Snapshot.totalTps snap = Fin (5 # 1).
Proof.
  assert (Hsane : dated gap_world).
  { split; [unfold maxTime; simpl; lia|].
    repeat constructor; unfold Qle; simpl; lia. }
  split; [exact Hsane|].
  destruct (falsy_value_counts_as_zero provider_down gap_world
              ["43114"] [] "8453"
              (mkTps "8453" (of_Z (sample_now - 100)) Absent 0)
              Hsane eq_refl eq_refl I)
    as (snap & w' & snap0 & w0' & Hrun & Hrun0 & _ & Htotal & Hcount).
  exists snap, w', snap0, w0'. split; [exact Hrun|]. split; [exact Hrun0|].
  split; [exact Htotal|]. split; [exact Hcount|].
  pose proof Hrun as Hp. vm_compute in Hp. inversion Hp. split; reflexivity.
Defined.


(* ===================================================================== *)
(** * The network history *)
(* ===================================================================== *)

(** [a] comes strictly before [b] in the order of the database. *)
Definition earlier (a b : jsnum) : Prop :=
bson_leb a b = true /\ num_eqb a b = false.

Section Pipeline.

Lemma bson_leb_antisym a b :
  bson_leb a b = true -> bson_leb b a = true -> num_eqb a b = true.
Proof.
  destruct a, b; simpl; try discriminate; auto.
  rewrite !Qle_bool_iff, Qeq_bool_iff. apply Qle_antisym.
Qed.

Lemma num_eqb_leb a b : num_eqb a b = true -> bson_leb a b = true.
Proof.
  destruct a, b; simpl; try discriminate; auto.
  rewrite Qle_bool_iff, Qeq_bool_iff. intros ->. apply Qle_refl.
Qed.

Lemma earlier_trans a b c : earlier a b -> earlier b c -> earlier a c.
Proof.
  intros [Hab Nab] [Hbc Nbc]. split; [eapply bson_leb_trans; eassumption|].
  apply not_true_is_false. intros Hac.
  assert (bson_leb c a = true).
  { apply num_eqb_leb. now rewrite num_eqb_sym. }
  assert (bson_leb b a = true) by (eapply bson_leb_trans; eassumption).
  rewrite (bson_leb_antisym a b) in Nab; congruence.
Qed.


(** ** [distinct] *)

Lemma distinct_in ts u : In u (distinct ts) -> In u ts.
Proof.
  induction ts as [|t ts IH]; [tauto|]. simpl.
  rewrite filter_In. intros [H|[H _]]; auto.
Qed.

Lemma distinct_covers ts t :
  In t ts -> exists u, In u (distinct ts) /\ num_eqb t u = true.
Proof.
  induction ts as [|t0 ts IH]; [intros []|]. intros [<-|Hin].
  - exists t0. split; [now left | apply num_eqb_refl].
  - destruct (IH Hin) as (u & Hu & Htu). simpl.
    destruct (num_eqb u t0) eqn:Hu0.
    + exists t0. split; [now left|]. eapply num_eqb_trans; eassumption.
    + exists u. split; [|assumption]. right. apply filter_In.
      now rewrite Hu0.
Qed.

Lemma distinct_apart ts :
  ForallOrdPairs (fun u v => num_eqb u v = false) (distinct ts).
Proof.
  induction ts as [|t ts IH]; [constructor|]. simpl. constructor.
  - apply Forall_forall. intros u Hu. apply filter_In in Hu.
    destruct Hu as [_ Hu]. apply negb_true_iff in Hu.
    now rewrite num_eqb_sym.
  - clear - IH. induction IH as [|u l Hu _ IH']; simpl; [constructor|].
    destruct (negb (num_eqb u t)); [|exact IH'].
    constructor; [|exact IH'].
    apply Forall_forall. intros v Hv. apply filter_In in Hv.
    rewrite Forall_forall in Hu. apply Hu, Hv.
Qed.

(** ** [sort_stage] *)

Lemma insert_group_in g gs h :
  In h (insert_group g gs) <-> h = g \/ In h gs.
Proof.
  induction gs as [|h0 gs IH]; simpl; [intuition|].
  destruct (bson_leb _ _); simpl; [intuition|]. rewrite IH. intuition.
Qed.

Lemma sort_stage_in gs h : In h (sort_stage gs) <-> In h gs.
Proof.
  induction gs as [|g gs IH]; simpl; [tauto|].
  rewrite insert_group_in, IH. intuition.
Qed.

Lemma sort_stage_length gs : List.length (sort_stage gs) = List.length gs.
Proof.
  induction gs as [|g gs IH]; simpl; [reflexivity|]. rewrite <- IH.
  generalize (sort_stage gs). intros l. induction l as [|h l IHl]; simpl; auto.
  destruct (bson_leb _ _); simpl; auto.
Qed.

Definition before (g h : group) : Prop :=
earlier (g_timestamp g) (g_timestamp h).

Lemma insert_group_sorted g gs :
  StronglySorted before gs ->
  Forall (fun h => num_eqb (g_timestamp g) (g_timestamp h) = false) gs ->
  StronglySorted before (insert_group g gs).
Proof.
  induction 1 as [|h gs Hs IH Hh]; intros Hg; simpl.
  - repeat constructor.
  - inversion Hg as [|? ? Hgh Hg']; subst.
    destruct (bson_leb (g_timestamp g) (g_timestamp h)) eqn:Hle.
    + constructor; [now constructor|].
      assert (Hbefore : before g h) by (split; assumption).
      constructor; [assumption|].
      eapply Forall_impl; [|exact Hh]. intros x Hx.
      eapply earlier_trans; eassumption.
    + constructor; [apply IH, Hg'|].
      apply Forall_forall. intros x Hx. apply insert_group_in in Hx.
      destruct Hx as [->|Hx].
      * split.
        -- destruct (bson_leb_total (g_timestamp h) (g_timestamp g)); congruence.
        -- now rewrite num_eqb_sym.
      * rewrite Forall_forall in Hh. now apply Hh.
Qed.

Lemma sort_stage_sorted gs :
  ForallOrdPairs (fun g h => num_eqb (g_timestamp g) (g_timestamp h) = false) gs ->
  StronglySorted before (sort_stage gs).
Proof.
  induction 1 as [|g gs Hg _ IH]; simpl; [constructor|].
  apply insert_group_sorted; [exact IH|].
  apply Forall_forall. intros h Hh. apply (proj1 (sort_stage_in _ _)) in Hh.
  rewrite Forall_forall in Hg. now apply Hg.
Qed.

Lemma ForallOrdPairs_map {A B : Type} (f : A -> B) (R : B -> B -> Prop) l :
  ForallOrdPairs (fun x y => R (f x) (f y)) l -> ForallOrdPairs R (map f l).
Proof.
  induction 1 as [|x l Hx _ IH]; simpl; constructor; [|exact IH].
  apply Forall_forall. intros y Hy. apply in_map_iff in Hy.
  destruct Hy as (x' & <- & Hx'). rewrite Forall_forall in Hx. now apply Hx.
Qed.

(** The pipeline: one group for each distinct timestamp of the matched
    documents, with their sum rounded and their number, in strictly
    ascending order of timestamp. *)
Lemma aggregate_spec chainIds cutoff s :
  let matched := filter (matching chainIds cutoff) s in
  let gs := aggregate chainIds cutoff s in
  StronglySorted before gs
  /\ (forall g, In g gs ->
        In (g_timestamp g) (map timestamp matched)
        /\ g_totalTps g = round2 (sum_values (members (g_timestamp g) matched))
        /\ g_chainCount g = List.length (members (g_timestamp g) matched))
  /\ (forall r, In r matched ->
        exists g, In g gs /\ num_eqb (timestamp r) (g_timestamp g) = true).
Proof.
  intros matched gs. unfold gs, aggregate. fold matched.
  split; [|split].
  - apply sort_stage_sorted. unfold project_stage, group_stage.
    rewrite map_map. cbn [g_timestamp].
    apply (ForallOrdPairs_map _ (fun g h => num_eqb (g_timestamp g)
                                              (g_timestamp h) = false)).
    cbn [g_timestamp]. apply distinct_apart.
  - intros g Hg. apply (proj1 (sort_stage_in _ _)) in Hg.
    unfold project_stage in Hg.
    apply in_map_iff in Hg. destruct Hg as (g0 & <- & Hg0).
    unfold group_stage in Hg0. apply in_map_iff in Hg0.
    destruct Hg0 as (t & <- & Ht). cbn [g_timestamp g_totalTps g_chainCount].
    split; [now apply distinct_in|]. split; reflexivity.
  - intros r Hr.
    destruct (distinct_covers (map timestamp matched) (timestamp r))
      as (u & Hu & Hru); [now apply in_map|].
    eexists. split.
    + apply sort_stage_in. unfold project_stage, group_stage.
      rewrite map_map. apply in_map_iff. exists u. split; [reflexivity|exact Hu].
    + exact Hru.
Qed.

End Pipeline.

(** The date of a timestamp in seconds, and the point made of a group. *)
Definition date_of (t : jsnum) : string :=
match Js.toISOString (new_Date (num_scale t 1000)) with
| Some s => s
| None => EmptyString
end.

Definition point_of (g : group) : HistoryPoint.t :=
HistoryPoint.make (g_timestamp g) (g_totalTps g) (g_chainCount g)
                  (date_of (g_timestamp g)).

Lemma iso_of_seconds_run t e w :
  calendar t -> iso_of_seconds t e w = (Val (date_of t), w).
Proof.
  intros Ht. destruct (calendar_scaled t Ht) as (_ & tm & Htm).
  unfold iso_of_seconds, date_of, Eff.toISOString. rewrite Htm. reflexivity.
Qed.


Lemma mapM_points gs e w :
  Forall (fun g => calendar (g_timestamp g)) gs ->
  mapM (fun point =>
          date <- iso_of_seconds (g_timestamp point) ;;
          ret (HistoryPoint.make (g_timestamp point) (g_totalTps point)
                                 (g_chainCount point) date)) gs e w
  = (Val (map point_of gs), w).
Proof.
  induction 1 as [|g gs Hg _ IH]; [reflexivity|].
  cbn [mapM map]. unfold bind at 1. unfold bind at 1.
  rewrite (iso_of_seconds_run _ e w Hg). unfold ret at 1.
  unfold bind at 1. rewrite IH. reflexivity.
Qed.

(** When the documents that the pipeline matches have timestamps within
    the calendar, the history is the pipeline with a date on each group;
    the other documents of the collection play no part. *)
Lemma getNetworkTpsHistory_computes_matched days e w :
  Forall (fun r => calendar (timestamp r))
         (filter (matching (chains w)
                    (Fin (inject_Z (clock w / 1000)
                          - days * inject_Z (24 * 60 * 60))))
                 (tps w)) ->
  yields (getNetworkTpsHistory days) e w
    (fun points =>
       points = map point_of
                  (aggregate (chains w)
                     (Fin (inject_Z (clock w / 1000)
                           - days * inject_Z (24 * 60 * 60)))
                     (tps w))).
Proof.
  intros Hstore. unfold getNetworkTpsHistory. apply yields_try.
  eapply yields_bind; [apply yields_now|]. intros now evs ->.
  eapply yields_bind; [apply yields_chains|]. intros chs evs0 ->.
  eapply yields_bind; [apply yields_query|]. intros gs evs1 ->.
  cbn [clock chains tps logged].
  set (gs := aggregate _ _ _).
  eapply yields_bind.
  { apply yields_exactly, mapM_points. apply Forall_forall. intros g Hg.
    destruct (aggregate_spec (chains w)
                (Fin (inject_Z (clock w / 1000)
                      - days * inject_Z (24 * 60 * 60))) (tps w))
      as (_ & Hgs & _).
    destruct (Hgs g Hg) as (Hin & _). apply in_map_iff in Hin.
    destruct Hin as (r & <- & Hr).
    rewrite Forall_forall in Hstore. apply Hstore, Hr. }
  intros points evs2 ->.
  eapply yields_bind; [apply yields_log_any|]. intros [] evs3 _.
  now apply yields_ret.
Qed.

(** With stored timestamps within the calendar, the history is the
    pipeline with a date on each group. *)
Lemma getNetworkTpsHistory_computes days e w :
  Forall (fun r => calendar (timestamp r)) (tps w) ->
  yields (getNetworkTpsHistory days) e w
    (fun points =>
       points = map point_of
                  (aggregate (chains w)
                     (Fin (inject_Z (clock w / 1000)
                           - days * inject_Z (24 * 60 * 60)))
                     (tps w))).
Proof.
  intros Hstore. apply getNetworkTpsHistory_computes_matched.
  apply Forall_forall. intros r Hr. apply filter_In in Hr.
  rewrite Forall_forall in Hstore. apply Hstore, Hr.
Qed.








(* ===================================================================== *)
(** * The reads of one chain *)
(* ===================================================================== *)

(** Whether the collection has a document of the chain. *)
Lemma countDocuments_zero c s :
  countDocuments c s = 0%nat <-> forall r, In r s -> chainId r <> c.
Proof.
  unfold countDocuments. split.
  - intros H r Hin Hc.
    assert (Hf : In r (filter (fun r0 => String.eqb (chainId r0) c) s)).
    { apply filter_In. split; [assumption | now apply String.eqb_eq]. }
    destruct (filter _ s); [destruct Hf | discriminate].
  - intros H. destruct (filter _ s) as [|r l] eqn:Hf; [reflexivity|].
    assert (Hin : In r (filter (fun r0 => String.eqb (chainId r0) c) s))
      by (rewrite Hf; now left).
    apply filter_In in Hin. destruct Hin as [Hin Hc].
    apply String.eqb_eq in Hc. destruct (H r Hin Hc).
Qed.

Lemma findLatest_some c s r :
  findLatest c s = Some r ->
  In r s /\ chainId r = c
  /\ forall r', In r' s -> chainId r' = c ->
       bson_leb (timestamp r') (timestamp r) = true.
Proof.
  unfold findLatest. intros H. apply latest_some in H.
  destruct H as [Hin Hmax]. apply filter_In in Hin.
  destruct Hin as [Hin Hc]. apply String.eqb_eq in Hc.
  repeat split; auto. intros r' Hin' Hc'. apply Hmax, filter_In.
  split; [assumption | now apply String.eqb_eq].
Qed.

Lemma findLatest_none c s :
  findLatest c s = None <-> forall r, In r s -> chainId r <> c.
Proof.
  unfold findLatest. rewrite latest_none, <- countDocuments_zero.
  unfold countDocuments. now rewrite length_zero_iff_nil.
Qed.

(** When every reply is a rejection or lacks the list, the collection is
    left as it was. *)
Lemma unproductive_store chain n e todo k w x w' :
  (forall j, (j < todo)%nat ->
     unproductive (metrics e chain (requests w + j)) = true) ->
  attempts chain n todo k e w = (Val x, w') -> tps w' = tps w.
Proof.
  revert k w. induction todo as [|todo IH]; intros k w Hall.
  - simpl. unfold ret. intros H; inversion H; subst. reflexivity.
  - rewrite attempts_unfold, turn_unfold.
    pose proof (Hall 0%nat ltac:(lia)) as H0. rewrite Nat.add_0_r in H0.
    assert (Hnext : forall w1, requests w1 = S (requests w) ->
              forall j, (j < todo)%nat ->
                unproductive (metrics e chain (requests w1 + j)) = true).
    { intros w1 Hw1 j Hj. rewrite Hw1.
      replace (S (requests w) + j)%nat with (requests w + S j)%nat by lia.
      apply Hall. lia. }
    destruct (metrics e chain (requests w)) as [|[| |results]] eqn:Hm;
      try discriminate.
    + rewrite (attempt_body_rejected _ _ _ _ _ Hm).
      destruct (k =? n)%nat.
      * intros H; inversion H; subst. reflexivity.
      * intros H. apply IH in H; [rewrite H; reflexivity|].
        apply Hnext. reflexivity.
    + rewrite (attempt_body_no_data _ _ _ _ _ Hm).
      intros H. apply IH in H; [rewrite H; reflexivity|].
      apply Hnext. reflexivity.
    + rewrite (attempt_body_no_results _ _ _ _ _ Hm).
      intros H. apply IH in H; [rewrite H; reflexivity|].
      apply Hnext. reflexivity.
Qed.

(** A call with a budget of at least one attempt sends a request. *)
Lemma updateTpsData_sends chain n e w :
  (1 <= n)%nat ->
  exists x w' evs,
    updateTpsData chain n e w = (Val x, w')
    /\ grows w evs w' /\ (1 <= sent evs <= n)%nat.
Proof.
  intros Hn. unfold updateTpsData. destruct n as [|m]; [lia|].
  destruct (attempts_return chain (S m) e (S m) 1 w) as (x & w' & Hrun).
  exists x, w'. revert Hrun. rewrite attempts_unfold.
  destruct (turn_returns chain (S m) e 1 w) as (c & w1 & Ht). rewrite Ht.
  destruct (turn_grows chain (S m) e 1 w c w1 ltac:(lia) Ht)
    as (evs & Hg & Hs & _).
  destruct c as [|x0].
  - intros H.
    destruct (attempts_grow chain (S m) e m 2 w1 x w' ltac:(lia) H)
      as (evs' & Hg' & Hs' & _).
    exists (evs ++ evs'). split; [assumption|].
    split; [eapply grows_trans; eassumption|]. rewrite sent_app. lia.
  - intros H; inversion H; subst. exists evs.
    split; [reflexivity|]. split; [assumption | lia].
Qed.

(** The line [getLatestTps] writes before it refreshes. *)
Definition fetching_line (chain : string) : event :=
Log info "No TPS data found, fetching from API..." [AStr chain].

(** X1.  When the collection has a document of the chain,
    [getLatestTps] returns the timestamp and the value of a document of
    the chain that no other document of the chain exceeds in timestamp,
    and it leaves the world as it was: no request, no write, not a
    line. *)
Theorem getLatestTps_reads_the_latest (chain : string) (e : env) (w : world)
  (r0 : TpsRecord) :
  In r0 (tps w) -> chainId r0 = chain ->
  exists r,
    getLatestTps chain e w = (Val (Some (timestamp r, value r)), w)
    /\ In r (tps w) /\ chainId r = chain
    /\ forall r', In r' (tps w) -> chainId r' = chain ->
         bson_leb (timestamp r') (timestamp r) = true.
Proof.
  intros Hin Hc.
  destruct (findLatest chain (tps w)) as [r|] eqn:Hq.
  - exists r. split; [|now apply findLatest_some].
    unfold getLatestTps, try_catch, bind at 1, TPS_read at 1. rewrite Hq.
    reflexivity.
  - rewrite findLatest_none in Hq. destruct (Hq r0 Hin Hc).
Qed.

Lemma getLatestTps_reads_the_latest_witness :
  exists r,
    getLatestTps "43114" provider_down sample_world
    = (Val (Some (timestamp r, value r)), sample_world)
    /\ In r (tps sample_world) /\ chainId r = "43114"
    /\ forall r', In r' (tps sample_world) -> chainId r' = "43114" ->
         bson_leb (timestamp r') (timestamp r) = true.
Proof.
  apply (getLatestTps_reads_the_latest "43114" provider_down sample_world
           (mkTps "43114" (of_Z (sample_now - 100)) (Num (Fin (5 # 1))) 0)).
  - simpl. auto.
  - reflexivity.
Defined.

(** What [getLatestTps] does for a chain without a document. *)
Lemma getLatestTps_refreshes chain e w :
  (forall r, In r (tps w) -> chainId r <> chain) ->
  exists x w1 evs,
    updateTpsData chain 3 e (logged w [fetching_line chain]) = (Val x, w1)
    /\ getLatestTps chain e w
       = (Val (option_map select_fields (findLatest chain (tps w1))), w1)
    /\ grows w (fetching_line chain :: evs) w1
    /\ (1 <= sent evs <= 3)%nat
    /\ ((forall j, (j < 3)%nat ->
           metrics e chain (requests w + j) = Rejected) ->
        findLatest chain (tps w1) = None
        /\ tps w1 = tps w /\ sent evs = 3%nat).
Proof.
  intros Hnone.
  assert (Hq : findLatest chain (tps w) = None) by now apply findLatest_none.
  destruct (updateTpsData_sends chain 3 e (logged w [fetching_line chain])
              ltac:(lia)) as (x & w1 & evs & Hrun & Hg & Hs).
  assert (Hget : getLatestTps chain e w
                 = (Val (option_map select_fields (findLatest chain (tps w1))),
                    w1)).
  { unfold getLatestTps, try_catch, bind at 1, TPS_read at 1. rewrite Hq.
    unfold bind at 1, log, emit. unfold bind at 1.
    change {| tps := tps w; chains := chains w; clock := clock w;
              requests := requests w; writes := writes w;
              trace := trace w ++
                [Log info "No TPS data found, fetching from API..."
                   [AStr chain]] |}
      with (logged w [fetching_line chain]).
    rewrite Hrun. reflexivity. }
  exists x, w1, evs. split; [exact Hrun|]. split; [exact Hget|].
  split.
  { change (fetching_line chain :: evs) with ([fetching_line chain] ++ evs).
    eapply grows_trans; [|exact Hg]. now apply grows_logged. }
  split; [exact Hs|].
  intros Hdown.
  assert (Hun : forall j, (j < 3)%nat ->
            unproductive
              (metrics e chain
                 (requests (logged w [fetching_line chain]) + j)) = true).
  { intros j Hj. cbn [requests logged]. now rewrite Hdown. }
  pose proof (unproductive_store chain 3 e 3 1 _ x w1 Hun Hrun) as Hstore.
  cbn [tps logged] in Hstore.
  destruct (unproductive_run chain 3 e 3 1 _ ltac:(lia) Hun)
    as (x' & w' & evs' & Hrun' & Hg' & Hs' & _).
  unfold updateTpsData in Hrun. rewrite Hrun in Hrun'.
  inversion Hrun'; subst x' w'.
  split; [|split; [exact Hstore|]].
  - now rewrite Hstore.
  - pose proof (grows_trace _ _ _ Hg) as T1.
    pose proof (grows_trace _ _ _ Hg') as T2.
    rewrite T1 in T2. apply app_inv_head in T2. now rewrite T2.
Qed.

(** X2.  Whenever [getLatestTps] returns for a chain that has no
    document in the collection, it has written a line and run
    [updateTpsData] with its three attempts, for one to three requests,
    and what it returns is the latest document of the chain in the
    collection as the update left it, [null] when there is still none.
    When the provider rejected the three requests, it returns [null] and
    the collection is as before. *)
Theorem getLatestTps_refreshes_an_empty_chain (chain : string) (e : env)
  (w w1 : world) (latest : option (jsnum * field)) :
  (forall r, In r (tps w) -> chainId r <> chain) ->
  getLatestTps chain e w = (Val latest, w1) ->
  exists x evs,
    updateTpsData chain 3 e (logged w [fetching_line chain]) = (Val x, w1)
    /\ latest = option_map select_fields (findLatest chain (tps w1))
    /\ trace w1 = trace w ++ fetching_line chain :: evs
    /\ requests w1 = (requests w + sent evs)%nat
    /\ (1 <= sent evs <= 3)%nat
    /\ ((forall j, (j < 3)%nat ->
           metrics e chain (requests w + j) = Rejected) ->
        latest = None /\ tps w1 = tps w /\ sent evs = 3%nat).
Proof.
  intros Hnone Hret.
  destruct (getLatestTps_refreshes chain e w Hnone)
    as (x & w1' & evs & Hrun & Hget & Hg & Hs & Hdown).
  rewrite Hget in Hret. inversion Hret; subst w1' latest.
  exists x, evs. split; [exact Hrun|]. split; [reflexivity|].
  split; [apply Hg|]. split; [|split; [exact Hs|]].
  - rewrite (grows_requests _ _ _ Hg). reflexivity.
  - intros Hall. destruct (Hdown Hall) as (Hq & Hstore & Hsent).
    rewrite Hq. auto.
Qed.

Lemma getLatestTps_refreshes_an_empty_chain_witness :
  exists w1 x evs,
    getLatestTps "43114" provider_down fresh_world = (Val None, w1)
    /\ updateTpsData "43114" 3 provider_down
                     (logged fresh_world [fetching_line "43114"])
       = (Val x, w1)
    /\ trace w1 = trace fresh_world ++ fetching_line "43114" :: evs
    /\ sent evs = 3%nat /\ tps w1 = tps fresh_world.
Proof.
  exists (snd (getLatestTps "43114" provider_down fresh_world)).
  destruct (getLatestTps_refreshes_an_empty_chain "43114" provider_down
              fresh_world
              (snd (getLatestTps "43114" provider_down fresh_world)) None)
    as (x & evs & Hrun & _ & Ht & _ & _ & Hdown).
  - intros r [].
  - vm_compute. reflexivity.
  - exists x, evs. split; [vm_compute; reflexivity|]. split; [exact Hrun|].
    split; [exact Ht|].
    destruct Hdown as (_ & Hstore & Hsent); [intros j _; reflexivity|].
    split; [exact Hsent | exact Hstore].
Defined.

(** ** The history of a chain *)

(** [a] may come before [b] in a list sorted by [{ timestamp: -1 }]. *)
Definition descending (a b : TpsRecord) : Prop :=
bson_leb (timestamp b) (timestamp a) = true.

Lemma insert_desc_perm r l : Permutation (r :: l) (insert_desc r l).
Proof.
  induction l as [|h l IH]; simpl; [reflexivity|].
  destruct (bson_leb (timestamp h) (timestamp r)); [reflexivity|].
  rewrite perm_swap. now constructor.
Qed.

Lemma sort_desc_perm l : Permutation l (sort_desc l).
Proof.
  induction l as [|r l IH]; simpl; [constructor|].
  rewrite <- insert_desc_perm. now constructor.
Qed.

Lemma insert_desc_sorted r l :
  StronglySorted descending l -> StronglySorted descending (insert_desc r l).
Proof.
  induction 1 as [|h l Hl IH Hh]; simpl.
  - constructor; constructor.
  - destruct (bson_leb (timestamp h) (timestamp r)) eqn:Hle.
    + constructor; [now constructor|]. constructor; [exact Hle|].
      eapply Forall_impl; [|exact Hh]. intros x Hx. unfold descending in *.
      eapply bson_leb_trans; eassumption.
    + constructor; [exact IH|].
      apply (Permutation_Forall (insert_desc_perm r l)).
      constructor; [|exact Hh]. unfold descending.
      destruct (bson_leb_total (timestamp r) (timestamp h)); congruence.
Qed.

Lemma sort_desc_sorted l : StronglySorted descending (sort_desc l).
Proof.
  induction l as [|r l IH]; simpl; [constructor|].
  now apply insert_desc_sorted.
Qed.

(** The line [getTpsHistory] writes before it refreshes. *)
Definition no_history_line (chain : string) : event :=
Log info "No TPS history found, fetching from API..." [AStr chain].

(** The documents of a chain from a cutoff on. *)
Definition since (chain : string) (cutoff : Q) (r : TpsRecord) : bool :=
String.eqb (chainId r) chain && num_le (Fin cutoff) (timestamp r).

(** X3.  When the collection has a document of the chain,
    [getTpsHistory] sends no request and writes nothing to the
    collection: the world gains one line.  It returns the timestamp and
    value of exactly the documents of the chain whose timestamp is at
    least [now - days * 86400], each once, greatest timestamp first; so a
    chain whose documents are all older gets the empty history, without a
    refresh. *)
Theorem getTpsHistory_reads_the_window (chain : string) (days : Q) (e : env)
  (w : world) (r0 : TpsRecord) :
  In r0 (tps w) -> chainId r0 = chain ->
  let cutoff := (inject_Z (clock w / 1000) - days * inject_Z 86400)%Q in
  exists docs line,
    getTpsHistory chain days e w
    = (Val (map select_fields docs), logged w [line])
    /\ is_line line = true
    /\ Permutation docs (filter (since chain cutoff) (tps w))
    /\ StronglySorted descending docs
    /\ (forall r, In r docs <->
          In r (tps w) /\ chainId r = chain
          /\ num_le (Fin cutoff) (timestamp r) = true)
    /\ ((forall r, In r (tps w) -> chainId r = chain ->
           num_le (Fin cutoff) (timestamp r) = false) -> docs = []).
Proof.
  intros Hin Hc cutoff.
  assert (Hcount : (countDocuments chain (tps w) =? 0)%nat = false).
  { apply Nat.eqb_neq. rewrite countDocuments_zero. intros H.
    exact (H r0 Hin Hc). }
  set (docs := findHistory chain (Fin cutoff) (tps w)).
  assert (Hperm : Permutation docs (filter (since chain cutoff) (tps w))).
  { symmetry. apply sort_desc_perm. }
  assert (Hiff : forall r, In r docs <->
            In r (tps w) /\ chainId r = chain
            /\ num_le (Fin cutoff) (timestamp r) = true).
  { intros r. split.
    - intros Hr. apply (Permutation_in _ Hperm) in Hr.
      apply filter_In in Hr. destruct Hr as [Hr Hs].
      apply andb_true_iff in Hs. destruct Hs as [Hs1 Hs2].
      apply String.eqb_eq in Hs1. auto.
    - intros (Hr & Hrc & Hle).
      apply (Permutation_in _ (Permutation_sym Hperm)).
      apply filter_In. split; [assumption|]. unfold since.
      rewrite Hle, andb_true_r. now apply String.eqb_eq. }
  exists docs. eexists. split; [|split; [|split; [exact Hperm|split;
    [apply sort_desc_sorted|split; [exact Hiff|]]]]].
  - unfold getTpsHistory, try_catch, bind at 1, TPS_read at 1.
    unfold bind at 1. rewrite Hcount. unfold ret at 1.
    unfold bind at 1, Date_now at 1. unfold bind at 1, TPS_read at 1.
    unfold bind at 1, log, emit. unfold ret.
    change (24 * 60 * 60) with 86400. fold cutoff. fold docs.
    reflexivity.
  - reflexivity.
  - intros Hold. destruct docs as [|r l] eqn:Hd; [reflexivity|].
    destruct (proj1 (Hiff r) (or_introl eq_refl)) as (Hr & Hrc & Hle).
    rewrite (Hold r Hr Hrc) in Hle. discriminate.
Qed.

Lemma getTpsHistory_reads_the_window_witness :
  let cutoff :=
    (inject_Z (clock sample_world / 1000) - 30 * inject_Z 86400)%Q in
  exists docs line,
    getTpsHistory "43114" 30 provider_down sample_world
    = (Val (map select_fields docs), logged sample_world [line])
    /\ is_line line = true
    /\ Permutation docs (filter (since "43114" cutoff) (tps sample_world))
    /\ StronglySorted descending docs
    /\ (forall r, In r docs <->
          In r (tps sample_world) /\ chainId r = "43114"
          /\ num_le (Fin cutoff) (timestamp r) = true)
    /\ ((forall r, In r (tps sample_world) -> chainId r = "43114" ->
           num_le (Fin cutoff) (timestamp r) = false) -> docs = []).
Proof.
  apply (getTpsHistory_reads_the_window "43114" 30 provider_down sample_world
           (mkTps "43114" (of_Z (sample_now - 100)) (Num (Fin (5 # 1))) 0)).
  - simpl. auto.
  - reflexivity.
Defined.

(** X4.  Whenever [getTpsHistory] returns for a chain that has no
    document in the collection, it has written a line and run
    [updateTpsData] with its three attempts, for one to three requests,
    and the history it returns is read from the collection as the update
    left it, with the cutoff taken from the clock after the update; one
    more line is written after the read. *)
Theorem getTpsHistory_refreshes_an_empty_chain (chain : string) (days : Q)
  (e : env) (w w2 : world) (points : list (jsnum * field)) :
  (forall r, In r (tps w) -> chainId r <> chain) ->
  getTpsHistory chain days e w = (Val points, w2) ->
  exists x w1 evs line,
    updateTpsData chain 3 e (logged w [no_history_line chain]) = (Val x, w1)
    /\ points = map select_fields
                    (findHistory chain
                       (Fin (inject_Z (clock w1 / 1000)
                             - days * inject_Z 86400))
                       (tps w1))
    /\ w2 = logged w1 [line] /\ is_line line = true
    /\ trace w1 = trace w ++ no_history_line chain :: evs
    /\ (1 <= sent evs <= 3)%nat.
Proof.
  intros Hnone Hret.
  assert (Hcount : (countDocuments chain (tps w) =? 0)%nat = true).
  { apply Nat.eqb_eq. now apply countDocuments_zero. }
  destruct (updateTpsData_sends chain 3 e (logged w [no_history_line chain])
              ltac:(lia)) as (x & w1 & evs & Hrun & Hg & Hs).
  assert (Hget : exists line,
            is_line line = true
            /\ getTpsHistory chain days e w
               = (Val (map select_fields
                           (findHistory chain
                              (Fin (inject_Z (clock w1 / 1000)
                                    - days * inject_Z 86400))
                              (tps w1))),
                  logged w1 [line])).
  { eexists. split; [|].
    2:{ unfold getTpsHistory, try_catch, bind at 1, TPS_read at 1.
        unfold bind at 1. rewrite Hcount.
        unfold bind at 1, log at 1, emit.
        change {| tps := tps w; chains := chains w; clock := clock w;
                  requests := requests w; writes := writes w;
                  trace := trace w ++
                    [Log info "No TPS history found, fetching from API..."
                       [AStr chain]] |}
          with (logged w [no_history_line chain]).
        unfold bind at 1. rewrite Hrun. unfold ret at 1.
        unfold bind at 1, Date_now at 1. unfold bind at 1, TPS_read at 1.
        unfold bind at 1, log, emit. unfold ret.
        change (24 * 60 * 60) with 86400. reflexivity. }
    reflexivity. }
  destruct Hget as (line & Hline & Hget).
  rewrite Hget in Hret. injection Hret as <- <-.
  exists x, w1, evs, line.
  split; [exact Hrun|]. split; [reflexivity|].
  split; [reflexivity|]. split; [exact Hline|].
  split; [|exact Hs].
  pose proof (grows_trace _ _ _ Hg) as Ht. cbn [trace logged] in Ht.
  rewrite Ht, <- app_assoc. reflexivity.
Qed.

Lemma getTpsHistory_refreshes_an_empty_chain_witness :
  exists w2 x w1 evs line,
    getTpsHistory "43114" 30 provider_down fresh_world = (Val [], w2)
    /\ updateTpsData "43114" 3 provider_down
                     (logged fresh_world [no_history_line "43114"])
       = (Val x, w1)
    /\ w2 = logged w1 [line]
    /\ trace w1 = trace fresh_world ++ no_history_line "43114" :: evs
    /\ (1 <= sent evs <= 3)%nat.
Proof.
  exists (snd (getTpsHistory "43114" 30 provider_down fresh_world)).
  destruct (getTpsHistory_refreshes_an_empty_chain "43114" 30 provider_down
              fresh_world
              (snd (getTpsHistory "43114" 30 provider_down fresh_world)) [])
    as (x & w1 & evs & line & Hrun & _ & Hw2 & _ & Ht & Hs).
  - intros r [].
  - vm_compute. reflexivity.
  - exists x, w1, evs, line. split; [vm_compute; reflexivity|].
    split; [exact Hrun|].
    split; [exact Hw2|]. split; [exact Ht | exact Hs].
Defined.

(* ===================================================================== *)
(** * What an update does to the collection *)
(* ===================================================================== *)

(** A document before and after an update of [chain]: the same, or a
    document of the chain with its key kept and a number for value. *)
Definition touches (chain : string) (r r' : TpsRecord) : Prop :=
r' = r
\/ (chainId r = chain /\ chainId r' = chain /\ timestamp r' = timestamp r
    /\ exists v, value r' = Num v /\ isNaN v = false).

(** A document an update of [chain] may add: of the chain, with a
    timestamp that satisfies [T] and a number for value. *)
Definition added_ok (chain : string) (T : jsnum -> Prop) (r : TpsRecord)
  : Prop :=
chainId r = chain /\ T (timestamp r)
/\ exists v, value r = Num v /\ isNaN v = false.

(** [s'] is [s], document by document, followed by added documents. *)
Definition extends (chain : string) (T : jsnum -> Prop) (s s' : collection)
  : Prop :=
exists kept added,
  s' = kept ++ added
  /\ Forall2 (touches chain) s kept
  /\ Forall (added_ok chain T) added.

Section Extends.

Variable chain : string.

Lemma touches_refl r : touches chain r r.
Proof. now left. Qed.

Lemma touches_trans r1 r2 r3 :
  touches chain r1 r2 -> touches chain r2 r3 -> touches chain r1 r3.
Proof.
  intros [->|(H1 & H2 & H3 & H4)] [->|(K1 & K2 & K3 & K4)]; try (now left).
  - right. auto.
  - right. auto.
  - right. repeat split; auto. congruence.
Qed.

Lemma added_touched T r r' :
  added_ok chain T r -> touches chain r r' -> added_ok chain T r'.
Proof.
  intros (H1 & H2 & H3) [->|(K1 & K2 & K3 & K4)]; [repeat split; auto|].
  repeat split; auto. now rewrite K3.
Qed.

Lemma Forall2_touches_refl s : Forall2 (touches chain) s s.
Proof. induction s; constructor; auto using touches_refl. Qed.

Lemma extends_refl T s : extends chain T s s.
Proof.
  exists s, []. rewrite app_nil_r.
  split; [reflexivity|]. split; [apply Forall2_touches_refl | constructor].
Qed.

Lemma extends_weaken (T T' : jsnum -> Prop) s s' :
  (forall t, T t -> T' t) -> extends chain T s s' -> extends chain T' s s'.
Proof.
  intros HT (kept & added & -> & Hk & Ha). exists kept, added.
  split; [reflexivity|]. split; [assumption|].
  eapply Forall_impl; [|exact Ha]. intros r (H1 & H2 & H3).
  repeat split; auto.
Qed.

Lemma extends_trans T s1 s2 s3 :
  extends chain T s1 s2 -> extends chain T s2 s3 -> extends chain T s1 s3.
Proof.
  intros (k1 & a1 & -> & Hk1 & Ha1) (k2 & a2 & -> & Hk2 & Ha2).
  apply Forall2_app_inv_l in Hk2.
  destruct Hk2 as (k1' & a1' & Hk1' & Ha1' & ->).
  exists k1', (a1' ++ a2). split; [now rewrite app_assoc|]. split.
  - clear - Hk1 Hk1'. revert k1' Hk1'.
    induction Hk1 as [|r r2 s k1 Hr _ IH]; intros k1' H; inversion H; subst;
      constructor; eauto using touches_trans.
  - apply Forall_app. split; [|assumption].
    clear - Ha1 Ha1'. induction Ha1' as [|r r' a a' Hr _ IH];
      [constructor|].
    inversion Ha1; subst. constructor; eauto using added_touched.
Qed.

(** An operation the update builds: an upsert on a key of the chain,
    with a timestamp that satisfies [T] and a number to set. *)
Definition op_ok (T : jsnum -> Prop) (op : write_op) : Prop :=
filter_chainId op = chain /\ T (filter_timestamp op)
/\ isNaN (set_value op) = false.

Lemma updateOne_extends T op s :
  op_ok T op -> extends chain T s (fst (updateOne op s)).
Proof.
  intros (Hc & HT & Hv). induction s as [|r s IH]; simpl.
  - destruct (upsert op); simpl.
    + exists [], [inserted op]. split; [reflexivity|].
      split; [constructor|]. constructor; [|constructor].
      repeat split; simpl; eauto.
    + apply extends_refl.
  - destruct (has_key (filter_chainId op) (filter_timestamp op) r) eqn:Hk;
      simpl.
    + eexists (_ :: s), []. rewrite app_nil_r. split; [reflexivity|].
      split; [|constructor]. constructor; [|apply Forall2_touches_refl].
      right. unfold has_key in Hk. apply andb_true_iff in Hk.
      destruct Hk as [Hk _]. apply String.eqb_eq in Hk.
      simpl. repeat split; eauto; congruence.
    + destruct (updateOne op s) as [s' res]. simpl in *.
      destruct IH as (kept & added & -> & Hkept & Hadded).
      exists (r :: kept), added. split; [reflexivity|].
      split; [|assumption]. constructor; auto using touches_refl.
Qed.

Lemma bulkWrite_extends T ops s :
  Forall (op_ok T) ops -> extends chain T s (fst (bulkWrite ops s)).
Proof.
  intros H. revert s. induction H as [|op ops Hop _ IH]; intros s.
  - apply extends_refl.
  - simpl. pose proof (updateOne_extends T op s Hop) as H1.
    destruct (updateOne op s) as [s1 r1]. simpl in H1.
    specialize (IH s1). destruct (bulkWrite ops s1) as [s2 r2].
    simpl in *. eapply extends_trans; eassumption.
Qed.

Lemma select_Forall {A : Type} (P : A -> Prop) mask i (l : list A) :
  Forall P l -> Forall P (select mask i l).
Proof.
  intros H. revert i. induction H as [|x l Hx _ IH]; intros i; simpl.
  - constructor.
  - destruct (mask i); [constructor|]; auto.
Qed.

End Extends.

Lemma within_weaken lo hi lo' hi' t :
  lo' <= lo -> hi <= hi' -> within lo hi t -> within lo' hi' t.
Proof.
  intros Hlo Hhi. destruct t as [| | |q]; simpl; try tauto.
  intros [H1 H2]. split.
  - eapply Qle_trans; [|exact H1]. now rewrite <- Zle_Qle.
  - eapply Qle_trans; [exact H2|]. now rewrite <- Zle_Qle.
Qed.

(** The operations built from the points the validator keeps. *)
Lemma ops_ok chain now d items :
  Forall (op_ok chain (within (now - thirtyDays) now))
         (map (op_of chain d) (the_points (filter (keeps_item now) items))).
Proof.
  induction items as [|[p|] items IH]; cbn [filter keeps_item];
    [constructor | | exact IH].
  destruct (keeps now p) eqn:Hp; [|exact IH].
  cbn [the_points map]. constructor; [|exact IH].
  apply keeps_spec in Hp. destruct Hp as (_ & Hv & Ht).
  repeat split; assumption.
Qed.

(** The [try] block of an attempt leaves the clock alone and extends the
    collection by points of the window of its time. *)
Lemma body_extends chain k n e w r w' :
  attempt_body chain k n e w = (r, w') ->
  clock w' = clock w
  /\ extends chain (within (clock w / 1000 - thirtyDays) (clock w / 1000))
             (tps w) (tps w').
Proof.
  intros Hb. split.
  { destruct (body_grows _ _ _ _ _ _ _ Hb) as (evs & Hg & Hq & _).
    rewrite (grows_clock _ _ _ Hg). unfold total_pause.
    rewrite (quiet_pauses _ Hq). simpl. lia. }
  revert Hb.
  destruct (metrics e chain (requests w)) as [|[| |results]] eqn:Hm.
  - rewrite (attempt_body_rejected _ _ _ _ _ Hm). intros H; inversion H.
    apply extends_refl.
  - rewrite (attempt_body_no_data _ _ _ _ _ Hm). intros H; inversion H.
    apply extends_refl.
  - rewrite (attempt_body_no_results _ _ _ _ _ Hm). intros H; inversion H.
    apply extends_refl.
  - rewrite (attempt_body_results _ _ _ _ _ _ Hm).
    destruct (filterM _ results e _) as [[valid|x] w1] eqn:Hf;
      destruct (filter_keeps_world _ _ _ _ _ _ _ _ Hf) as (Htps & Hclock & _);
      simpl in Htps, Hclock.
    2:{ intros H; inversion H; subst. rewrite Htps. apply extends_refl. }
    destruct (filter_returns chain (clock w / 1000) results e _ _ _ Hf)
      as [Hv _].
    destruct valid as [|item valid].
    { intros H; inversion H; subst. simpl. rewrite Htps. apply extends_refl. }
    assert (Hsome : Forall (fun it => it <> None) (item :: valid)).
    { rewrite Hv. apply filter_keeps_some. }
    rewrite (mapM_toUpdateOne chain e _ _ Hsome).
    pose proof (ops_ok chain (clock w / 1000) (clock w1) results) as Hops.
    rewrite <- Hv in Hops.
    unfold TPS_bulkWrite. rewrite Htps.
    destruct (db_write e (writes w1)) as [|mask].
    + pose proof (bulkWrite_extends chain _ _ (tps w) Hops) as Hext.
      destruct (bulkWrite _ (tps w)) as [s' res].
      intros H; inversion H; subst. exact Hext.
    + intros H; inversion H; subst. cbn [tps].
      apply bulkWrite_extends, select_Forall, Hops.
Qed.

(** The loop: the clock only advances, and the collection is extended by
    points between thirty days before the start and the end. *)
Lemma attempts_extend chain n e todo k w r w' :
  attempts chain n todo k e w = (r, w') ->
  clock w <= clock w'
  /\ extends chain (within (clock w / 1000 - thirtyDays) (clock w' / 1000))
             (tps w) (tps w').
Proof.
  revert k w. induction todo as [|todo IH]; intros k w.
  - simpl. unfold ret. intros H; inversion H; subst.
    split; [lia | apply extends_refl].
  - rewrite attempts_unfold, turn_unfold.
    destruct (attempt_body chain k n e w) as [[c|err] w1] eqn:Hb;
      destruct (body_extends _ _ _ _ _ _ _ Hb) as (Hc1 & He1).
    + destruct c as [|x].
      * intros H. destruct (IH _ _ H) as (Hc2 & He2).
        split; [lia|].
        assert (clock w / 1000 <= clock w' / 1000)
          by (apply Z.div_le_mono; lia).
        eapply extends_trans; eapply extends_weaken; try eassumption;
          intros t; apply within_weaken; rewrite ?Hc1; lia.
      * intros H; inversion H; subst. split; [lia|].
        rewrite Hc1. exact He1.
    + destruct (k =? n)%nat.
      * intros H; inversion H; subst. cbn [clock tps logged].
        split; [lia|]. rewrite Hc1. exact He1.
      * intros H. destruct (IH _ _ H) as (Hc2 & He2).
        cbn [clock tps logged paused] in Hc2, He2.
        assert (0 <= Z.of_nat k * 2000) by lia.
        split; [lia|].
        assert (clock w / 1000 <= clock w' / 1000)
          by (apply Z.div_le_mono; lia).
        assert (clock w / 1000 <= (clock w1 + Z.of_nat k * 2000) / 1000)
          by (apply Z.div_le_mono; lia).
        eapply extends_trans; eapply extends_weaken; try eassumption;
          intros t; apply within_weaken; lia.
Qed.

(** The documents of the other chains. *)
Definition others (chain : string) (s : collection) : collection :=
filter (fun r => negb (String.eqb (chainId r) chain)) s.

Lemma extends_others chain T s s' :
  extends chain T s s' -> others chain s' = others chain s.
Proof.
  intros (kept & added & -> & Hk & Ha). unfold others.
  rewrite filter_app.
  assert (filter (fun r => negb (String.eqb (chainId r) chain)) added = [])
    as ->.
  { induction Ha as [|r a (Hc & _) _ IH]; [reflexivity|]. simpl.
    rewrite Hc, String.eqb_refl. exact IH. }
  rewrite app_nil_r.
  induction Hk as [|r r' s kept Hr _ IH]; [reflexivity|]. simpl.
  destruct Hr as [->|(Hc & Hc' & _)]; [now rewrite IH|].
  rewrite Hc, Hc', String.eqb_refl. exact IH.
Qed.

Lemma extends_keeps_keys chain T s s' r :
  extends chain T s s' -> In r s ->
  exists r', In r' s' /\ chainId r' = chainId r /\ timestamp r' = timestamp r.
Proof.
  intros (kept & added & -> & Hk & _) Hin.
  induction Hk as [|r1 r1' s kept Hr _ IH]; [destruct Hin|].
  destruct Hin as [<-|Hin].
  - exists r1'. split; [now left|].
    destruct Hr as [->|(Hc & Hc' & Ht & _)]; split; congruence.
  - destruct (IH Hin) as (r' & Hr' & Hkey). exists r'.
    split; [now right | exact Hkey].
Qed.

Lemma extends_length chain T s s' :
  extends chain T s s' -> (List.length s <= List.length s')%nat.
Proof.
  intros (kept & added & -> & Hk & _). rewrite length_app.
  apply Forall2_length in Hk. lia.
Qed.

Lemma updateTpsData_extends chain n e w :
  let w' := snd (updateTpsData chain n e w) in
  clock w <= clock w'
  /\ extends chain (within (clock w / 1000 - thirtyDays) (clock w' / 1000))
             (tps w) (tps w').
Proof.
  unfold updateTpsData.
  destruct (attempts chain n n 1 e w) as [r w'] eqn:Hrun.
  exact (attempts_extend _ _ _ _ _ _ _ _ Hrun).
Qed.

Lemma updateTpsData_chains chain n e w :
  chains (snd (updateTpsData chain n e w)) = chains w.
Proof.
  unfold updateTpsData.
  destruct (attempts_return chain n e n 1 w) as (x & w' & Hrun).
  rewrite Hrun. destruct (Nat.eq_dec n 0) as [->|Hn].
  - simpl in Hrun. unfold ret in Hrun. now inversion Hrun.
  - destruct (attempts_grow chain n e n 1 w x w' ltac:(lia) Hrun)
      as (evs & Hg & _). apply Hg.
Qed.

(** X6.  Whatever the provider and the database do, an update of a
    chain leaves the documents of the other chains as they are and in
    their order, deletes no document, changes the chain and the timestamp
    of no document, and leaves the list of chains alone. *)
Theorem updateTpsData_touches_one_chain (chain : string) (n : nat) (e : env)
  (w : world) :
  let w' := snd (updateTpsData chain n e w) in
  others chain (tps w') = others chain (tps w)
  /\ (List.length (tps w) <= List.length (tps w'))%nat
  /\ (forall r, In r (tps w) ->
        exists r', In r' (tps w')
                   /\ chainId r' = chainId r /\ timestamp r' = timestamp r)
  /\ chains w' = chains w.
Proof.
  intros w'. destruct (updateTpsData_extends chain n e w) as (_ & Hext).
  fold w' in Hext. split; [|split; [|split]].
  - eapply extends_others, Hext.
  - eapply extends_length, Hext.
  - intros r Hr. eapply extends_keeps_keys; eassumption.
  - apply updateTpsData_chains.
Qed.

(** X7.  The collection after an update of a chain is the collection
    before, document by document, where a document of the chain may have
    got a new value (a number) and a new [lastUpdated], followed by new
    documents: they are documents of the chain, their value is a number,
    and their timestamp lies between thirty days before the clock at the
    start of the call and the clock at its end, in seconds.  The clock
    only advances. *)
Theorem updateTpsData_adds_points_of_the_window (chain : string) (n : nat)
  (e : env) (w : world) :
  let w' := snd (updateTpsData chain n e w) in
  clock w <= clock w'
  /\ exists kept added,
       tps w' = kept ++ added
       /\ Forall2 (fun r r' =>
                     r' = r
                     \/ (chainId r = chain /\ chainId r' = chain
                         /\ timestamp r' = timestamp r
                         /\ exists v, value r' = Num v /\ isNaN v = false))
                  (tps w) kept
       /\ Forall (fun r =>
                    chainId r = chain
                    /\ within (clock w / 1000 - 30 * 86400) (clock w' / 1000)
                              (timestamp r)
                    /\ exists v, value r = Num v /\ isNaN v = false)
                 added.
Proof.
  intros w'. destruct (updateTpsData_extends chain n e w) as (Hc & Hext).
  split; [exact Hc|]. exact Hext.
Qed.

(** X8.  In a world whose clock and stored timestamps are dates, an
    update that ends before the end of the calendar leaves a world of the
    same kind; the snapshot and the history of the network taken after it
    return, whatever the update stored. *)
Theorem updateTpsData_keeps_dates_valid (chain : string) (n : nat)
  (e e' : env) (days : Q) (w : world) :
  sane w ->
  clock (snd (updateTpsData chain n e w)) <= maxTime ->
  let w' := snd (updateTpsData chain n e w) in
  sane w'
  /\ (exists snap w'', getNetworkTps e' w' = (Val snap, w''))
  /\ (exists points w'', getNetworkTpsHistory days e' w' = (Val points, w'')).
Proof.
  intros [Hclock Hstore] Hend w'.
  destruct (updateTpsData_extends chain n e w) as (Hc & Hext).
  fold w' in Hc, Hext, Hend.
  assert (Hsane : sane w').
  { split; [lia|]. destruct Hext as (kept & added & -> & Hk & Ha).
    apply Forall_app. split.
    - clear - Hk Hstore.
      induction Hk as [|r r' s kept Hr _ IH]; [constructor|].
      inversion Hstore; subst. constructor; [|auto].
      destruct Hr as [->|(_ & _ & -> & _)]; assumption.
    - eapply Forall_impl; [|exact Ha]. intros r (_ & Hr & _).
      apply (calendar_within (clock w / 1000 - thirtyDays) (clock w' / 1000));
        [| |exact Hr].
      + assert (0 <= clock w / 1000) by (apply Z.div_pos; lia).
        unfold thirtyDays. lia.
      + unfold maxTime in Hend. apply Z.div_le_upper_bound; lia. }
  split; [exact Hsane|]. split.
  - destruct (getNetworkTps_computes e' w' Hsane) as (snap & evs & Hrun & _).
    eauto.
  - destruct (getNetworkTpsHistory_computes days e' w' (proj2 Hsane))
      as (points & evs & Hrun & _).
    eauto.
Qed.

Lemma updateTpsData_keeps_dates_valid_witness :
  let w' := snd (updateTpsData "43114" 3 provider_good fresh_world) in
  sane w'
  /\ (exists snap w'', getNetworkTps provider_down w' = (Val snap, w''))
  /\ (exists points w'',
        getNetworkTpsHistory 7 provider_down w' = (Val points, w'')).
Proof.
  apply (updateTpsData_keeps_dates_valid "43114" 3 provider_good
           provider_down 7 fresh_world).
  - split; [unfold maxTime; simpl; lia | constructor].
  - vm_compute. discriminate.
Defined.

(* ===================================================================== *)
(** * The cost of an update *)
(* ===================================================================== *)

(** The clock at the end of the loop: at most the pauses of the attempts
    that are not the last. *)
Ltac clock_arith :=
  rewrite ?Nat2Z.inj_succ in *;
  repeat match goal with
         | H : context [Z.max ?a ?b] |- _ =>
             let m := fresh "m" in
             let Hm := fresh "Hm" in
             remember (Z.max a b) as m eqn:Hm;
             assert (m = a /\ b <= a \/ m = b /\ a <= b) by lia; clear Hm
         | |- context [Z.max ?a ?b] =>
             let m := fresh "m" in
             let Hm := fresh "Hm" in
             remember (Z.max a b) as m eqn:Hm;
             assert (m = a /\ b <= a \/ m = b /\ a <= b) by lia; clear Hm
         end;
  repeat match goal with
         | H : _ /\ _ \/ _ /\ _ |- _ => destruct H as [[? ?]|[? ?]]
         end;
  subst; nia.

Lemma attempts_clock chain n e todo k w r w' :
  (k + todo = n + 1)%nat ->
  attempts chain n todo k e w = (r, w') ->
  clock w' <= clock w
              + 1000 * Z.max 0 (Z.of_nat todo - 1)
                * (2 * Z.of_nat k + Z.of_nat todo - 2).
Proof.
  revert k w. induction todo as [|todo IH]; intros k w Hk.
  - simpl. unfold ret. intros H; inversion H; subst. simpl. lia.
  - rewrite attempts_unfold, turn_unfold.
    destruct (attempt_body chain k n e w) as [[c|err] w1] eqn:Hb;
      destruct (body_extends _ _ _ _ _ _ _ Hb) as (Hc1 & _).
    + destruct c as [|x].
      * intros H. apply IH in H; [|lia]. clock_arith.
      * intros H; inversion H; subst. clock_arith.
    + destruct (Nat.eqb_spec k n) as [->|Hne].
      * intros H; inversion H; subst. cbn [clock logged]. clock_arith.
      * intros H. apply IH in H; [|lia].
        cbn [clock logged paused] in H. clock_arith.
Qed.

(** X9.  A call of [updateTpsData] with a budget of [n] attempts returns
    after at most [n] requests and pauses that add up to at most
    [1000 * n * (n - 1)] ms (6 seconds for the default of 3).  With a
    budget of 0 it returns [null] at once and the world is as it was. *)
Theorem updateTpsData_budget (chain : string) (n : nat) (e : env) (w : world) :
  exists x w' evs,
    updateTpsData chain n e w = (Val x, w')
    /\ trace w' = trace w ++ evs
    /\ (sent evs <= n)%nat
    /\ 0 <= total_pause evs <= 1000 * Z.of_nat n * (Z.of_nat n - 1)
    /\ (n = 0%nat -> x = LoopEnded /\ w' = w /\ evs = []).
Proof.
  unfold updateTpsData.
  destruct (attempts_return chain n e n 1 w) as (x & w' & Hrun).
  destruct (Nat.eq_dec n 0) as [->|Hn].
  - simpl in Hrun. unfold ret in Hrun. inversion Hrun; subst.
    exists LoopEnded, w', []. split; [reflexivity|].
    split; [now rewrite app_nil_r|]. unfold total_pause. simpl.
    repeat split; lia.
  - destruct (attempts_grow chain n e n 1 w x w' ltac:(lia) Hrun)
      as (evs & Hg & Hs & _).
    pose proof (attempts_clock chain n e n 1 w _ w' ltac:(lia) Hrun) as Hhi.
    destruct (attempts_extend chain n e n 1 w _ w' Hrun) as (Hlo & _).
    pose proof (grows_clock _ _ _ Hg) as Hc.
    exists x, w', evs. split; [exact Hrun|]. split; [apply Hg|].
    split; [exact Hs|]. split; [nia|]. intros; lia.
Qed.

(* ===================================================================== *)
(** * The counters of a bulk write *)
(* ===================================================================== *)

(** Whether the collection has a document for the key of an
    operation. *)
Definition present (op : write_op) (s : collection) : bool :=
existsb (has_key (filter_chainId op) (filter_timestamp op)) s.


(** An [updateOne] changes no key: a key is there after it when it was
    there before, and the key of an upsert is there after it. *)
Lemma updateOne_has_key op s c t :
  existsb (has_key c t) (fst (updateOne op s))
  = existsb (has_key c t) s
    || (negb (present op s) && upsert op && has_key c t (inserted op)).
Proof.
  unfold present. induction s as [|r s IH]; simpl.
  - destruct (upsert op); simpl; [|reflexivity].
    fold (inserted op). now rewrite orb_false_r.
  - destruct (has_key (filter_chainId op) (filter_timestamp op) r) eqn:Hr;
      simpl.
    + change (has_key c t {| chainId := chainId r; timestamp := timestamp r;
                value := Num (set_value op);
                lastUpdated := set_lastUpdated op |})
        with (has_key c t r).
      now rewrite orb_false_r.
    + destruct (updateOne op s) as [s' res]. simpl in *. rewrite IH.
      now rewrite orb_assoc.
Qed.

Lemma updateOne_keeps_present op op' s :
  present op' s = true -> present op' (fst (updateOne op s)) = true.
Proof.
  unfold present at 2. rewrite updateOne_has_key. unfold present.
  now intros ->.
Qed.

Lemma updateOne_makes_present op s :
  upsert op = true -> present op (fst (updateOne op s)) = true.
Proof.
  intros Hu. unfold present at 1. rewrite updateOne_has_key, Hu.
  rewrite has_key_inserted. fold (present op s).
  destruct (present op s); reflexivity.
Qed.

Lemma bulkWrite_keeps_present ops op' s :
  present op' s = true -> present op' (fst (bulkWrite ops s)) = true.
Proof.
  revert s. induction ops as [|op ops IH]; intros s H; [exact H|].
  simpl. pose proof (updateOne_keeps_present op op' s H) as H1.
  destruct (updateOne op s) as [s1 r1]. specialize (IH s1 H1).
  destruct (bulkWrite ops s1). exact IH.
Qed.

Lemma bulkWrite_makes_present ops op s :
  Forall (fun o => upsert o = true) ops -> In op ops ->
  present op (fst (bulkWrite ops s)) = true.
Proof.
  intros Hu. revert s. induction Hu as [|o ops Ho _ IH]; intros s;
    [intros []|intros [<-|Hin]].
  - simpl. pose proof (updateOne_makes_present o s Ho) as H1.
    destruct (updateOne o s) as [s1 r1].
    pose proof (bulkWrite_keeps_present ops o s1 H1) as H2.
    destruct (bulkWrite ops s1). exact H2.
  - simpl. destruct (updateOne o s) as [s1 r1]. specialize (IH s1 Hin).
    destruct (bulkWrite ops s1). exact IH.
Qed.




(* ===================================================================== *)
(** * What the snapshot writes *)
(* ===================================================================== *)

(** A line of the [info] level. *)
Definition is_info (ev : event) : bool :=
match ev with
| Log info _ _ => true
| _ => false
end.

(** [m] returns a value that satisfies [P] and leaves nothing but [info]
    lines in the trace. *)
Definition informs {A : Type} (m : M A) (e : env) (w : world) (P : A -> Prop)
  : Prop :=
exists a evs,
  m e w = (Val a, logged w evs) /\ forallb is_info evs = true /\ P a.

Lemma informs_run {A : Type} (m : M A) e w a (P : A -> Prop) :
  m e w = (Val a, w) -> P a -> informs m e w P.
Proof. intros H Ha. exists a, []. now rewrite logged_nil. Qed.

Lemma informs_bind {A B : Type} (m : M A) (k : A -> M B) e w
  (Q : A -> Prop) (P : B -> Prop) :
  informs m e w Q ->
  (forall a evs, Q a -> informs (k a) e (logged w evs) P) ->
  informs (bind m k) e w P.
Proof.
  intros (a & evs & Hm & He & Ha) Hk.
  destruct (Hk a evs Ha) as (b & evs' & Hk' & He' & Hb).
  exists b, (evs ++ evs'). rewrite (bind_val _ _ _ _ _ _ Hm), Hk'.
  rewrite logged_logged, forallb_app, He, He'. auto.
Qed.

Lemma informs_info msg args e w :
  informs (log info msg args) e w (fun _ => True).
Proof. exists tt, [Log info msg args]. repeat split. Qed.

Lemma informs_try {A : Type} (m : M A) handler e w (P : A -> Prop) :
  informs m e w P -> informs (try_catch m handler) e w P.
Proof.
  intros (a & evs & Hm & He & Ha). exists a, evs. unfold try_catch.
  now rewrite Hm.
Qed.

Lemma iso_if_any_run l x e w :
  (l <> [] -> exists tm, new_Date x = Some tm) ->
  exists args, iso_if_any l x e w = (Val args, w).
Proof.
  intros H. unfold iso_if_any. destruct l as [|t l]; [unfold ret; eauto|].
  destruct H as (tm & Htm); [discriminate|].
  unfold bind, Eff.toISOString, Js.toISOString. rewrite Htm.
  unfold ret. eauto.
Qed.

Lemma new_Date_iso_run e w :
  0 <= clock w <= maxTime -> exists s, new_Date_iso e w = (Val s, w).
Proof.
  intros Hc. unfold new_Date_iso, bind, Date_now.
  unfold Eff.toISOString, Js.toISOString, new_Date, of_Z.
  assert (Qle_bool (Qabs (inject_Z (clock w))) (inject_Z maxTime) = true) as ->.
  { apply Qle_bool_iff, Qabs_Qle_condition.
    rewrite <- inject_Z_opp, <- !Zle_Qle. lia. }
  unfold ret. eauto.
Qed.

Lemma mapM_iso_run {A : Type} (f : A -> jsnum) (l : list A) e w :
  Forall (fun x => calendar (f x)) l ->
  mapM (fun x => iso_of_seconds (f x)) l e w
  = (Val (map (fun x => date_of (f x)) l), w).
Proof.
  induction 1 as [|x l Hx _ IH]; [reflexivity|].
  cbn [mapM map]. unfold bind at 1.
  rewrite (iso_of_seconds_run _ e w Hx). unfold bind at 1. rewrite IH.
  reflexivity.
Qed.

(** The age of a timestamp of the last day, in minutes. *)
Lemma age_of_day now t :
  within (now - oneDay) now t ->
  exists a, age_of now t = of_Z a /\ 0 <= a <= 1440.
Proof.
  destruct t as [| | |q]; simpl; try tauto. intros [Hlo Hhi].
  rewrite age_of_fin. eexists. split; [reflexivity|].
  split; [lia|]. apply Z.max_lub; [lia|].
  assert (H : ((inject_Z now - q) / 60 <= inject_Z 1440)%Q).
  { unfold oneDay, Z.sub in Hlo. rewrite inject_Z_plus in Hlo.
    rewrite inject_Z_opp in Hlo.
    change (inject_Z 86400) with 86400%Q in Hlo.
    apply Qle_shift_div_r; [reflexivity|].
    change (inject_Z 1440) with 1440%Q.
    set (N := inject_Z now) in *. clearbody N. lra. }
  apply Qfloor_resp_le in H. now rewrite Qfloor_Z in H.
Qed.

Lemma informs_ret {A : Type} (a : A) e w (P : A -> Prop) :
  P a -> informs (ret a) e w P.
Proof. intros H. now apply (informs_run _ _ _ a). Qed.

Lemma informs_exactly {A : Type} (m : M A) e w a :
  m e w = (Val a, w) -> informs m e w (fun x => x = a).
Proof. intros H. now apply (informs_run m e w a). Qed.

Lemma informs_iso t e w :
  calendar t -> informs (iso_of_seconds t) e w (fun _ => True).
Proof.
  intros Ht. apply (informs_run _ _ _ _ _ (iso_of_seconds_run t e w Ht) I).
Qed.

Lemma informs_iso_if_any l x e w :
  (l <> [] -> exists tm, new_Date x = Some tm) ->
  informs (iso_if_any l x) e w (fun _ => True).
Proof.
  intros H. destruct (iso_if_any_run l x e w H) as (args & Hrun).
  apply (informs_run _ _ _ _ _ Hrun I).
Qed.

Lemma informs_new_Date_iso e w :
  0 <= clock w <= maxTime -> informs new_Date_iso e w (fun _ => True).
Proof.
  intros H. destruct (new_Date_iso_run e w H) as (s & Hrun).
  apply (informs_run _ _ _ _ _ Hrun I).
Qed.

(** In a sane world the snapshot is computed without a warning. *)
Lemma getNetworkTps_informs e w :
  sane w ->
  informs getNetworkTps e w
          (snapshot_of (clock w / 1000)
                       (current (clock w / 1000) (chains w) (tps w))).
Proof.
  intros [Hclock Hstore].
  assert (Hnow : 0 <= clock w / 1000 <= 8640000000000).
  { unfold maxTime in Hclock.
    split; [apply Z.div_pos; lia | apply Z.div_le_upper_bound; lia]. }
  set (now := clock w / 1000) in *.
  assert (Hday : forall t,
            in_range (of_Z (now - 24 * 60 * 60)) (of_Z now) t = true ->
            calendar t).
  { intros t Ht. apply (calendar_within (now - 24 * 60 * 60) now); try lia.
    apply num_le_within. exact Ht. }
  unfold getNetworkTps. apply informs_try.
  eapply informs_bind; [apply informs_exactly; reflexivity|].
  intros chs evs ->.
  eapply informs_bind; [apply informs_exactly; reflexivity|].
  intros t0 evs0 ->.
  cbn [clock chains tps logged]. fold now.
  eapply informs_bind; [apply informs_iso, calendar_of_Z; lia|].
  intros isoNow evs1 _.
  eapply informs_bind; [apply informs_iso, calendar_of_Z; lia|].
  intros isoAgo evs2 _.
  eapply informs_bind; [apply informs_info|]. intros [] evs3 _.
  eapply informs_bind; [apply informs_exactly; reflexivity|].
  intros all evs4 ->.
  cbn [clock chains tps logged].
  set (all := findSince (of_Z (now - 24 * 60 * 60)) (tps w)).
  assert (Hall : Forall (fun r => calendar (timestamp r)) all).
  { apply Forall_forall. intros r Hr. apply filter_In in Hr.
    rewrite Forall_forall in Hstore. apply Hstore, Hr. }
  set (millis := map (fun r => num_scale (timestamp r) 1000) all).
  assert (Hmillis : Forall (fun x => isFinite x = true
                              /\ exists tm, new_Date x = Some tm) millis).
  { apply Forall_forall. intros x Hx. apply in_map_iff in Hx.
    destruct Hx as (r & <- & Hr). apply calendar_scaled.
    rewrite Forall_forall in Hall. now apply Hall. }
  assert (Hfin : Forall (fun x => isFinite x = true) millis).
  { eapply Forall_impl; [|exact Hmillis]. intros x H; apply H. }
  eapply informs_bind.
  { apply informs_iso_if_any. intros Hne.
    pose proof (min_list_in millis Hne Hfin) as Hin.
    rewrite Forall_forall in Hmillis. apply (Hmillis _ Hin). }
  intros oldest evs5 _.
  eapply informs_bind.
  { apply informs_iso_if_any. intros Hne.
    destruct (max_list_spec millis Hne Hfin) as [Hin _].
    rewrite Forall_forall in Hmillis. apply (Hmillis _ Hin). }
  intros newest evs6 _.
  eapply informs_bind; [apply informs_info|]. intros [] evs7 _.
  eapply informs_bind.
  { apply informs_exactly, mapM_queries. }
  intros tpsResults evs8 ->. cbn [clock chains tps logged].
  set (tpsResults := map _ (chains w)).
  eapply informs_bind.
  { apply informs_exactly, filter_results.
    intros r Hr. apply in_map_iff in Hr. destruct Hr as (c & Hc & _).
    apply findLatestWithin_some in Hc. apply Hc. }
  intros kept evs9 ->. rewrite documents_filter.
  change (documents tpsResults) with (current now (chains w) (tps w)).
  set (vr := current now (chains w) (tps w)).
  assert (Hvr : forall r, In r vr ->
            in_range (of_Z (now - 24 * 60 * 60)) (of_Z now) (timestamp r)
            = true).
  { intros r Hr. apply current_in in Hr. apply Hr. }
  eapply informs_bind.
  { apply informs_exactly, (mapM_iso_run timestamp).
    apply Forall_forall. intros r Hr. apply Hday, Hvr, Hr. }
  intros details evs10 _.
  eapply informs_bind; [apply informs_info|]. intros [] evs11 _.
  assert (Hfuture : filter (fun t => num_gt t (of_Z now)) (map timestamp vr)
                    = []).
  { clear - Hvr. induction vr as [|r vr IH]; [reflexivity|].
    cbn [map filter].
    pose proof (Hvr r (or_introl eq_refl)) as Hr. unfold in_range in Hr.
    apply andb_true_iff in Hr. destruct Hr as [_ Hr].
    unfold num_gt at 1. rewrite (num_lt_le _ _ Hr). apply IH.
    intros r' Hr'. apply Hvr. now right. }
  rewrite Hfuture.
  eapply informs_bind; [apply (informs_ret _ _ _ (fun _ => True)), I|].
  intros [] evs12 _.
  assert (Hts : Forall (fun t => isFinite t = true) (map timestamp vr)).
  { apply Forall_forall. intros t Ht. apply in_map_iff in Ht.
    destruct Ht as (r & <- & Hr). specialize (Hday _ (Hvr r Hr)).
    destruct (timestamp r); simpl in Hday; tauto || reflexivity. }
  assert (Hcal : forall t, In t (map timestamp vr) ->
            exists tm, new_Date (num_scale t 1000) = Some tm).
  { intros t Ht. apply in_map_iff in Ht. destruct Ht as (r & <- & Hr).
    apply calendar_scaled, Hday, Hvr, Hr. }
  eapply informs_bind.
  { apply informs_iso_if_any. intros Hne. apply Hcal, min_list_in; assumption. }
  intros oldestValid evs13 _.
  eapply informs_bind.
  { apply informs_iso_if_any. intros Hne. apply Hcal.
    now apply max_list_spec. }
  intros newestValid evs14 _.
  eapply informs_bind; [apply informs_info|]. intros [] evs15 _.
  unfold snapshot_of. destruct vr as [|r0 vr0] eqn:Hvr0.
  - eapply informs_bind; [apply informs_new_Date_iso; exact Hclock|].
    intros updatedAt evs16 _. apply informs_ret. repeat split.
  - set (vr1 := r0 :: vr0) in *.
    destruct (max_list_spec (map timestamp vr1)) as [Hin _];
      [discriminate | exact Hts |].
    apply in_map_iff in Hin. destruct Hin as (r & Hr & Hrin).
    assert (Hold : num_gt
              (max2 (of_Z 0)
                 (floor (num_div (num_sub (of_Z now)
                                    (max_list (map timestamp vr1))) 60)))
              (of_Z (24 * 60)) = false).
    { destruct (age_of_day now (max_list (map timestamp vr1)))
        as (a & Ha & Ha1).
      - rewrite <- Hr. apply in_range_in_day, Hvr, Hrin.
      - unfold age_of in Ha. rewrite Ha. unfold num_gt, num_lt, of_Z.
        rewrite Qle_bool_inject.
        destruct (Z.leb_spec a (24 * 60)); [reflexivity | lia]. }
    rewrite Hold.
    eapply informs_bind; [apply (informs_ret _ _ _ (fun _ => True)), I|].
    intros [] evs16 _.
    eapply informs_bind; [apply informs_new_Date_iso; exact Hclock|].
    intros updatedAt evs17 _.
    eapply informs_bind.
    { apply informs_iso. rewrite <- Hr. apply Hday, Hvr, Hrin. }
    intros lastUpdate evs18 _. apply informs_ret. repeat split.
Qed.

(** X11.  In a world whose clock and stored timestamps are dates,
    [getNetworkTps] only reads: it returns, the collection, the clock and
    the counters of requests and writes are as before, and the lines it
    leaves are all of the [info] level.  None of its three warnings
    (invalid timestamp, future timestamps, old data) is ever written: the
    queries already keep the timestamps within the last day. *)
Theorem getNetworkTps_only_informs (e : env) (w : world) :
  sane w ->
  exists snap w' evs,
    getNetworkTps e w = (Val snap, w')
    /\ trace w' = trace w ++ evs
    /\ forallb is_info evs = true
    /\ tps w' = tps w /\ clock w' = clock w
    /\ requests w' = requests w /\ writes w' = writes w.
Proof.
  intros Hsane.
  destruct (getNetworkTps_informs e w Hsane) as (snap & evs & Hrun & He & _).
  exists snap, (logged w evs), evs. rewrite Hrun. repeat split. exact He.
Qed.

Lemma getNetworkTps_only_informs_witness :
  exists snap w' evs,
    getNetworkTps provider_down sample_world = (Val snap, w')
    /\ trace w' = trace sample_world ++ evs
    /\ forallb is_info evs = true
    /\ tps w' = tps sample_world /\ clock w' = clock sample_world
    /\ requests w' = requests sample_world
    /\ writes w' = writes sample_world.
Proof.
  apply (getNetworkTps_only_informs provider_down sample_world).
  split; [unfold maxTime; simpl; lia|].
  repeat constructor; unfold Qle; simpl; lia.
Defined.

Lemma documents_length l : (List.length (documents l) <= List.length l)%nat.
Proof. induction l as [|[r|] l IH]; simpl; lia. Qed.

(** X12.  In such a world the snapshot counts at most as many chains as
    there are known chains, its timestamp lies within the last day (it
    is [now] when no chain has data), and its [dataAge] is a whole number
    of minutes between 0 and 1440. *)
Theorem network_snapshot_is_bounded (e : env) (w : world) :
  sane w ->
  let now := clock w / 1000 in
  exists snap w',
    getNetworkTps e w = (Val snap, w')
    /\ (Snapshot.chainCount snap <= List.length (chains w))%nat
    /\ within (now - 86400) now (Snapshot.timestamp snap)
    /\ exists a, Snapshot.dataAge snap = of_Z a /\ 0 <= a <= 1440.
Proof.
  intros Hsane now.
  destruct (getNetworkTps_informs e w Hsane) as (snap & evs & Hrun & _ & Hs).
  fold now in Hs. exists snap, (logged w evs). split; [exact Hrun|].
  set (vr := current now (chains w) (tps w)) in *.
  assert (Hlen : (List.length vr <= List.length (chains w))%nat).
  { unfold vr, current. etransitivity; [apply documents_length|].
    now rewrite length_map. }
  unfold snapshot_of in Hs. destruct vr as [|r0 vr0] eqn:Hvr.
  - destruct Hs as (_ & -> & -> & ->). split; [lia|]. split.
    + simpl. rewrite <- !Zle_Qle. lia.
    + exists 0. split; [reflexivity | lia].
  - destruct Hs as (_ & -> & -> & ->). split; [exact Hlen|].
    assert (Hts : Forall (fun t => within (now - oneDay) now t)
                         (map timestamp (r0 :: vr0))).
    { apply Forall_forall. intros t Ht. apply in_map_iff in Ht.
      destruct Ht as (r & <- & Hr). rewrite <- Hvr in Hr.
      apply current_in in Hr. apply in_range_in_day, Hr. }
    assert (Hfin : Forall (fun t => isFinite t = true)
                          (map timestamp (r0 :: vr0))).
    { eapply Forall_impl; [|exact Hts]. intros t Ht.
      destruct t; simpl in Ht; tauto || reflexivity. }
    destruct (max_list_spec (map timestamp (r0 :: vr0))) as [Hin _];
      [discriminate | exact Hfin |].
    rewrite Forall_forall in Hts. specialize (Hts _ Hin).
    split; [exact Hts|]. now apply age_of_day.
Qed.

Lemma network_snapshot_is_bounded_witness :
  let now := clock sample_world / 1000 in
  exists snap w',
    getNetworkTps provider_down sample_world = (Val snap, w')
    /\ (Snapshot.chainCount snap <= List.length (chains sample_world))%nat
    /\ within (now - 86400) now (Snapshot.timestamp snap)
    /\ exists a, Snapshot.dataAge snap = of_Z a /\ 0 <= a <= 1440.
Proof.
  apply (network_snapshot_is_bounded provider_down sample_world).
  split; [unfold maxTime; simpl; lia|].
  repeat constructor; unfold Qle; simpl; lia.
Defined.

(* ===================================================================== *)
(** * The counts of the network history *)
(* ===================================================================== *)

Lemma list_sum_pointwise {A : Type} (f g : A -> nat) (l : list A) :
  list_sum (map (fun x => f x + g x)%nat l)
  = (list_sum (map f l) + list_sum (map g l))%nat.
Proof. induction l as [|x l IH]; simpl; lia. Qed.

(** Among numbers that are pairwise apart, exactly one equals a number
    they cover. *)
Lemma one_hit (t : jsnum) (D : list jsnum) :
  ForallOrdPairs (fun u v => num_eqb u v = false) D ->
  (exists u, In u D /\ num_eqb t u = true) ->
  list_sum (map (fun u => if num_eqb t u then 1 else 0)%nat D) = 1%nat.
Proof.
  induction 1 as [|u0 D Hu0 _ IH]; intros (u & Hin & Hu); [destruct Hin|].
  simpl. destruct (num_eqb t u0) eqn:H0.
  - assert (list_sum (map (fun u => if num_eqb t u then 1 else 0)%nat D)
            = 0%nat) as ->; [|reflexivity].
    clear - Hu0 H0. induction Hu0 as [|v D Hv _ IH]; [reflexivity|]. simpl.
    destruct (num_eqb t v) eqn:Hv'; [|exact IH].
    rewrite num_eqb_sym in H0.
    rewrite (num_eqb_trans _ _ _ H0 Hv') in Hv. discriminate.
  - destruct Hin as [->|Hin]; [congruence|]. simpl. apply IH. eauto.
Qed.

(** Groups by numbers that are pairwise apart and cover the timestamps
    of the documents hold each document once. *)
Lemma members_partition (D : list jsnum) (docs : list TpsRecord) :
  ForallOrdPairs (fun u v => num_eqb u v = false) D ->
  (forall r, In r docs -> exists u, In u D /\ num_eqb (timestamp r) u = true) ->
  list_sum (map (fun u => List.length (members u docs)) D)
  = List.length docs.
Proof.
  intros HD. induction docs as [|r docs IH]; intros Hcov.
  - clear. induction D as [|u D IHD]; simpl; auto.
  - assert (Heq : map (fun u => List.length (members u (r :: docs))) D
                  = map (fun u => (if num_eqb (timestamp r) u then 1 else 0)
                                  + List.length (members u docs))%nat D).
    { apply map_ext. intros u. unfold members. simpl.
      destruct (num_eqb (timestamp r) u); reflexivity. }
    rewrite Heq, list_sum_pointwise, IH, one_hit; simpl; auto.
    + apply Hcov. now left.
    + intros r' Hr'. apply Hcov. now right.
Qed.

Lemma group_stage_counts docs :
  list_sum (map g_chainCount (group_stage docs)) = List.length docs.
Proof.
  unfold group_stage. rewrite map_map. simpl.
  apply members_partition; [apply distinct_apart|].
  intros r Hr. apply distinct_covers. now apply in_map.
Qed.

Lemma sort_stage_counts gs :
  list_sum (map g_chainCount (sort_stage gs))
  = list_sum (map g_chainCount gs).
Proof.
  induction gs as [|g gs IH]; [reflexivity|]. simpl. rewrite <- IH.
  generalize (sort_stage gs). intros l.
  induction l as [|h l IHl]; simpl; [reflexivity|].
  destruct (bson_leb _ _); simpl; lia.
Qed.

Lemma aggregate_counts chainIds cutoff s :
  list_sum (map g_chainCount (aggregate chainIds cutoff s))
  = List.length (filter (matching chainIds cutoff) s).
Proof.
  unfold aggregate. rewrite sort_stage_counts. unfold project_stage.
  rewrite map_map. simpl. apply group_stage_counts.
Qed.

(** X13.  With stored timestamps that are dates, the history of the
    network only reads (the collection, the clock and the counters are
    as before), and its points hold every document of the known chains
    from the cutoff on exactly once: their [chainCount]s add up to the
    number of these documents, and there are no more points than
    documents. *)
Theorem network_history_counts_each_document (days : Q) (e : env)
  (w : world) :
  Forall (fun r => calendar (timestamp r)) (tps w) ->
  let cutoff := Fin (inject_Z (clock w / 1000) - days * inject_Z 86400) in
  let matched := filter (matching (chains w) cutoff) (tps w) in
  exists points w',
    getNetworkTpsHistory days e w = (Val points, w')
    /\ list_sum (map HistoryPoint.chainCount points) = List.length matched
    /\ (List.length points <= List.length matched)%nat
    /\ tps w' = tps w /\ clock w' = clock w
    /\ requests w' = requests w /\ writes w' = writes w.
Proof.
  intros Hstore cutoff matched.
  destruct (getNetworkTpsHistory_computes days e w Hstore)
    as (points & evs & Hrun & Hpoints).
  change (24 * 60 * 60) with 86400 in Hpoints. fold cutoff in Hpoints.
  exists points, (logged w evs). split; [exact Hrun|].
  assert (Hsum : list_sum (map HistoryPoint.chainCount points)
                 = List.length matched).
  { rewrite Hpoints, map_map. simpl. apply aggregate_counts. }
  split; [exact Hsum|]. split; [|repeat split].
  rewrite <- Hsum, Hpoints, map_map, length_map. simpl.
  destruct (aggregate_spec (chains w) cutoff (tps w)) as (_ & Hgs & _).
  fold matched in Hgs.
  assert (Hle : forall gs,
            (forall g, In g gs -> (1 <= g_chainCount g)%nat) ->
            (List.length gs <= list_sum (map g_chainCount gs))%nat).
  { clear. induction gs as [|g gs IH]; intros H; simpl; [lia|].
    pose proof (H g (or_introl eq_refl)).
    assert (List.length gs <= list_sum (map g_chainCount gs))%nat
      by (apply IH; intros h Hh; apply H; now right).
    lia. }
  apply Hle. intros g Hg. destruct (Hgs g Hg) as (Hin & _ & Hcount).
  rewrite Hcount. apply in_map_iff in Hin. destruct Hin as (r & Hts & Hr).
  assert (In r (members (g_timestamp g) matched)) as Hm.
  { apply filter_In. split; [assumption|]. rewrite Hts.
    apply num_eqb_refl. }
  destruct (members (g_timestamp g) matched); [destruct Hm | simpl; lia].
Qed.

Lemma network_history_counts_each_document_witness :
  let cutoff :=
    Fin (inject_Z (clock sample_world / 1000) - 7 * inject_Z 86400) in
  let matched :=
    filter (matching (chains sample_world) cutoff) (tps sample_world) in
  exists points w',
    getNetworkTpsHistory 7 provider_down sample_world = (Val points, w')
    /\ list_sum (map HistoryPoint.chainCount points) = List.length matched
    /\ (List.length points <= List.length matched)%nat
    /\ tps w' = tps sample_world /\ clock w' = clock sample_world
    /\ requests w' = requests sample_world
    /\ writes w' = writes sample_world.
Proof.
  apply (network_history_counts_each_document 7 provider_down sample_world).
  repeat constructor; unfold Qle; simpl; lia.
Defined.

(* ===================================================================== *)
(** * What the refresh route reports *)
(* ===================================================================== *)

(** The two ways of [getLatestTps]. *)
Lemma getLatestTps_cases chain e w :
  (exists r, findLatest chain (tps w) = Some r
             /\ getLatestTps chain e w = (Val (Some (select_fields r)), w))
  \/ (findLatest chain (tps w) = None
      /\ exists w1 evs,
           getLatestTps chain e w
           = (Val (option_map select_fields (findLatest chain (tps w1))), w1)
           /\ grows w evs w1 /\ (1 <= sent evs <= 3)%nat).
Proof.
  destruct (findLatest chain (tps w)) as [r|] eqn:Hq.
  - left. exists r. split; [reflexivity|].
    unfold getLatestTps, try_catch, bind at 1, TPS_read at 1. rewrite Hq.
    reflexivity.
  - right. split; [reflexivity|].
    destruct (updateTpsData_sends chain 3 e (logged w [fetching_line chain])
                ltac:(lia)) as (x & w1 & evs & Hrun & Hg & Hs).
    exists w1, (fetching_line chain :: evs). split; [|split].
    + unfold getLatestTps, try_catch, bind at 1, TPS_read at 1. rewrite Hq.
      unfold bind at 1, log, emit. unfold bind at 1.
      change {| tps := tps w; chains := chains w; clock := clock w;
                requests := requests w; writes := writes w;
                trace := trace w ++
                  [Log info "No TPS data found, fetching from API..."
                     [AStr chain]] |}
        with (logged w [fetching_line chain]).
      rewrite Hrun. reflexivity.
    + change (fetching_line chain :: evs)
        with ([fetching_line chain] ++ evs).
      eapply grows_trans; [|exact Hg]. now apply grows_logged.
    + simpl. exact Hs.
Qed.

(** What the handler does once the key is accepted. *)
Lemma updateChainTps_reports chain e w :
  exists w' evs,
    updateChainTps chain e w
    = (Val (Updated chain
              (option_map select_fields (findLatest chain (tps w')))), w')
    /\ grows w evs w'
    /\ (1 <= sent evs <= 6)%nat
    /\ ((exists r, In r (tps w) /\ chainId r = chain) ->
        (sent evs <= 3)%nat).
Proof.
  destruct (updateTpsData_sends chain 3 e w ltac:(lia))
    as (x & w1 & evs1 & Hrun & Hg1 & Hs1).
  pose proof (updateTpsData_extends chain 3 e w) as Hext.
  rewrite Hrun in Hext. cbn [snd] in Hext. destruct Hext as (_ & Hext).
  unfold updateChainTps, try_catch, bind at 1. rewrite Hrun.
  unfold bind at 1.
  destruct (getLatestTps_cases chain e w1)
    as [(r & Hq & Hget)|(Hq & w2 & evs2 & Hget & Hg2 & Hs2)];
    rewrite Hget; unfold ret.
  - exists w1, evs1. rewrite Hq. split; [reflexivity|].
    split; [exact Hg1|]. split; lia.
  - exists w2, (evs1 ++ evs2). split; [reflexivity|].
    split; [eapply grows_trans; eassumption|]. rewrite sent_app.
    split; [lia|]. intros (r & Hr & Hc).
    destruct (extends_keeps_keys _ _ _ _ r Hext Hr) as (r' & Hr' & Hc' & _).
    rewrite findLatest_none in Hq. destruct (Hq r' Hr'). congruence.
Qed.

(** X14.  Whenever the refresh route answers a request that carries an
    accepted key, its answer is the success with the latest document of
    the chain in the collection as the refresh left it ([null] when
    there is none).  One to six requests were sent, and at most three
    when the collection had a document of the chain to begin with: the
    second round of attempts is for a chain that is still without data
    after the first. *)
Theorem refresh_reports_the_latest_point (apiKey : option string)
  (chain : string) (e : env) (w w' : world) (answer : response) :
  key_refused apiKey (UPDATE_API_KEY e) = false ->
  post_update_chain_tps apiKey chain e w = (Val answer, w') ->
  answer = Updated chain
             (option_map select_fields (findLatest chain (tps w')))
  /\ exists evs,
       trace w' = trace w ++ evs
       /\ requests w' = (requests w + sent evs)%nat
       /\ (1 <= sent evs <= 6)%nat
       /\ ((exists r, In r (tps w) /\ chainId r = chain) ->
           (sent evs <= 3)%nat).
Proof.
  intros Hkey. unfold post_update_chain_tps. rewrite Hkey.
  destruct (updateChainTps_reports chain e w)
    as (w1 & evs & Hrun & Hg & Hs & Hhad).
  rewrite Hrun. intros Hret. inversion Hret; subst w1.
  split; [reflexivity|]. exists evs.
  split; [apply Hg|]. split; [apply Hg|]. split; [exact Hs | exact Hhad].
Qed.

Lemma refresh_reports_the_latest_point_witness :
  exists w' latest evs,
    post_update_chain_tps (Some "secret") "43114" provider_good fresh_world
    = (Val (Updated "43114" latest), w')
    /\ latest = option_map select_fields (findLatest "43114" (tps w'))
    /\ trace w' = trace fresh_world ++ evs
    /\ (1 <= sent evs <= 6)%nat.
Proof.
  exists (snd (post_update_chain_tps (Some "secret") "43114" provider_good
                                     fresh_world)).
  eexists.
  destruct (refresh_reports_the_latest_point (Some "secret") "43114"
              provider_good fresh_world
              (snd (post_update_chain_tps (Some "secret") "43114"
                                          provider_good fresh_world))
              (Updated "43114"
                 (Some (of_Z (sample_now - 10), Num (Fin (7 # 2))))))
    as (Hans & evs & Ht & _ & Hs & _).
  - reflexivity.
  - vm_compute. reflexivity.
  - exists evs. split; [vm_compute; reflexivity|].
    split; [vm_compute; reflexivity|]. split; [exact Ht | exact Hs].
Defined.

(* ===================================================================== *)
(** * The latest point and the history of a chain *)
(* ===================================================================== *)

Lemma head_sort_desc l : hd_error (sort_desc l) = latest l.
Proof.
  induction l as [|r l IH]; [reflexivity|]. simpl. rewrite <- IH.
  destruct (sort_desc l) as [|h t]; [reflexivity|]. simpl.
  destruct (bson_leb (timestamp h) (timestamp r)); reflexivity.
Qed.

(** The latest document of those that pass a test is the latest of all,
    when the test is passed by whatever exceeds a document that passes
    it. *)
Lemma latest_filter_up (p : TpsRecord -> bool) l r :
  (forall x y, p x = true ->
     bson_leb (timestamp x) (timestamp y) = true -> p y = true) ->
  latest (filter p l) = Some r -> latest l = Some r.
Proof.
  intros Hup. revert r. induction l as [|x l IH]; intros r; [discriminate|].
  simpl. destruct (p x) eqn:Hx.
  - simpl. destruct (latest (filter p l)) as [r'|] eqn:Hf.
    + rewrite (IH r' eq_refl). auto.
    + intros H; inversion H; subst r.
      destruct (latest l) as [r'|] eqn:Hl; [|reflexivity].
      destruct (bson_leb (timestamp r') (timestamp x)) eqn:Hle;
        [reflexivity|].
      exfalso. apply latest_some in Hl. destruct Hl as [Hin _].
      assert (p r' = true).
      { apply (Hup x); [exact Hx|].
        destruct (bson_leb_total (timestamp x) (timestamp r')); congruence. }
      assert (In r' (filter p l)) as Hin' by (apply filter_In; auto).
      apply latest_none in Hf. rewrite Hf in Hin'. destruct Hin'.
  - intros Hf. rewrite (IH r Hf).
    destruct (bson_leb (timestamp r) (timestamp x)) eqn:Hle; [|reflexivity].
    exfalso. apply latest_some in Hf. destruct Hf as [Hin _].
    apply filter_In in Hin. destruct Hin as [_ Hr].
    rewrite (Hup r x Hr Hle) in Hx. discriminate.
Qed.

Lemma filter_andb {A : Type} (a b : A -> bool) l :
  filter (fun x => a x && b x) l = filter b (filter a l).
Proof.
  induction l as [|x l IH]; [reflexivity|]. simpl.
  destruct (a x); simpl; [destruct (b x)|]; now rewrite IH.
Qed.

Lemma findHistory_head c (cutoff : Q) s r :
  hd_error (findHistory c (Fin cutoff) s) = Some r ->
  findLatest c s = Some r.
Proof.
  unfold findHistory, findLatest. rewrite head_sort_desc, filter_andb.
  apply latest_filter_up. intros x y Hx Hxy.
  destruct (timestamp x) as [| | |qx]; try discriminate;
    destruct (timestamp y) as [| | |qy]; try discriminate; auto.
  simpl in *. rewrite Qle_bool_iff in *. eapply Qle_trans; eassumption.
Qed.

(** X15.  For a chain that has documents, no two of them with the same
    timestamp, the first point of a history that is not empty is the
    point [getLatestTps] returns: the window of the history cuts off old
    documents only. *)
Theorem history_starts_with_the_latest (chain : string) (days : Q) (e : env)
  (w : world) (r0 : TpsRecord) :
  unique_keys (tps w) ->
  In r0 (tps w) -> chainId r0 = chain ->
  exists points w1,
    getTpsHistory chain days e w = (Val points, w1)
    /\ (points <> [] ->
        getLatestTps chain e w = (Val (hd_error points), w)).
Proof.
  intros _ Hin Hc.
  assert (Hcount : (countDocuments chain (tps w) =? 0)%nat = false).
  { apply Nat.eqb_neq. rewrite countDocuments_zero. intros H.
    exact (H r0 Hin Hc). }
  eexists. eexists. split.
  - unfold getTpsHistory, try_catch, bind at 1, TPS_read at 1.
    unfold bind at 1. rewrite Hcount. unfold ret at 1.
    unfold bind at 1, Date_now at 1. unfold bind at 1, TPS_read at 1.
    unfold bind at 1, log, emit. unfold ret. reflexivity.
  - set (docs := findHistory chain _ (tps w)). intros Hne.
    destruct docs as [|r docs'] eqn:Hd; [now destruct Hne|].
    assert (Hq : findLatest chain (tps w) = Some r).
    { apply (findHistory_head chain
               (inject_Z (clock w / 1000) - days * inject_Z (24 * 60 * 60))).
      fold docs. rewrite Hd. reflexivity. }
    unfold getLatestTps, try_catch, bind at 1, TPS_read at 1. rewrite Hq.
    reflexivity.
Qed.

Lemma history_starts_with_the_latest_witness :
  exists points w1,
    getTpsHistory "43114" 30 provider_down sample_world = (Val points, w1)
    /\ (points <> [] ->
        getLatestTps "43114" provider_down sample_world
        = (Val (hd_error points), sample_world)).
Proof.
  apply (history_starts_with_the_latest "43114" 30 provider_down sample_world
           (mkTps "43114" (of_Z (sample_now - 100)) (Num (Fin (5 # 1))) 0)).
  - exact unique_keys_sample.
  - simpl. auto.
  - reflexivity.
Defined.

(* ===================================================================== *)
(** * An update, then a read *)
(* ===================================================================== *)

(** An attempt whose reply has points the validator keeps and whose
    write goes through ends the call; the collection is the one the bulk
    write of these points gives. *)
Lemma attempt_applies chain n todo k e w results :
  metrics e chain (requests w) = Resolved (Results results) ->
  Forall (fun item => exists p, item = Some p
                                /\ off_calendar (clock w / 1000) p = false)
         results ->
  db_write e (writes w) = WriteOk ->
  let kept := the_points (filter (keeps_item (clock w / 1000)) results) in
  kept <> [] ->
  exists res w',
    attempts chain n (S todo) k e w = (Val (Applied res), w')
    /\ tps w' = fst (bulkWrite (map (op_of chain (clock w)) kept) (tps w)).
Proof.
  intros Hm Hcal Hok kept Hne.
  destruct (proj2 (filter_returns_iff chain (clock w / 1000) results e
                     (validating chain k n results w)) Hcal)
    as (valid & w1 & Hf).
  destruct (filter_returns chain (clock w / 1000) results e _ _ _ Hf)
    as [Hv _].
  destruct (filter_keeps_world _ _ _ _ _ _ _ _ Hf)
    as (Htps & Hclock & Hwrites & _).
  simpl in Htps, Hclock, Hwrites.
  assert (Hsome : Forall (fun it => it <> None) valid).
  { rewrite Hv. apply filter_keeps_some. }
  rewrite attempts_unfold, turn_unfold.
  rewrite (attempt_body_results _ _ _ _ _ _ Hm), Hf.
  destruct valid as [|item valid'] eqn:Hvalid.
  { exfalso. apply Hne. unfold kept. now rewrite <- Hv. }
  rewrite (mapM_toUpdateOne chain e _ w1 Hsome).
  unfold TPS_bulkWrite. rewrite Hwrites, Hok, Htps, Hclock, Hv.
  fold kept. destruct (bulkWrite (map (op_of chain (clock w)) kept) (tps w))
    as [s' res].
  exists res. eexists. split; reflexivity.
Qed.









(** X16.  When the first reply of the provider has points the validator
    keeps and the write goes through, every kept point has its document
    in the collection afterwards, under the chain and the timestamp of
    the point; and [getLatestTps] then answers from the collection,
    without a request, with a point at least as late as every kept
    point. *)
Theorem update_then_read (chain : string) (m : nat) (e e' : env) (w : world)
  (results : list (option raw_point)) :
  metrics e chain (requests w) = Resolved (Results results) ->
  Forall (fun item => exists p, item = Some p
                                /\ off_calendar (clock w / 1000) p = false)
         results ->
  db_write e (writes w) = WriteOk ->
  let kept := the_points (filter (keeps_item (clock w / 1000)) results) in
  kept <> [] ->
  let w' := snd (updateTpsData chain (S m) e w) in
  (forall p, In p kept ->
     exists r, In r (tps w') /\ chainId r = chain
               /\ num_eqb (timestamp r) (Number (item_timestamp p)) = true)
  /\ exists r,
       getLatestTps chain e' w' = (Val (Some (timestamp r, value r)), w')
       /\ forall p, In p kept ->
            bson_leb (Number (item_timestamp p)) (timestamp r) = true.
Proof.
  intros Hm Hcal Hok kept Hne w'.
  destruct (attempt_applies chain (S m) m 1 e w results Hm Hcal Hok Hne)
    as (res & w1 & Hrun & Hstore).
  unfold w', updateTpsData. rewrite Hrun. cbn [snd]. fold kept in Hstore.
  assert (Hdocs : forall p, In p kept ->
            exists r, In r (tps w1) /\ chainId r = chain
              /\ num_eqb (timestamp r) (Number (item_timestamp p)) = true).
  { intros p Hp.
    assert (Hpres : present (op_of chain (clock w) p) (tps w1) = true).
    { rewrite Hstore. apply bulkWrite_makes_present.
      - apply Forall_forall. intros o Ho. apply in_map_iff in Ho.
        destruct Ho as (p' & <- & _). reflexivity.
      - now apply in_map. }
    unfold present in Hpres. apply existsb_exists in Hpres.
    destruct Hpres as (r & Hr & Hk). unfold has_key in Hk.
    apply andb_true_iff in Hk. destruct Hk as [Hk1 Hk2].
    apply String.eqb_eq in Hk1. eauto. }
  split; [exact Hdocs|].
  destruct kept as [|p0 kept'] eqn:Hkept; [now destruct Hne|].
  destruct (Hdocs p0 (or_introl eq_refl)) as (r0 & Hr0 & Hc0 & _).
  destruct (findLatest chain (tps w1)) as [r|] eqn:Hq.
  - exists r. split.
    + unfold getLatestTps, try_catch, bind at 1, TPS_read at 1. rewrite Hq.
      reflexivity.
    + intros p Hp. destruct (Hdocs p Hp) as (rp & Hrp & Hcp & Hkp).
      apply findLatest_some in Hq. destruct Hq as (_ & _ & Hmax).
      eapply bson_leb_trans; [|apply (Hmax rp Hrp Hcp)].
      apply num_eqb_leb. now rewrite num_eqb_sym.
  - rewrite findLatest_none in Hq. destruct (Hq r0 Hr0 Hc0).
Qed.

Lemma update_then_read_witness :
  let kept :=
    the_points (filter (keeps_item (clock fresh_world / 1000))
                       [Some (good_point sample_now)]) in
  let w' := snd (updateTpsData "43114" 3 provider_good fresh_world) in
  (forall p, In p kept ->
     exists r, In r (tps w') /\ chainId r = "43114"
               /\ num_eqb (timestamp r) (Number (item_timestamp p)) = true)
  /\ exists r,
       getLatestTps "43114" provider_down w'
       = (Val (Some (timestamp r, value r)), w')
       /\ forall p, In p kept ->
            bson_leb (Number (item_timestamp p)) (timestamp r) = true.
Proof.
  apply (update_then_read "43114" 2 provider_good provider_down fresh_world
           [Some (good_point sample_now)]).
  - reflexivity.
  - repeat constructor. exists (good_point sample_now).
    split; reflexivity.
  - reflexivity.
  - discriminate.
Defined.

(* ===================================================================== *)
(** * Documents beyond the calendar *)
(* ===================================================================== *)

(** A timestamp in seconds that lies after the last date, and a time in
    milliseconds that does. *)
Definition too_late (x : jsnum) : Prop :=
match x with
| Fin q => (inject_Z maxTime < q)%Q
| PosInf => True
| _ => False
end.

Definition beyond (t : jsnum) : Prop := too_late (num_scale t 1000).

Lemma too_late_no_date x : too_late x -> new_Date x = None.
Proof.
  destruct x as [| | |q]; simpl; try tauto. intros H.
  destruct (Qle_bool (Qabs q) (inject_Z maxTime)) eqn:Hle; [|reflexivity].
  apply Qle_bool_iff in Hle. pose proof (Qle_Qabs q). lra.
Qed.

(** With a clock within the calendar, the snapshot has its dates exactly
    when no document of the collection lies beyond the calendar. *)
Lemma dated_none_beyond w :
  0 <= clock w <= maxTime ->
  dated w <-> Forall (fun r => ~ beyond (timestamp r)) (tps w).
Proof.
  intros Hclock. unfold dated.
  assert (Hnow : 0 <= clock w / 1000 <= 8640000000000).
  { unfold maxTime in Hclock.
    split; [apply Z.div_pos; lia | apply Z.div_le_upper_bound; lia]. }
  set (lo := clock w / 1000 - 24 * 60 * 60).
  assert (Hlo : (inject_Z (-86400) <= inject_Z lo)%Q
                /\ (inject_Z lo <= inject_Z 8640000000000)%Q).
  { rewrite <- !Zle_Qle. unfold lo. lia. }
  assert (Hmax : (inject_Z maxTime == 8640000000000 * 1000)%Q)
    by reflexivity.
  assert (H86 : (inject_Z (-86400) == -86400)%Q) by reflexivity.
  assert (H864 : (inject_Z 8640000000000 == 8640000000000)%Q)
    by reflexivity.
  destruct Hlo as [Hlo1 Hlo2]. unfold of_Z. revert Hlo1 Hlo2.
  generalize (inject_Z lo). intros l Hlo1 Hlo2.
  assert (Hone : forall t,
            (num_le (Fin l) t = true -> calendar t) <-> ~ beyond t).
  { intros [| | |q]; unfold beyond; simpl.
    - split; [tauto | discriminate].
    - split; [intros H _; now apply H | tauto].
    - split; [tauto | discriminate].
    - rewrite Qle_bool_iff. revert Hmax. generalize (inject_Z maxTime).
      intros mx Hmax. split.
      + intros H Hb. destruct (Qlt_le_dec q l) as [Hlt|Hge]; [lra|].
        specialize (H Hge). lra.
      + intros Hb Hge. split; [lra|].
        destruct (Qlt_le_dec mx (q * 1000)) as [Hlt|Hle]; [tauto | exact Hle]. }
  split.
  - intros [_ Hall]. apply Forall_forall. intros r Hr. apply Hone.
    intros Hle. rewrite Forall_forall in Hall. apply Hall.
    apply filter_In. split; [exact Hr | exact Hle].
  - intros Hall. split; [exact Hclock|]. apply Forall_forall.
    intros r Hr. apply filter_In in Hr. destruct Hr as [Hr Hle].
    rewrite Forall_forall in Hall. exact (proj2 (Hone _) (Hall r Hr) Hle).
Qed.

Lemma too_late_le x m : too_late x -> num_le x m = true -> too_late m.
Proof.
  destruct x as [| | |q], m as [| | |qm]; simpl; try tauto; try discriminate.
  intros H Hle. apply Qle_bool_iff in Hle. lra.
Qed.

Lemma iso_of_seconds_beyond t e w :
  beyond t -> iso_of_seconds t e w = (Exc RangeError, w).
Proof.
  intros H. unfold iso_of_seconds, Eff.toISOString.
  now rewrite (too_late_no_date _ H).
Qed.

(** The greatest of numbers none of which is [NaN]. *)
Lemma max_fold_ge l a :
  isNaN a = false -> Forall (fun t => isNaN t = false) l ->
  let m := fold_left max2 l a in
  isNaN m = false /\ num_le a m = true
  /\ forall t, In t l -> num_le t m = true.
Proof.
  revert a. induction l as [|t l IH]; intros a Ha Hl; simpl.
  - split; [exact Ha|]. split; [now apply num_le_refl | intros t []].
  - inversion Hl as [|? ? Ht Hl']; subst.
    assert (Hm : isNaN (max2 a t) = false
                 /\ num_le a (max2 a t) = true /\ num_le t (max2 a t) = true).
    { assert (max2 a t = if num_le a t then t else a) as ->
        by (destruct a, t; try discriminate; reflexivity).
      destruct (num_le a t) eqn:Hle.
      - repeat split; auto using num_le_refl.
      - repeat split; auto using num_le_refl.
        destruct (num_le_total a t Ha Ht); congruence. }
    destruct Hm as (Hn & Ha' & Ht').
    destruct (IH (max2 a t) Hn Hl') as (Hn' & Hle & Hall).
    split; [exact Hn'|]. split; [eapply num_le_trans; eassumption|].
    intros t' [<-|Ht'']; [eapply num_le_trans; eassumption | auto].
Qed.

Lemma iso_if_any_total l x e w :
  (exists args, iso_if_any l x e w = (Val args, w))
  \/ iso_if_any l x e w = (Exc RangeError, w).
Proof.
  unfold iso_if_any. destruct l as [|t l]; [left; unfold ret; eauto|].
  unfold bind, Eff.toISOString. destruct (Js.toISOString (new_Date x)).
  - left. unfold ret. eauto.
  - now right.
Qed.

Lemma iso_if_any_late l x e w :
  l <> [] -> too_late x -> iso_if_any l x e w = (Exc RangeError, w).
Proof.
  intros Hne Hx. unfold iso_if_any. destruct l as [|t l]; [congruence|].
  unfold bind, Eff.toISOString. now rewrite (too_late_no_date _ Hx).
Qed.

(** X17.  One document with a timestamp after the last date, of any
    chain, known or not, is enough for [getNetworkTps] to throw: the line
    that logs the time range of the documents of the last day asks for
    the date of the newest of them.  The RangeError is logged and thrown
    again as it is, and the collection is left alone. *)
Theorem getNetworkTps_throws_on_a_late_document (e : env) (w : world)
  (r : TpsRecord) :
  0 <= clock w <= maxTime ->
  In r (tps w) -> beyond (timestamp r) ->
  exists w',
    getNetworkTps e w = (Exc RangeError, w')
    /\ tps w' = tps w /\ requests w' = requests w /\ writes w' = writes w.
Proof.
  intros Hclock Hin Hlate.
  assert (Hnow : 0 <= clock w / 1000 <= 8640000000000).
  { unfold maxTime in Hclock.
    split; [apply Z.div_pos; lia | apply Z.div_le_upper_bound; lia]. }
  set (now := clock w / 1000) in *.
  set (lo := of_Z (now - 24 * 60 * 60)).
  set (all := findSince lo (tps w)).
  set (millis := map (fun r0 => num_scale (timestamp r0) 1000) all).
  assert (Hr : In r all).
  { apply filter_In. split; [assumption|]. unfold beyond, too_late in Hlate.
    unfold lo, of_Z. destruct (timestamp r) as [| | |q]; simpl in *;
      try tauto. apply Qle_bool_iff.
    unfold maxTime in Hlate.
    change (inject_Z 8640000000000000) with (8640000000000 * 1000)%Q in Hlate.
    match goal with
    | |- (inject_Z ?z <= _)%Q =>
        assert (H : (inject_Z z <= inject_Z 8640000000000)%Q)
          by (rewrite <- Zle_Qle; lia);
        change (inject_Z 8640000000000) with 8640000000000%Q in H;
        revert H; generalize (inject_Z z); intros x H
    end.
    lra. }
  assert (Hne : millis <> []).
  { unfold millis. destruct all; [destruct Hr | discriminate]. }
  assert (Hnan : Forall (fun t => isNaN t = false) millis).
  { apply Forall_forall. intros x Hx. apply in_map_iff in Hx.
    destruct Hx as (r0 & <- & Hr0). apply filter_In in Hr0.
    destruct Hr0 as [_ Hr0]. unfold lo, of_Z in Hr0.
    destruct (timestamp r0); simpl in *; congruence. }
  assert (Hmax : too_late (max_list millis)).
  { destruct (max_fold_ge millis NegInf eq_refl Hnan) as (_ & _ & Hall).
    apply (too_late_le (num_scale (timestamp r) 1000)); [exact Hlate|].
    apply Hall.
    exact (in_map (fun r0 => num_scale (timestamp r0) 1000) all r Hr). }
  set (w1 := logged w
               [Log info "Network TPS calculation - Time boundaries:"
                  [AStr (date_of (of_Z now));
                   AStr (date_of (of_Z (now - 24 * 60 * 60)));
                   ANum (of_Z now); ANum (of_Z (now - 24 * 60 * 60))]]).
  assert (Hbody : exists w2,
            getNetworkTps e w = (Exc RangeError, logged w1 w2)).
  { unfold getNetworkTps, try_catch.
    unfold bind at 1, Chain_find at 1.
    unfold bind at 1, Date_now at 1. fold now.
    unfold bind at 1.
    rewrite (iso_of_seconds_run (of_Z now) e w)
      by (apply calendar_of_Z; lia).
    unfold bind at 1.
    rewrite (iso_of_seconds_run (of_Z (now - 24 * 60 * 60)) e w)
      by (apply calendar_of_Z; lia).
    unfold bind at 1, log at 1, emit at 1. fold (logged w
               [Log info "Network TPS calculation - Time boundaries:"
                  [AStr (date_of (of_Z now));
                   AStr (date_of (of_Z (now - 24 * 60 * 60)));
                   ANum (of_Z now); ANum (of_Z (now - 24 * 60 * 60))]]).
    fold w1. unfold bind at 1, TPS_read at 1.
    change (tps w1) with (tps w). fold lo. fold all. fold millis.
    unfold bind at 1.
    destruct (iso_if_any_total millis (min_list millis) e w1)
      as [(args & ->)| ->].
    - unfold bind at 1. rewrite (iso_if_any_late millis _ e w1 Hne Hmax).
      unfold bind, log, emit, throw. eexists. reflexivity.
    - unfold bind, log, emit, throw. eexists. reflexivity. }
  destruct Hbody as (w2 & Hbody). rewrite Hbody. eexists.
  split; [reflexivity|]. repeat split.
Qed.

(** A collection with one document, of a chain that is not known, dated
    after the last date. *)
Definition late_world : world :=
mkWorld [mkTps "999" (of_Z 10000000000000) (Num (Fin 1)) 0]
        ["43114"] (sample_now * 1000) 0 0 [].

Lemma getNetworkTps_throws_on_a_late_document_witness :
  exists w',
    getNetworkTps provider_down late_world = (Exc RangeError, w')
    /\ tps w' = tps late_world /\ requests w' = requests late_world
    /\ writes w' = writes late_world.
Proof.
  apply (getNetworkTps_throws_on_a_late_document provider_down late_world
           (mkTps "999" (of_Z 10000000000000) (Num (Fin 1)) 0)).
  - unfold maxTime. simpl. lia.
  - simpl. auto.
  - unfold beyond, too_late, maxTime, Qlt. simpl. lia.
Defined.

Lemma beyond_eqb a b : num_eqb a b = true -> beyond a -> beyond b.
Proof.
  unfold beyond. destruct a as [| | |p], b as [| | |q]; simpl;
    try discriminate; try tauto.
  intros H. apply Qeq_bool_iff in H. now rewrite H.
Qed.

Lemma mapM_points_late gs e w :
  (exists g, In g gs /\ beyond (g_timestamp g)) ->
  mapM (fun point =>
          date <- iso_of_seconds (g_timestamp point) ;;
          ret (HistoryPoint.make (g_timestamp point) (g_totalTps point)
                                 (g_chainCount point) date)) gs e w
  = (Exc RangeError, w).
Proof.
  induction gs as [|g0 gs IH]; intros (g & Hin & Hlate); [destruct Hin|].
  cbn [mapM]. unfold bind at 1. unfold bind at 1.
  unfold iso_of_seconds at 1. unfold Eff.toISOString at 1.
  destruct (Js.toISOString (new_Date (num_scale (g_timestamp g0) 1000)))
    as [s|] eqn:Hs; [|reflexivity].
  unfold ret at 1. unfold ret at 1. unfold bind at 1.
  rewrite IH; [reflexivity|].
  destruct Hin as [->|Hin]; [|eauto].
  unfold beyond in Hlate. rewrite (too_late_no_date _ Hlate) in Hs.
  discriminate.
Qed.

(** X18.  One document of a known chain, from the cutoff on, with a
    timestamp after the last date is enough for [getNetworkTpsHistory] to
    throw: the date of its group does not exist.  The caller gets a new
    error whose message starts with "Error fetching network TPS
    history: "; the collection is left alone. *)
Theorem getNetworkTpsHistory_throws_on_a_late_document (days : Q) (e : env)
  (w : world) (r : TpsRecord) :
  In r (tps w) -> In (chainId r) (chains w) ->
  num_le (Fin (inject_Z (clock w / 1000) - days * inject_Z 86400))
         (timestamp r) = true ->
  beyond (timestamp r) ->
  exists w',
    getNetworkTpsHistory days e w
    = (Exc (Wrapped "Error fetching network TPS history: " RangeError), w')
    /\ tps w' = tps w /\ requests w' = requests w /\ writes w' = writes w.
Proof.
  intros Hin Hchain Hle Hlate.
  set (cutoff := Fin (inject_Z (clock w / 1000) - days * inject_Z 86400)) in *.
  assert (Hm : In r (filter (matching (chains w) cutoff) (tps w))).
  { apply filter_In. split; [assumption|]. unfold matching.
    rewrite Hle, andb_true_r. apply existsb_exists.
    exists (chainId r). split; [assumption | apply String.eqb_refl]. }
  destruct (aggregate_spec (chains w) cutoff (tps w)) as (_ & _ & Hcover).
  destruct (Hcover r Hm) as (g & Hg & Heq).
  unfold getNetworkTpsHistory, try_catch.
  unfold bind at 1, Date_now at 1. unfold bind at 1, Chain_find at 1.
  unfold bind at 1, TPS_read at 1.
  change (24 * 60 * 60) with 86400. fold cutoff.
  unfold bind at 1. rewrite mapM_points_late.
  - unfold bind, log, emit, throw. eexists. split; [reflexivity|].
    repeat split.
  - exists g. split; [exact Hg|]. eapply beyond_eqb; eassumption.
Qed.

(** The same document, of a chain that is known. *)
Definition late_known_world : world :=
mkWorld [mkTps "999" (of_Z 10000000000000) (Num (Fin 1)) 0]
        ["999"] (sample_now * 1000) 0 0 [].

Lemma getNetworkTpsHistory_throws_on_a_late_document_witness :
  exists w',
    getNetworkTpsHistory 7 provider_down late_known_world
    = (Exc (Wrapped "Error fetching network TPS history: " RangeError), w')
    /\ tps w' = tps late_known_world
    /\ requests w' = requests late_known_world
    /\ writes w' = writes late_known_world.
Proof.
  apply (getNetworkTpsHistory_throws_on_a_late_document 7 provider_down
           late_known_world
           (mkTps "999" (of_Z 10000000000000) (Num (Fin 1)) 0)).
  - simpl. auto.
  - simpl. auto.
  - reflexivity.
  - unfold beyond, too_late, maxTime, Qlt. simpl. lia.
Defined.

(* ===================================================================== *)
(** * A [null] among the points *)
(* ===================================================================== *)

(** A reply on which an attempt throws whatever the time: a rejection,
    or a list of points with a [null] element. *)
Definition dead (r : reply) : bool :=
match r with
| Rejected => true
| Resolved (Results results) =>
    existsb (fun item => negb (is_some item)) results
| _ => false
end.

(** The callback throws nothing but the RangeError of a date. *)
Lemma isValidItem_exc chain lo hi p e w x w' :
  isValidItem chain lo hi (Some p) e w = (Exc x, w') -> x = RangeError.
Proof.
  unfold isValidItem. destruct (isNaN _ || isNaN _).
  - unfold_eff. discriminate.
  - destruct (negb _).
    + unfold_eff. destruct (Js.toISOString _); [discriminate|].
      intros H; now inversion H.
    + unfold_eff. discriminate.
Qed.

Lemma filter_throws_on_null chain lo hi items e w :
  In None items ->
  exists err w',
    filterM (isValidItem chain lo hi) items e w = (Exc err, w')
    /\ (err = TypeError \/ err = RangeError).
Proof.
  revert w. induction items as [|item items IH]; intros w Hin;
    [destruct Hin|].
  cbn [filterM]. unfold bind at 1. destruct item as [p|].
  - destruct Hin as [Hin|Hin]; [discriminate|].
    destruct (isValidItem chain lo hi (Some p) e w) as [[b|x] w1] eqn:Hcb.
    + unfold bind at 1. destruct (IH w1 Hin) as (err & w' & -> & Herr).
      eauto.
    + apply isValidItem_exc in Hcb. subst x. eauto.
  - unfold isValidItem, throw. eauto.
Qed.

Lemma body_dead chain k n e w :
  dead (metrics e chain (requests w)) = true ->
  exists err w1,
    attempt_body chain k n e w = (Exc err, w1)
    /\ tps w1 = tps w /\ writes w1 = writes w
    /\ requests w1 = S (requests w).
Proof.
  intros Hd.
  destruct (metrics e chain (requests w)) as [|[| |results]] eqn:Hm;
    try discriminate.
  - rewrite (attempt_body_rejected _ _ _ _ _ Hm). eexists _, _.
    split; [reflexivity|]. repeat split.
  - rewrite (attempt_body_results _ _ _ _ _ _ Hm).
    assert (Hin : In None results).
    { simpl in Hd. apply existsb_exists in Hd.
      destruct Hd as ([r|] & Hr & Hx); [discriminate | exact Hr]. }
    destruct (filter_throws_on_null chain
                (clock w / 1000 - 30 * 24 * 60 * 60) (clock w / 1000)
                results e (validating chain k n results w) Hin)
      as (err & w1 & Hf & _).
    rewrite Hf.
    destruct (filter_keeps_world _ _ _ _ _ _ _ _ Hf)
      as (Htps & _ & Hwrites & Hreq & _).
    eexists _, _. split; [reflexivity|]. auto.
Qed.

Lemma dead_run chain n e todo k w :
  (k + todo = n + 1)%nat -> (1 <= todo)%nat ->
  (forall j, (j < todo)%nat ->
     dead (metrics e chain (requests w + j)) = true) ->
  exists w',
    attempts chain n todo k e w = (Val AllAttemptsFailed, w')
    /\ tps w' = tps w /\ writes w' = writes w
    /\ requests w' = (requests w + todo)%nat.
Proof.
  revert k w. induction todo as [|todo IH]; intros k w Hk Htodo Hall; [lia|].
  rewrite attempts_unfold, turn_unfold.
  pose proof (Hall 0%nat ltac:(lia)) as H0. rewrite Nat.add_0_r in H0.
  destruct (body_dead chain k n e w H0) as (err & w1 & -> & Ht & Hw & Hr).
  destruct (Nat.eqb_spec k n) as [->|Hne].
  - eexists. split; [reflexivity|]. cbn [tps writes requests logged].
    repeat split; auto. lia.
  - set (w2 := paused _ _).
    destruct (IH (S k) w2 ltac:(lia) ltac:(lia)) as (w' & Hrun & Ht' & Hw' & Hr').
    { intros j Hj. unfold w2. cbn [requests paused logged]. rewrite Hr.
      replace (S (requests w) + j)%nat with (requests w + S j)%nat by lia.
      apply Hall. lia. }
    exists w'. split; [exact Hrun|]. unfold w2 in *.
    cbn [tps writes requests paused logged] in Ht', Hw', Hr'.
    repeat split; try congruence. lia.
Qed.

(** X19.  A [null] among the points of a reply makes the attempt throw
    before anything is written, so that the valid points that come with
    it are lost.  When each of the [n] replies is a rejection or has such
    an element, the call sends [n] requests and returns [null] from its
    last [catch]; the collection has not changed and no bulk write was
    sent. *)
Theorem null_point_fails_the_attempt (chain : string) (n : nat) (e : env)
  (w : world) :
  (1 <= n)%nat ->
  (forall j, (j < n)%nat ->
     dead (metrics e chain (requests w + j)) = true) ->
  exists w',
    updateTpsData chain n e w = (Val AllAttemptsFailed, w')
    /\ tps w' = tps w /\ writes w' = writes w
    /\ requests w' = (requests w + n)%nat.
Proof.
  intros Hn Hall. unfold updateTpsData.
  apply dead_run; [lia | exact Hn | exact Hall].
Qed.

(** A provider whose replies have a good point and a [null]. *)
Definition provider_null : env :=
mkEnv (fun _ _ => Resolved (Results [Some (good_point sample_now); None]))
      (fun _ => WriteOk) (Some "secret").

Lemma null_point_fails_the_attempt_witness :
  exists w',
    updateTpsData "43114" 3 provider_null fresh_world
    = (Val AllAttemptsFailed, w')
    /\ tps w' = tps fresh_world /\ writes w' = writes fresh_world
    /\ requests w' = (requests fresh_world + 3)%nat.
Proof.
  apply (null_point_fails_the_attempt "43114" 3 provider_null fresh_world).
  - apply Nat.leb_le. reflexivity.
  - intros j _. reflexivity.
Defined.
